(** * degenbounty: the claim listener, the admission decision and the
      bounty issuance workflow of the agent's [index.js]

    The development embeds the JavaScript of the agent shallowly.  Awaited
    calls to the outside world (ledger node, NFT metadata gateway, scoring
    service, generative service) are read from an environment record, one
    field per call site; an awaited call either returns or throws, which is
    the [result] type below.  Module-level [let] variables of the script
    ([provider], [contract], [lastProcessedBlock], [usedFallbackIndices],
    [db]) are the fields of one record that every function receives and
    returns.

    The script exists in three variants.  The one followed here is the
    latest, with the fallback rotation, the row written by [createBounty]
    and the identifier backfill; the others differ from it in the threshold
    of the admission decision and in parts that they lack. *)

From Stdlib Require Import ZArith Lia Bool List Ascii String.
From Stdlib Require Import DecimalPos DecimalString.
From stdpp Require Import base option list strings gmap.
Import ListNotations.

Local Open Scope string_scope.

(** ** JavaScript values and built-ins used by the script *)

Module JS.

(** A thrown value.  The script inspects only [error.code] and
    [error.message]. *)
Record error := mkError { code : option string; message : string }.

Definition TypeError : error := mkError None "TypeError".

(** Completion of an expression or of an awaited promise. *)
Inductive result (A : Type) : Type :=
| Ok (a : A)
| Throw (e : error).
Arguments Ok {A} a.
Arguments Throw {A} e.

#[export] Instance result_ret : MRet result := fun _ a => Ok a.
#[export] Instance result_bind : MBind result := fun _ _ f m =>
  match m with
  | Ok a => f a
  | Throw e => Throw e
  end.

(** A JavaScript number as the script meets it: the outcome of [parseInt],
    which is [NaN] or an integer.  The integer is kept exact; conversion to a
    double is monotone and is exact on the thresholds the script compares
    with, so the comparison [score >= threshold] is not affected. *)
Inductive number := NaN | Num (z : Z).

(** [a >= b] on numbers: false as soon as an operand is [NaN]. *)
Definition ge (a b : number) : bool :=
  match a, b with
  | Num x, Num y => (y <=? x)%Z
  | _, _ => false
  end.

(** Strings are sequences of code units below 256. *)
Definition code_unit (c : ascii) : Z := Z.of_N (N_of_ascii c).

Definition in_range (lo hi : Z) (c : ascii) : bool :=
  ((lo <=? code_unit c) && (code_unit c <=? hi))%Z.

(** [String.prototype.toLowerCase] on one code unit: A-Z, and the Latin-1
    capitals U+00C0..U+00DE except the multiplication sign U+00D7. *)
Definition lower_unit (c : ascii) : ascii :=
  if in_range 65 90 c then ascii_of_N (N_of_ascii c + 32)
  else if in_range 192 222 c && negb (code_unit c =? 215)%Z
       then ascii_of_N (N_of_ascii c + 32)
  else c.

Fixpoint toLowerCase (s : string) : string :=
  match s with
  | EmptyString => EmptyString
  | String c r => String (lower_unit c) (toLowerCase r)
  end.

(** White space skipped by [parseInt]: TAB, LF, VT, FF, CR, SP, NBSP. *)
Definition is_white (c : ascii) : bool :=
  in_range 9 13 c || (code_unit c =? 32)%Z || (code_unit c =? 160)%Z.

Fixpoint trim_start (s : string) : string :=
  match s with
  | String c r => if is_white c then trim_start r else s
  | EmptyString => EmptyString
  end.

Definition digit_val (c : ascii) : option Z :=
  if in_range 48 57 c then Some (code_unit c - 48)%Z
  else if in_range 97 122 c then Some (code_unit c - 87)%Z
  else if in_range 65 90 c then Some (code_unit c - 55)%Z
  else None.

(** Value of the longest prefix of radix-[R] digits; [acc] is the value read
    so far, [None] while no digit has been read. *)
Fixpoint digits (R : Z) (s : string) (acc : option Z) : option Z :=
  match s with
  | String c r =>
      match digit_val c with
      | Some d =>
          if (d <? R)%Z
          then digits R r (Some (match acc with
                                 | Some a => a * R + d
                                 | None => d
                                 end)%Z)
          else acc
      | None => acc
      end
  | EmptyString => acc
  end.

(** [parseInt(s)] with no radix argument. *)
Definition parseInt (s : string) : number :=
  let s0 := trim_start s in
  let '(sign, s1) :=
    match s0 with
    | String "-" r => ((-1)%Z, r)
    | String "+" r => (1%Z, r)
    | _ => (1%Z, s0)
    end in
  let '(R, s2) :=
    match s1 with
    | String "0" (String "x" r) => (16%Z, r)
    | String "0" (String "X" r) => (16%Z, r)
    | _ => (10%Z, s1)
    end in
  match digits R s2 None with
  | Some v => Num (sign * v)
  | None => NaN
  end.

(** [BigInt.prototype.toString()] and [Number.prototype.toString()] on an
    integer: decimal digits, a minus sign when negative. *)
Definition toString_int (z : Z) : string :=
  NilZero.string_of_int (Z.to_int z).

(** [s.replace(pat, rep)] with string arguments: the first occurrence only. *)
Fixpoint replace (pat rep s : string) : string :=
  if String.prefix pat s
  then rep ++ String.substring (String.length pat)
                               (String.length s - String.length pat) s
  else match s with
       | EmptyString => EmptyString
       | String c r => String c (replace pat rep r)
       end.

(** A value produced by [JSON.parse] / [response.json()].  A JSON number is
    carried by its [Number::toString] rendering, which is all the script
    ever asks of it. *)
#[warnings="-register-all"]
Inductive json :=
| JNull
| JBool (b : bool)
| JNum (rendering : string)
| JStr (s : string)
| JArr (items : list json)
| JObj (fields : list (string * json)).

(** [None] is [undefined]. *)
Definition value := option json.
Definition undefined : value := None.

(** Own property of a parsed object: [JSON.parse] keeps the last of
    duplicate keys. *)
Fixpoint field (k : string) (fields : list (string * json)) : value :=
  match fields with
  | [] => undefined
  | (k', v) :: rest =>
      match field k rest with
      | Some later => Some later
      | None => if String.eqb k k' then Some v else undefined
      end
  end.

(** [v.k] and [v[k]] for the keys the script uses (a field name, or the
    index ["0"]): a [TypeError] on [undefined] and [null], the own property
    otherwise. *)
Definition get (k : string) (v : value) : result value :=
  match v with
  | None | Some JNull => Throw TypeError
  | Some (JObj fields) => Ok (field k fields)
  | Some (JArr items) =>
      Ok (if String.eqb k "0" then head items else undefined)
  | Some (JStr s) =>
      Ok (if String.eqb k "0"
          then match s with
               | String c _ => Some (JStr (String c EmptyString))
               | EmptyString => undefined
               end
          else undefined)
  | Some (JBool _) | Some (JNum _) => Ok undefined
  end.

(** Truthiness, as tested by [if (!x)]. *)
Definition truthy (v : value) : bool :=
  match v with
  | None | Some JNull => false
  | Some (JBool b) => b
  | Some (JNum r) => negb (String.eqb r "0")
  | Some (JStr s) => negb (String.eqb s "")
  | Some (JArr _) | Some (JObj _) => true
  end.

(** [ToString] of a parsed value.  An array joins its elements with commas,
    [null] elements rendering as the empty string. *)
Fixpoint json_toString (j : json) : string :=
  match j with
  | JNull => "null"
  | JBool true => "true"
  | JBool false => "false"
  | JNum r => r
  | JStr s => s
  | JArr items =>
      (fix join (l : list json) : string :=
         match l with
         | [] => ""
         | x :: rest =>
             let sx := match x with JNull => "" | _ => json_toString x end in
             match rest with
             | [] => sx
             | _ :: _ => sx ++ "," ++ join rest
             end
         end) items
  | JObj _ => "[object Object]"
  end.

Definition ToString (v : value) : string :=
  match v with
  | None => "undefined"
  | Some j => json_toString j
  end.

End JS.

Import JS.

(** ** Admission decision: [verifyClaimWithAI] *)

Module Admission.

(** The script exists in deployment variants that differ in the literal of
    the comparison [score >= ...] and in whether the image is probed for its
    headers before scoring. *)
Record variant := { threshold : Z; probes_image : bool }.

(** [score >= 7], no probe ([index.js] and the second unnamed variant). *)
Definition variant_7 : variant := {| threshold := 7; probes_image := false |}.
(** [score >= 9], with the probe (the first unnamed variant). *)
Definition variant_9 : variant := {| threshold := 9; probes_image := true |}.

Definition nl : string := String "010" EmptyString.

(** Body of the POST to the scoring service that varies with the claim. *)
Record score_request := {
  sr_text : string;
  sr_image_url : value
}.

(** The outside world as one call of [verifyClaimWithAI] meets it. *)
Record env := {
  (** [nftContract.tokenURI(claimId)] *)
  tokenURI : Z -> result string;
  (** [fetch(url)] followed by [response.json()] *)
  fetch_json : string -> result json;
  (** [fetch(imageUrl)], then the [content-type] and [content-length]
      headers ([null] when absent) *)
  fetch_headers : value -> result (option string * option string);
  (** the POST to the scoring service followed by [response.json()] *)
  chat_completion : score_request -> result json
}.

Definition show_header (h : option string) : string :=
  match h with Some s => s | None => "null" end.

(** The [imageMetadata] string of the probing variant; the probe has its own
    [try/catch], which leaves the empty string. *)
Definition imageMetadata (e : env) (imageUrl : value) : string :=
  match fetch_headers e imageUrl with
  | Ok (ct, cl) =>
      "Image Type: " ++ show_header ct ++ ", Size: " ++ show_header cl
      ++ " bytes"
  | Throw _ => ""
  end.

Definition user_text (v : variant) (e : env)
    (bountyTitle bountyDescription : string) (imageUrl : value) : string :=
  if probes_image v
  then "Bounty Title: " ++ bountyTitle ++ nl
       ++ "Bounty Description: " ++ bountyDescription ++ nl
       ++ "Image Metadata: " ++ imageMetadata e imageUrl ++ nl
       ++ "Rate the submission (0 if AI-generated, 1-10 if real):"
  else "Bounty Title: " ++ bountyTitle ++ nl
       ++ "Bounty Description: " ++ bountyDescription ++ nl
       ++ "Rate how well the image satisfies the bounty requirements on a scale of 1-10:".

(** The [try] block of [verifyClaimWithAI]. *)
Definition verify_body (v : variant) (e : env)
    (bountyTitle bountyDescription : string) (claimId : Z) : result bool :=
  tokenURI ← tokenURI e claimId;
  let httpUrl := replace "ipfs://" "https://ipfs.io/ipfs/" tokenURI in
  metadata ← fetch_json e httpUrl;
  imageUrl ← get "image" (Some metadata);
  if negb (truthy imageUrl) then Ok false
  else
    data ← chat_completion e
      {| sr_text := user_text v e bountyTitle bountyDescription imageUrl;
         sr_image_url := imageUrl |};
    choices ← get "choices" (Some data);
    choice ← get "0" choices;
    msg ← get "message" choice;
    content ← get "content" msg;
    let score := parseInt (ToString content) in
    let decision := ge score (Num (threshold v)) in
    Ok decision.

(** [verifyClaimWithAI]: the [catch] turns every throw into [false]. *)
Definition verifyClaimWithAI (v : variant) (e : env)
    (bountyTitle bountyDescription : string) (claimId : Z) : bool :=
  match verify_body v e bountyTitle bountyDescription claimId with
  | Ok decision => decision
  | Throw _ => false
  end.

(** The image reference of a claim, when the metadata resolves: the part of
    [verify_body] before the test [if (!imageUrl)]. *)
Definition evidence (e : env) (claimId : Z) : result value :=
  tokenURI ← tokenURI e claimId;
  metadata ← fetch_json e (replace "ipfs://" "https://ipfs.io/ipfs/" tokenURI);
  get "image" (Some metadata).

(** The score read from the service's answer for a resolved image: the part
    of [verify_body] from the POST to [parseInt]. *)
Definition oracle_score (v : variant) (e : env)
    (bountyTitle bountyDescription : string) (imageUrl : value)
  : result number :=
  data ← chat_completion e
    {| sr_text := user_text v e bountyTitle bountyDescription imageUrl;
       sr_image_url := imageUrl |};
  choices ← get "choices" (Some data);
  choice ← get "0" choices;
  msg ← get "message" choice;
  content ← get "content" msg;
  Ok (parseInt (ToString content)).

(** *** A concrete world *)

(** The metadata of every claim names an image, and the message content of
    the scoring service's answer is [answer]. *)
Definition scripted (answer : json) : env :=
  {| tokenURI := fun _ => Ok "ipfs://QmClaim/metadata.json";
     fetch_json := fun _ => Ok (JObj [("image", JStr "ipfs://QmClaim/photo.png")]);
     fetch_headers := fun _ => Ok (Some "image/png", None);
     chat_completion := fun _ =>
       Ok (JObj [("choices",
                  JArr [JObj [("message", JObj [("content", answer)])]])]) |}.

End Admission.

(** ** The [bounties] table *)

Module Store.

(** One row of [bounties].  [created_at] is the value of
    [CURRENT_TIMESTAMP] at insertion, in seconds. *)
Record row := {
  id : Z;
  title : string;
  description : string;
  contract_bounty_id : option string;
  created_at : Z
}.

(** The table and its [AUTOINCREMENT] counter.  Input/output faults of the
    embedded database are not modelled: a statement fails only on a
    constraint of the schema. *)
Record t := { rows : list row; last_id : Z }.

Definition empty : t := {| rows := []; last_id := 0 |}.

(** [INSERT INTO bounties (title, description, contract_bounty_id)
    VALUES (?, ?, ?)] at time [now]; both text columns are [NOT NULL], and
    an [undefined] parameter binds as [NULL]. *)
Definition insert (now : Z) (title description : option string)
    (cid : option string) (s : t) : result t :=
  match title, description with
  | Some ttl, Some dsc =>
      Ok {| rows := rows s ++ [ {| id := last_id s + 1;
                                   title := ttl;
                                   description := dsc;
                                   contract_bounty_id := cid;
                                   created_at := now |} ];
            last_id := last_id s + 1 |}
  | _, _ => Throw (mkError (Some "SQLITE_CONSTRAINT")
                           "NOT NULL constraint failed")
  end.

(** [UPDATE bounties SET contract_bounty_id = ? WHERE id = ?] *)
Definition set_contract_bounty_id (cid : string) (rid : Z) (s : t) : t :=
  {| rows := map (fun r =>
                    if (id r =? rid)%Z
                    then {| id := id r;
                            title := title r;
                            description := description r;
                            contract_bounty_id := Some cid;
                            created_at := created_at r |}
                    else r) (rows s);
     last_id := last_id s |}.

(** [ORDER BY created_at DESC]: a stable insertion sort, so rows with equal
    timestamps stay in row order (SQL leaves their order open).  [r] comes
    before the rows of [sorted] in the table. *)
Fixpoint insert_desc (r : row) (sorted : list row) : list row :=
  match sorted with
  | [] => [r]
  | x :: rest =>
      if (created_at x <=? created_at r)%Z
      then r :: sorted
      else x :: insert_desc r rest
  end.

Definition order_by_created_at_desc (l : list row) : list row :=
  fold_right insert_desc [] l.

(** [SELECT ... FROM bounties ORDER BY created_at DESC LIMIT 1] *)
Definition latest (s : t) : option row :=
  head (order_by_created_at_desc (rows s)).

(** [SELECT title FROM bounties ORDER BY created_at DESC LIMIT 100] *)
Definition recent_titles (s : t) : list string :=
  map title (take 100 (order_by_created_at_desc (rows s))).

End Store.

(** ** Module-level state of the script *)

(** [provider] and [contract] are counted by the number of times
    [initializeContract] has built them; [0] is the unassigned [let]. *)
Record globals := {
  provider : nat;
  contract : nat;
  lastProcessedBlock : Z;
  usedFallbackIndices : gset nat;
  db : Store.t
}.

Definition set_lastProcessedBlock (h : Z) (g : globals) : globals :=
  {| provider := provider g;
     contract := contract g;
     lastProcessedBlock := h;
     usedFallbackIndices := usedFallbackIndices g;
     db := db g |}.

Definition set_provider (p : nat) (g : globals) : globals :=
  {| provider := p;
     contract := contract g;
     lastProcessedBlock := lastProcessedBlock g;
     usedFallbackIndices := usedFallbackIndices g;
     db := db g |}.

Definition set_contract (c : nat) (g : globals) : globals :=
  {| provider := provider g;
     contract := c;
     lastProcessedBlock := lastProcessedBlock g;
     usedFallbackIndices := usedFallbackIndices g;
     db := db g |}.

Definition set_usedFallbackIndices (u : gset nat) (g : globals) : globals :=
  {| provider := provider g;
     contract := contract g;
     lastProcessedBlock := lastProcessedBlock g;
     usedFallbackIndices := u;
     db := db g |}.

Definition set_db (s : Store.t) (g : globals) : globals :=
  {| provider := provider g;
     contract := contract g;
     lastProcessedBlock := lastProcessedBlock g;
     usedFallbackIndices := usedFallbackIndices g;
     db := s |}.

(** ** Claim listener: [initializeContract] and [setupClaimListener] *)

Module Listener.

Import Admission.
Local Open Scope list_scope.

(** Arguments of a [ClaimCreated] event. *)
Record claim_event := {
  id : Z;
  issuer : string;
  bountyId : Z;
  bountyIssuer : string;
  name : string;
  description : string
}.

(** What the script reads of [contract.bounties(bountyId)]. *)
Record bounty := { bounty_name : string; bounty_description : string }.

(** What a run does to the outside world, in program order: the calls it
    issues, its console lines, and the one assignment to the cursor. *)
Inductive effect :=
| LogChecking (from to : Z)
| QueryFilter (from to : Z)
| LogDetected (bountyId id : Z)
| LogSkipping (bountyId : Z)
| Bounties (bountyId : Z)
| Verify (bountyTitle bountyDescription : string) (id : Z)
| LogVerified (id : Z)
| AcceptClaim (bountyId id : Z)
| Wait (bountyId id : Z)
| LogAccepted (id : Z)
| LogErrorAccepting (e : error)
| LogFailedVerification (id : Z)
| LogErrorProcessing (e : error)
| SetCursor (h : Z)
| LogErrorPolling (e : error)
| LogReconnecting
| LogInitialized
| LogInitFailed (msg : string).

(** [CHAIN_CONFIG] and the imports it is used with. *)
Record config := {
  privateKey : option string;
  abi_loaded : bool;
  (** [new ethers.Wallet(key, provider).address] *)
  wallet_address : string -> result string
}.

(** The outside world as one tick of the interval timer meets it. *)
Record env := {
  cfg : config;
  (** [provider.getBlockNumber()] at the start of the tick *)
  getBlockNumber : result Z;
  (** [contract.queryFilter("ClaimCreated", from, to)] *)
  queryFilter : Z -> Z -> result (list claim_event);
  (** [contract.bounties(bountyId)] *)
  bounties : Z -> result bounty;
  admission : Admission.env;
  (** [contract.acceptClaim(bountyId, id)] and the [tx.wait()] after it *)
  acceptClaim : Z -> Z -> result unit;
  wait : Z -> Z -> result unit;
  (** [provider.getBlockNumber()] on the provider [initializeContract]
      builds when the tick reconnects *)
  reconnect_probe : result Z
}.

Definition outcome : Type := globals * list effect * result unit.

(** [initializeContract]: every failure is logged and thrown again. *)
Definition initializeContract (c : config) (probe : result Z) (g : globals)
  : outcome :=
  let fail (g' : globals) (e : error) : outcome :=
    (g', [LogInitFailed (message e)], Throw e) in
  match privateKey c with
  | None | Some EmptyString =>
      fail g (mkError None "Private key is missing from environment variables")
  | Some key =>
      let formattedPrivateKey :=
        if String.prefix "0x" key then key else ("0x" ++ key)%string in
      let g1 := set_provider (S (provider g)) g in
      match probe with
      | Throw _ => fail g1 (mkError None "Failed to connect to RPC endpoint")
      | Ok _ =>
          match wallet_address c formattedPrivateKey with
          | Throw e => fail g1 e
          | Ok _ =>
              if negb (abi_loaded c)
              then fail g1 (mkError None "Contract address or ABI is missing")
              else (set_contract (provider g1) g1, [LogInitialized], Ok ())
          end
      end
  end.

(** [new ethers.Wallet(CHAIN_CONFIG.privateKey, provider).address] as the
    loop body builds it, from the unformatted key. *)
Definition wallet (c : config) : result string :=
  match privateKey c with
  | None => Throw TypeError
  | Some key => wallet_address c key
  end.

(** [setupClaimListener] before it starts the timer: the cursor starts at
    the height of the ledger at that moment. *)
Definition setupClaimListener (height : result Z) (g : globals)
  : globals * result unit :=
  match height with
  | Ok h => (set_lastProcessedBlock h g, Ok ())
  | Throw err => (g, Throw err)
  end.

Section Tick.

Variable v : variant.

(** The inner [try] of the loop body: lookup, verification, settlement.
    Nothing thrown in it leaves it. *)
Definition pipeline (e : env) (ev : claim_event) : list effect :=
  Bounties (bountyId ev) ::
  match bounties e (bountyId ev) with
  | Throw err => [LogErrorProcessing err]
  | Ok b =>
      Verify (bounty_name b) (bounty_description b) (id ev) ::
      if verifyClaimWithAI v (admission e)
           (bounty_name b) (bounty_description b) (id ev)
      then
        LogVerified (id ev) :: AcceptClaim (bountyId ev) (id ev) ::
        match acceptClaim e (bountyId ev) (id ev) with
        | Throw err => [LogErrorAccepting err]
        | Ok _ =>
            Wait (bountyId ev) (id ev) ::
            match wait e (bountyId ev) (id ev) with
            | Throw err => [LogErrorAccepting err]
            | Ok _ => [LogAccepted (id ev)]
            end
        end
      else [LogFailedVerification (id ev)]
  end.

(** The test [bountyIssuer.toLowerCase() !== wallet.address.toLowerCase()]
    is false. *)
Definition owned (address : string) (ev : claim_event) : bool :=
  String.eqb (toLowerCase (bountyIssuer ev)) (toLowerCase address).

(** One iteration of [for (const event of events)]. *)
Definition handle_event (e : env) (ev : claim_event)
  : list effect * result unit :=
  match wallet (cfg e) with
  | Throw err => ([LogDetected (bountyId ev) (id ev)], Throw err)
  | Ok address =>
      if owned address ev
      then (LogDetected (bountyId ev) (id ev) :: pipeline e ev, Ok ())
      else ([LogDetected (bountyId ev) (id ev); LogSkipping (bountyId ev)],
            Ok ())
  end.

Fixpoint for_events (e : env) (events : list claim_event)
  : list effect * result unit :=
  match events with
  | [] => ([], Ok ())
  | ev :: rest =>
      match handle_event e ev with
      | (t, Ok _) =>
          let '(t', r) := for_events e rest in (t ++ t', r)
      | (t, Throw err) => (t, Throw err)
      end
  end.

(** The outer [catch]: log, and on the two connectivity codes await
    [initializeContract], whose own throw rejects the tick. *)
Definition on_poll_error (e : env) (g : globals) (done : list effect)
    (err : error) : outcome :=
  let reconnects :=
    match code err with
    | Some c => String.eqb c "NETWORK_ERROR" || String.eqb c "UNKNOWN_ERROR"
    | None => false
    end in
  if reconnects
  then let '(g', t, r) := initializeContract (cfg e) (reconnect_probe e) g in
       (g', done ++ LogErrorPolling err :: LogReconnecting :: t, r)
  else (g, done ++ [LogErrorPolling err], Ok ()).

(** A tick up to the resolution of [queryFilter]: the only part that reads
    the cursor. *)
Inductive begun :=
| Idle
| Aborted (done : list effect) (err : error)
| Fetched (latestBlock : Z) (events : list claim_event).

Definition tick_begin (e : env) (cursor : Z) : begun :=
  match getBlockNumber e with
  | Throw err => Aborted [] err
  | Ok latestBlock =>
      if (cursor <? latestBlock)%Z
      then match queryFilter e (cursor + 1) latestBlock with
           | Throw err =>
               Aborted [LogChecking (cursor + 1) latestBlock;
                        QueryFilter (cursor + 1) latestBlock] err
           | Ok events => Fetched latestBlock events
           end
      else Idle
  end.

(** The rest of a tick whose range was fetched when the cursor was
    [from - 1]: the loop, then the assignment
    [lastProcessedBlock = latestBlock] on the globals as they are by then. *)
Definition tick_finish (e : env) (from latestBlock : Z)
    (events : list claim_event) (g : globals) : outcome :=
  let t0 := [LogChecking from latestBlock; QueryFilter from latestBlock] in
  match for_events e events with
  | (t, Ok _) =>
      (set_lastProcessedBlock latestBlock g,
       t0 ++ t ++ [SetCursor latestBlock], Ok ())
  | (t, Throw err) => on_poll_error e g (t0 ++ t) err
  end.

(** The callback of [setInterval], run from start to end with nothing in
    between. *)
Definition tick (e : env) (g : globals) : outcome :=
  match tick_begin e (lastProcessedBlock g) with
  | Idle => (g, [], Ok ())
  | Aborted done err => on_poll_error e g done err
  | Fetched latestBlock events =>
      tick_finish e (lastProcessedBlock g + 1) latestBlock events g
  end.

(** Ticks one after the other, each run to its end before the next starts;
    a rejected tick does not keep the timer from firing again. *)
Fixpoint run_ticks (envs : list env) (g : globals) : globals :=
  match envs with
  | [] => g
  | e :: rest => run_ticks rest (tick e g).1.1
  end.

(** *** Ticks that overlap

    [setInterval] fires the callback every 15 seconds whether or not the
    previous activation has returned from its awaits.  An activation that has
    fetched its range holds [latestBlock] in a local constant while it awaits
    the pipeline of each event; other activations can start and finish in the
    meantime. *)

Record activation := {
  act_env : env;
  act_from : Z;
  act_latest : Z;
  act_events : list claim_event
}.

Record system := { glob : globals; inflight : list activation }.

Inductive action :=
| Fire (e : env)      (** the timer fires: run up to the fetched range *)
| Resume (k : nat).   (** the [k]-th suspended activation runs to its end *)

Definition step (s : system) (a : action) : system :=
  match a with
  | Fire e =>
      match tick_begin e (lastProcessedBlock (glob s)) with
      | Idle => s
      | Aborted done err =>
          {| glob := (on_poll_error e (glob s) done err).1.1;
             inflight := inflight s |}
      | Fetched latestBlock events =>
          {| glob := glob s;
             inflight := inflight s ++
               [ {| act_env := e;
                    act_from := lastProcessedBlock (glob s) + 1;
                    act_latest := latestBlock;
                    act_events := events |} ] |}
      end
  | Resume k =>
      match inflight s !! k with
      | None => s
      | Some a =>
          {| glob := (tick_finish (act_env a) (act_from a) (act_latest a)
                        (act_events a) (glob s)).1.1;
             inflight := delete k (inflight s) |}
      end
  end.

(** The cursor after each action of a schedule. *)
Fixpoint cursors (s : system) (sched : list action) : list Z :=
  match sched with
  | [] => []
  | a :: rest =>
      lastProcessedBlock (glob (step s a)) :: cursors (step s a) rest
  end.

(** The schedule in which no two activations overlap: each one is resumed
    as soon as it is suspended. *)
Definition sequential (envs : list env) : list action :=
  flat_map (fun e => [Fire e; Resume 0%nat]) envs.

Local Open Scope Z_scope.

(** The three ways a tick can go. *)
Inductive tick_shape (e : env) (g : globals) : outcome -> Prop :=
| shape_idle latest :
    getBlockNumber e = Ok latest ->
    latest <= lastProcessedBlock g ->
    tick_shape e g (g, [], Ok ())
| shape_aborted done err :
    (getBlockNumber e = Throw err /\ done = []
     \/ exists latest,
          getBlockNumber e = Ok latest /\ lastProcessedBlock g < latest /\
          (queryFilter e (lastProcessedBlock g + 1) latest = Throw err /\
           done = [LogChecking (lastProcessedBlock g + 1) latest;
                   QueryFilter (lastProcessedBlock g + 1) latest]
           \/ exists events body,
                queryFilter e (lastProcessedBlock g + 1) latest = Ok events /\
                for_events e events = (body, Throw err) /\
                done = [LogChecking (lastProcessedBlock g + 1) latest;
                        QueryFilter (lastProcessedBlock g + 1) latest]
                       ++ body)) ->
    tick_shape e g (on_poll_error e g done err)
| shape_committed latest events body :
    getBlockNumber e = Ok latest ->
    lastProcessedBlock g < latest ->
    queryFilter e (lastProcessedBlock g + 1) latest = Ok events ->
    for_events e events = (body, Ok ()) ->
    tick_shape e g
      (set_lastProcessedBlock latest g,
       [LogChecking (lastProcessedBlock g + 1) latest;
        QueryFilter (lastProcessedBlock g + 1) latest]
       ++ body ++ [SetCursor latest],
       Ok ()).

Local Close Scope Z_scope.

End Tick.

Fixpoint non_decreasing (l : list Z) : bool :=
  match l with
  | x :: rest =>
      match rest with
      | y :: _ => (x <=? y)%Z && non_decreasing rest
      | [] => true
      end
  | [] => true
  end.

(** The assignments to the cursor recorded in a trace. *)
Definition assignments (t : list effect) : list Z :=
  omap (fun x => match x with SetCursor h => Some h | _ => None end) t.

(** *** Concrete worlds *)

Definition agent : string := "0xA11CE00000000000000000000000000000C0FFEE".

Definition config0 : config :=
  {| privateKey := Some "0x01";
     abi_loaded := true;
     wallet_address := fun _ => Ok agent |}.

(** A world at height [latest] whose event query answers [events]; every
    bounty lookup, verification and settlement succeeds. *)
Definition chain_at (latest : Z) (events : list claim_event) : env :=
  {| cfg := config0;
     getBlockNumber := Ok latest;
     queryFilter := fun _ _ => Ok events;
     bounties := fun _ =>
       Ok {| bounty_name := "Top Hat Tea Time";
             bounty_description := "Tea with a top hat" |};
     admission := scripted (JStr "8");
     acceptClaim := fun _ _ => Ok ();
     wait := fun _ _ => Ok ();
     reconnect_probe := Ok latest |}.

Definition network_error : error :=
  mkError (Some "NETWORK_ERROR") "could not detect network".

(** A world whose node does not answer, neither at the start of the tick
    nor when the tick reconnects. *)
Definition node_down : env :=
  {| cfg := config0;
     getBlockNumber := Throw network_error;
     queryFilter := fun _ _ => Ok [];
     bounties := fun _ => Throw network_error;
     admission := scripted (JStr "8");
     acceptClaim := fun _ _ => Ok ();
     wait := fun _ _ => Ok ();
     reconnect_probe := Throw network_error |}.

Definition at_block (h : Z) : globals :=
  {| provider := 1; contract := 1; lastProcessedBlock := h;
     usedFallbackIndices := ∅; db := Store.empty |}.

(** Two claims on the same bounty; the first names the agent as issuer of
    the bounty, in lower case, the second names someone else. *)
Definition claim_ours : claim_event :=
  {| id := 11; issuer := "0xC1A1";
     bountyId := 5;
     bountyIssuer := "0xa11ce00000000000000000000000000000c0ffee";
     name := "mine"; description := "" |}.

Definition claim_theirs : claim_event :=
  {| id := 12; issuer := "0xC1A2";
     bountyId := 5;
     bountyIssuer := "0xB0B0000000000000000000000000000000000000";
     name := "other"; description := "" |}.

End Listener.

(** ** Bounty issuance: [generateBountyIdea], [createBounty], the daily
       schedule and the manual endpoint *)

Module Issuance.

Local Open Scope list_scope.

Record content := { title : string; description : string }.

(** The list in the [catch] of [generateBountyIdea]. *)
Definition fallbackBounties : list content :=
  [ {| title := "Top Hat Tea Time";
       description := "Share a photo of yourself enjoying tea while wearing a distinguished top hat in an unexpected location." |};
    {| title := "Formal Pet Portrait";
       description := "Dress your pet in a top hat and take a Victorian-style portrait photo." |};
    {| title := "Top Hat Trick Shot";
       description := "Capture a photo of yourself successfully landing a small object into a top hat from at least 10 feet away." |};
    {| title := "Historical Hat Recreation";
       description := "Recreate a famous historical photo or painting while wearing a top hat." |};
    {| title := "Top Hat Garden Party";
       description := "Host an impromptu garden party with at least 3 people wearing top hats, even if it's in your living room." |};
    {| title := "Breakfast with Class";
       description := "Take a photo of your morning breakfast setup with a miniature top hat perched on something in the scene." |};
    {| title := "Top Hat Transportation";
       description := "Capture yourself wearing a top hat while using an unusual form of transportation (skateboard, unicycle, etc)." |};
    {| title := "Hat Stack Challenge";
       description := "Successfully balance and photograph at least 3 top hats stacked on your head." |};
    {| title := "Top Hat Wildlife";
       description := "Edit a top hat onto a photo you take of local wildlife (bird, squirrel, etc)." |};
    {| title := "Formal Fitness";
       description := "Share a photo of yourself exercising while wearing a top hat." |} ].

(** One value of [Math.random()]: the fraction
    [numer / (numer + slack + 1)], which ranges over the rationals of
    [[0, 1)].  Rounding in the floating-point product can move the index
    computed from it only within the same range. *)
Record draw := { numer : nat; slack : nat }.

(** [Math.floor(Math.random() * n)] *)
Definition floor_mul (d : draw) (n : nat) : nat :=
  (numer d * n) / (numer d + slack d + 1).

(** [Array.from(Array(n).keys()).filter((i) => !used.has(i))] *)
Definition availableIndices (used : gset nat) : list nat :=
  filter (fun i => i ∉ used) (seq 0 (length fallbackBounties)).

(** The rotation at the end of the [catch]: the new used-set and the
    returned entry ([None] is [undefined], for an index outside the list). *)
Definition fallback (d : draw) (used : gset nat)
  : gset nat * option content :=
  let avail := availableIndices used in
  let '(used1, avail1) :=
    if decide (length avail = 0)
    then (∅, avail ++ seq 0 (length fallbackBounties))
    else (used, avail) in
  match avail1 !! floor_mul d (length avail1) with
  | Some randomIndex =>
      ({[randomIndex]} ∪ used1, fallbackBounties !! randomIndex)
  | None => (used1, None)
  end.

(** The payload of the generative service after [JSON.parse]: its [title]
    and [description], [None] when absent. *)
Record generated := { g_title : option string; g_description : option string }.

(** A parsed log of the receipt and a [BountyCreated] event of a query. *)
Record parsed_log := { log_name : string; log_id : Z }.
Record created_event := { ev_transactionHash : string; ev_id : Z }.

Record receipt := {
  (** each raw log with what [contract.interface.parseLog] makes of it:
      a description, [null], or a throw *)
  logs : list (result (option parsed_log));
  blockNumber : Z;
  transactionHash : string
}.

(** The outside world as one call of [createBounty] meets it. *)
Record env := {
  (** building the provider, wallet and contract local to the call *)
  session : result unit;
  (** the POST to the generative service with the recent titles in the
      prompt, [response.json()], the path to the message and [JSON.parse] *)
  generate : string -> result generated;
  (** [CURRENT_TIMESTAMP] at the two inserts *)
  now_draft : Z;
  now_created : Z;
  random : draw;
  (** [contract.createSoloBounty(title, description, {value})]: the hash *)
  createSoloBounty : string -> string -> result string;
  (** [tx.wait()] *)
  wait : result receipt;
  (** [contract.queryFilter(filter, blockNumber, blockNumber)] *)
  queryFilter : Z -> result (list created_event)
}.

(** The [try] block of [generateBountyIdea]. *)
Definition generate_body (e : env) (g : globals) : result (globals * content) :=
  let recentTitles := String.concat Admission.nl (Store.recent_titles (db g)) in
  bounty ← generate e recentTitles;
  db' ← Store.insert (now_draft e) (g_title bounty) (g_description bounty)
                     None (db g);
  match g_title bounty, g_description bounty with
  | Some t, Some d => Ok (set_db db' g, {| title := t; description := d |})
  | _, _ => Throw TypeError
  end.

(** [generateBountyIdea]: never throws; any failure of the [try] block
    selects from the fallback list. *)
Definition generateBountyIdea (e : env) (g : globals)
  : globals * option content :=
  match generate_body e g with
  | Ok (g', bounty) => (g', Some bounty)
  | Throw _ =>
      let '(used, c) := fallback (random e) (usedFallbackIndices g) in
      (set_usedFallbackIndices used g, c)
  end.

(** [receipt.logs.map(parseLog or null).filter(not null)
    .find((event) => event.name === "BountyCreated")] *)
Definition bountyCreatedEvent (r : receipt) : option parsed_log :=
  let events :=
    omap (fun l => match l with Ok (Some p) => Some p | _ => None end)
         (logs r) in
  List.find (fun p => String.eqb (log_name p) "BountyCreated") events.

(** The [for] loop over the polled events. *)
Definition polled_id (r : receipt) (events : list created_event)
  : option string :=
  option_map (fun ev => toString_int (ev_id ev))
    (List.find (fun ev => String.eqb (ev_transactionHash ev)
                                     (transactionHash r)) events).

Definition not_found : error :=
  mkError None "Bounty ID not found in transaction events".

(** [createBounty].  Its [catch] logs and throws again, so a throw of the
    body is the throw of the call; what the body did to the globals before
    throwing stays done. *)
Definition createBounty (e : env) (g : globals) : globals * result string :=
  match session e with
  | Throw err => (g, Throw err)
  | Ok _ =>
      let '(g1, generatedContent) := generateBountyIdea e g in
      match generatedContent with
      | None => (g1, Throw TypeError)
      | Some bountyContent =>
          match createSoloBounty e (title bountyContent)
                                   (description bountyContent) with
          | Throw err => (g1, Throw err)
          | Ok _ =>
              match wait e with
              | Throw err => (g1, Throw err)
              | Ok r =>
                  match bountyCreatedEvent r with
                  | Some created =>
                      let bountyId := toString_int (log_id created) in
                      match Store.insert (now_created e)
                              (Some (title bountyContent))
                              (Some (description bountyContent))
                              (Some bountyId) (db g1) with
                      | Throw err => (g1, Throw err)
                      | Ok db' => (set_db db' g1, Ok bountyId)
                      end
                  | None =>
                      match queryFilter e (blockNumber r) with
                      | Throw err => (g1, Throw err)
                      | Ok events =>
                          match polled_id r events with
                          | Some bountyId => (g1, Ok bountyId)
                          | None => (g1, Throw not_found)
                          end
                      end
                  end
              end
          end
      end
  end.

(** The callback of [cron.schedule("0 12 * * *", ...)]: it awaits
    [createBounty] with no handler, so its promise rejects when
    [createBounty] throws. *)
Definition daily (e : env) (g : globals) : globals * result unit :=
  let '(g', r) := createBounty e g in
  (g', match r with Ok _ => Ok () | Throw err => Throw err end).

(** What the handler of [GET /create-bounty] sends. *)
Inductive response :=
| Created (bountyId url : string)
| Failed500 (error_message : string).

Definition create_bounty_endpoint (e : env) (g : globals)
  : globals * response :=
  let '(g', r) := createBounty e g in
  (g', match r with
       | Ok bountyId =>
           if String.eqb bountyId ""
           then Failed500 "Failed to retrieve bounty ID"
           else Created bountyId
                  ("https://poidh.xyz/degen/bounty/" ++ bountyId)%string
       | Throw err =>
           Failed500 (if String.eqb (message err) ""
                      then "Failed to create bounty" else message err)
       end).


(** *** Concrete worlds *)


(** Content as the generative service returns it, and a receipt that
    carries the [BountyCreated] event of bounty 42 after a log that does not
    parse. *)
Definition generated_content : generated :=
  {| g_title := Some "Top Hat Picnic";
     g_description := Some "Share a photo of a picnic in a top hat" |}.

Definition receipt_with_event : receipt :=
  {| logs := [ Throw (mkError None "no matching event");
               Ok (Some {| log_name := "BountyCreated"; log_id := 42 |}) ];
     blockNumber := 77;
     transactionHash := "0xfeed" |}.

Definition receipt_without_event : receipt :=
  {| logs := [ Throw (mkError None "no matching event"); Ok None;
               Ok (Some {| log_name := "Transfer"; log_id := 0 |}) ];
     blockNumber := 77;
     transactionHash := "0xfeed" |}.

Definition polled_events : list created_event :=
  [ {| ev_transactionHash := "0xbeef"; ev_id := 41 |};
    {| ev_transactionHash := "0xfeed"; ev_id := 42 |} ].

(** A world with the given answer of the generative service, outcome of
    [tx.wait()] and events of the block; the session is built and the
    transaction is sent. *)
Definition creation (gen : result generated) (r : result receipt)
    (polled : list created_event) : env :=
  {| session := Ok ();
     generate := fun _ => gen;
     now_draft := 1000;
     now_created := 1015;
     random := {| numer := 1; slack := 1 |};
     createSoloBounty := fun _ _ => Ok "0xfeed";
     wait := r;
     queryFilter := fun _ => Ok polled |}.

(** The globals of a process that has just started listening at block 100,
    its table empty. *)
Definition fresh : globals :=
  {| provider := 1; contract := 1; lastProcessedBlock := 100;
     usedFallbackIndices := ∅; db := Store.empty |}.



End Issuance.

(** ** Identifier backfill: [findContractBountyId] and [GET /current-bounty] *)

Module Backfill.

Local Open Scope list_scope.

(** The outside world as one call of [findContractBountyId] meets it. *)
Record env := {
  (** building the provider and contract local to the call *)
  session : result unit;
  (** [contract.bountyCounter()] *)
  bountyCounter : result Z;
  (** [contract.bounties(i)] *)
  bounties : Z -> result Listener.bounty
}.

Definition matches (title description : string) (b : Listener.bounty) : bool :=
  String.eqb (Listener.bounty_name b) title
  && String.eqb (Listener.bounty_description b) description.

(** [for (let i = n - 1; i >= 0; i--)]: the indices looked up, in order, and
    the value returned.  A throw of a lookup is caught inside the loop body,
    which logs and continues. *)
Fixpoint scan (e : env) (title description : string) (n : nat)
  : list Z * option string :=
  match n with
  | O => ([], None)
  | S i =>
      let next := scan e title description i in
      match bounties e (Z.of_nat i) with
      | Ok b =>
          if matches title description b
          then ([Z.of_nat i], Some (toString_int (Z.of_nat i)))
          else (Z.of_nat i :: next.1, next.2)
      | Throw _ => (Z.of_nat i :: next.1, next.2)
      end
  end.

(** [findContractBountyId]; the outer [catch] returns [null]. *)
Definition findContractBountyId (e : env) (title description : string)
  : list Z * option string :=
  match session e with
  | Throw _ => ([], None)
  | Ok _ =>
      match bountyCounter e with
      | Throw _ => ([], None)
      | Ok totalBounties => scan e title description (Z.to_nat totalBounties)
      end
  end.

(** [!x] on a nullable text column. *)
Definition falsy (x : option string) : bool :=
  match x with
  | None => true
  | Some s => String.eqb s ""
  end.

(** The handler of [GET /current-bounty] up to the backfill: the store it
    leaves, and the selected row with its [bountyId] field ([None] when the
    table is empty and the handler answers 404).  The rest of the handler
    only reads. *)
Definition current_bounty (e : env) (g : globals)
  : globals * option (Store.row * option string) :=
  match Store.latest (db g) with
  | None => (g, None)
  | Some latestBounty =>
      if falsy (Store.contract_bounty_id latestBounty)
      then
        match (findContractBountyId e (Store.title latestBounty)
                 (Store.description latestBounty)).2 with
        | Some contractId =>
            if String.eqb contractId ""
            then (g, Some (latestBounty, Store.contract_bounty_id latestBounty))
            else (set_db (Store.set_contract_bounty_id contractId
                            (Store.id latestBounty) (db g)) g,
                  Some (latestBounty, Some contractId))
        | None => (g, Some (latestBounty, Store.contract_bounty_id latestBounty))
        end
      else (g, Some (latestBounty, Store.contract_bounty_id latestBounty))
  end.

(** The indices [n-1, n-2, ..., m] as the loop meets them. *)
Definition down_from (n : Z) (count : nat) : list Z :=
  (fun k => (n - 1 - Z.of_nat k)%Z) <$> seq 0 count.

(** *** A concrete ledger and store *)

(** A ledger of five bounties: the lookup of the newest throws, the draft's
    text sits at indices 2 and 1. *)
Definition ledger : env :=
  {| session := Ok ();
     bountyCounter := Ok 5%Z;
     bounties := fun i =>
       if (i =? 4)%Z then Throw (mkError (Some "CALL_EXCEPTION") "reverted")
       else if (i =? 2)%Z || (i =? 1)%Z
       then Ok {| Listener.bounty_name := "Top Hat Picnic";
                  Listener.bounty_description :=
                    "Share a photo of a picnic in a top hat" |}
       else Ok {| Listener.bounty_name := "Formal Fitness";
                  Listener.bounty_description := "Exercise in a top hat" |} |}.

Definition draft : Store.row :=
  {| Store.id := 1; Store.title := "Top Hat Picnic";
     Store.description := "Share a photo of a picnic in a top hat";
     Store.contract_bounty_id := None; Store.created_at := 1000 |}.

Definition with_draft : globals :=
  {| provider := 1; contract := 1; lastProcessedBlock := 100;
     usedFallbackIndices := ∅;
     db := {| Store.rows := [draft]; Store.last_id := 1 |} |}.

End Backfill.

From Stdlib Require Import Sorted.

(** ** Views of a trace and of the table *)

Module Views.

Import Listener.
Local Open Scope list_scope.

(** The settlement transactions submitted in a trace, as
    [(bountyId, claimId)], in order. *)
Definition settlements (t : list effect) : list (Z * Z) :=
  omap (fun x => match x with AcceptClaim b i => Some (b, i) | _ => None end) t.

(** The event ranges queried in a trace. *)
Definition queries (t : list effect) : list (Z * Z) :=
  omap (fun x => match x with QueryFilter f l => Some (f, l) | _ => None end) t.

Definition event_key (ev : claim_event) : Z * Z := (bountyId ev, id ev).

(** The table as [AUTOINCREMENT] keeps it: identifiers are positive, at most
    the counter, and pairwise distinct. *)
Definition well_formed (s : Store.t) : Prop :=
  NoDup (Store.id <$> Store.rows s)
  /\ (0 <= Store.last_id s)%Z
  /\ Forall (fun r => (0 < Store.id r <= Store.last_id s)%Z) (Store.rows s).

(** A row without its contract identifier. *)
Definition content_of (r : Store.row) : Z * string * string * Z :=
  (Store.id r, Store.title r, Store.description r, Store.created_at r).

(** [s.includes(pat)] *)
Fixpoint includes (pat s : string) : bool :=
  String.prefix pat s
  || match s with
     | EmptyString => false
     | String _ r => includes pat r
     end.

(** [data.choices[0].message.content] *)
Definition message_content (data : json) : result value :=
  choices ← get "choices" (Some data);
  choice ← get "0" choices;
  msg ← get "message" choice;
  get "content" msg.

(** Text that can follow the decimal digits of [z] without changing what
    [parseInt] reads: it does not begin with a decimal digit, nor, after a
    lone zero, with the [x] of a hexadecimal prefix. *)
Definition plain_tail (z : Z) (tail : string) : bool :=
  match tail with
  | EmptyString => true
  | String c _ =>
      negb (in_range 48 57 c)
      && negb ((z =? 0)%Z && (Ascii.eqb c "x" || Ascii.eqb c "X"))
  end.

(** The number written by the digits of [d], most significant first, after
    the digits already read as [acc]. *)
Fixpoint uint_value (d : Decimal.uint) (acc : Z) : Z :=
  match d with
  | Decimal.Nil => acc
  | Decimal.D0 r => uint_value r (acc * 10 + 0)
  | Decimal.D1 r => uint_value r (acc * 10 + 1)
  | Decimal.D2 r => uint_value r (acc * 10 + 2)
  | Decimal.D3 r => uint_value r (acc * 10 + 3)
  | Decimal.D4 r => uint_value r (acc * 10 + 4)
  | Decimal.D5 r => uint_value r (acc * 10 + 5)
  | Decimal.D6 r => uint_value r (acc * 10 + 6)
  | Decimal.D7 r => uint_value r (acc * 10 + 7)
  | Decimal.D8 r => uint_value r (acc * 10 + 8)
  | Decimal.D9 r => uint_value r (acc * 10 + 9)
  end%Z.

(** The row [generateBountyIdea] inserts for generated content. *)
Definition draft_row (e : Issuance.env) (g : globals) (c : Issuance.content)
  : Store.row :=
  {| Store.id := Store.last_id (db g) + 1;
     Store.title := Issuance.title c;
     Store.description := Issuance.description c;
     Store.contract_bounty_id := None;
     Store.created_at := Issuance.now_draft e |}.

End Views.

(** ** Start of the process: the callback of [app.listen] *)

Module Startup.

Import Listener.

(** [await initializeContract(); await setupClaimListener();] with the
    answers of the node to the probe of the first and to the height request
    of the second.  The last component tells whether [setInterval] was
    reached.  The trace is that of [initializeContract]. *)
Definition listen (c : config) (probe height : result Z) (g : globals)
  : outcome * bool :=
  match initializeContract c probe g with
  | (g1, t, Ok _) =>
      match setupClaimListener height g1 with
      | (g2, Ok _) => ((g2, t, Ok ()), true)
      | (g2, Throw err) => ((g2, t, Throw err), false)
      end
  | (g1, t, Throw err) => ((g1, t, Throw err), false)
  end.

(** The system after a schedule of timer firings and resumptions. *)
Definition after (v : Admission.variant) (s : system) (sched : list action)
  : system :=
  fold_left (step v) sched s.

End Startup.

(** ** The read-only endpoints *)

(** A nullable text column when it is truthy, that is neither [NULL] nor
    empty; [None] otherwise. *)
Definition nonempty (x : option string) : option string :=
  match x with
  | Some s => if String.eqb s "" then None else Some s
  | None => None
  end.

(** *** [GET /bounty/:id/claims] *)

Module ClaimsView.

Local Open Scope list_scope.

(** A claim as [contract.getClaimsByBountyId] returns it. *)
Record claim := {
  id : Z;
  issuer : string;
  bountyId : Z;
  bountyIssuer : string;
  name : string;
  description : string;
  createdAt : Z;
  accepted : bool
}.

Record env := {
  (** [contract.getClaimsByBountyId(req.params.id)] on the module-level
      contract *)
  getClaimsByBountyId : string -> result (list claim);
  (** [nftContract.tokenURI] and the fetch of the metadata *)
  nft : Admission.env;
  (** [new Date(Number(createdAt) * 1000).toISOString()], which throws a
      [RangeError] when the time is outside the range of [Date] *)
  toISOString : Z -> result string
}.

Definition NFT_CONTRACT_ADDRESS : string :=
  "0xDdfb1A53E7b73Dba09f79FCA24765C593D447a80".

(** The [metadata] variable after the inner [try/catch] of the callback. *)
Definition claim_metadata (e : Admission.env) (claimId : Z) : json :=
  match (tokenURI ← Admission.tokenURI e claimId;
         Admission.fetch_json e
           (replace "ipfs://" "https://ipfs.io/ipfs/" tokenURI)) with
  | Ok metadata => metadata
  | Throw _ => JObj [("error", JStr "Failed to fetch NFT metadata")]
  end.

(** [x || d] *)
Definition or_else (x : value) (d : json) : json :=
  match x with
  | Some j => if truthy x then j else d
  | None => d
  end.

Record nft_metadata := {
  m_image : json;
  m_name : json;
  m_description : json;
  m_external_url : json;
  m_attributes : json
}.

Record formatted := {
  f_id : string;
  f_issuer : string;
  f_bountyId : string;
  f_bountyIssuer : string;
  f_name : string;
  f_description : string;
  f_createdAt : string;
  f_accepted : bool;
  f_tokenId : string;
  f_contractAddress : string;
  f_metadata : nft_metadata
}.

(** The callback of [claims.map]: the object literal is evaluated after the
    metadata was awaited, the date before the metadata fields. *)
Definition format_claim (e : env) (c : claim) : result formatted :=
  let metadata := Some (claim_metadata (nft e) (id c)) in
  created ← toISOString e (createdAt c);
  image ← get "image" metadata;
  name ← get "name" metadata;
  description ← get "description" metadata;
  external_url ← get "external_url" metadata;
  attributes ← get "attributes" metadata;
  Ok {| f_id := toString_int (id c);
        f_issuer := issuer c;
        f_bountyId := toString_int (bountyId c);
        f_bountyIssuer := bountyIssuer c;
        f_name := ClaimsView.name c;
        f_description := ClaimsView.description c;
        f_createdAt := created;
        f_accepted := accepted c;
        f_tokenId := toString_int (id c);
        f_contractAddress := NFT_CONTRACT_ADDRESS;
        f_metadata :=
          {| m_image := or_else image (JStr "");
             m_name := or_else name (JStr "");
             m_description := or_else description (JStr "");
             m_external_url := or_else external_url (JStr "");
             m_attributes := or_else attributes (JArr []) |} |}.

Definition fulfilled {A} (l : list (result A)) : list A :=
  omap (fun r => match r with Ok a => Some a | Throw _ => None end) l.

Definition rejected {A} (l : list (result A)) : list error :=
  omap (fun r => match r with Ok _ => None | Throw err => Some err end) l.

(** What the handler sends.  [Promise.all] rejects with the error of the
    callback that rejects first in time, which the order of the claims does
    not settle: a failed response carries the errors of all rejecting
    callbacks, in the order of the claims, and the [error] text sent is the
    message of one of them (or the default text if that message is
    empty). *)
Inductive response :=
| Claims (claims : list formatted)
| Failed500 (errors : list error).

(** The handler.  The module-level [contract] is [undefined] until
    [initializeContract] has assigned it. *)
Definition claims_endpoint (e : env) (g : globals) (bountyId : string)
  : response :=
  if Nat.eqb (contract g) 0 then Failed500 [TypeError]
  else
    match getClaimsByBountyId e bountyId with
    | Throw err => Failed500 [err]
    | Ok claims =>
        let settled := map (format_claim e) claims in
        match rejected settled with
        | [] => Claims (fulfilled settled)
        | errors => Failed500 errors
        end
    end.

(** *** A concrete world *)

Definition claim_a : claim :=
  {| id := 11; issuer := "0xC1A1"; bountyId := 5; bountyIssuer := "0xA11CE";
     name := "tea"; description := "tea in a top hat";
     createdAt := 1700000000; accepted := false |}.

Definition claim_b : claim :=
  {| id := 12; issuer := "0xC1A2"; bountyId := 5; bountyIssuer := "0xA11CE";
     name := "more tea"; description := "tea in two top hats";
     createdAt := 1700000100; accepted := true |}.

(** The gateway has no metadata for claim 11 and a document with an image
    for claim 12. *)
Definition gateway : env :=
  {| getClaimsByBountyId := fun _ => Ok [claim_a; claim_b];
     nft :=
       {| Admission.tokenURI := fun i =>
            if (i =? 11)%Z then Throw (mkError None "execution reverted")
            else Ok "ipfs://QmClaim/metadata.json";
          Admission.fetch_json := fun _ =>
            Ok (JObj [("image", JStr "ipfs://QmClaim/photo.png")]);
          Admission.fetch_headers := fun _ => Ok (None, None);
          Admission.chat_completion := fun _ => Ok JNull |};
     toISOString := fun _ => Ok "2023-11-14T22:13:20.000Z" |}.

(** The same world, except that the gateway serves the document [null]. *)
Definition gateway_null : env :=
  {| getClaimsByBountyId := fun _ => Ok [claim_a; claim_b];
     nft :=
       {| Admission.tokenURI := fun i =>
            if (i =? 11)%Z then Throw (mkError None "execution reverted")
            else Ok "ipfs://QmClaim/metadata.json";
          Admission.fetch_json := fun _ => Ok JNull;
          Admission.fetch_headers := fun _ => Ok (None, None);
          Admission.chat_completion := fun _ => Ok JNull |};
     toISOString := fun _ => Ok "2023-11-14T22:13:20.000Z" |}.

End ClaimsView.

(** *** [GET /previous-bounties] *)

Module PreviousView.

Local Open Scope list_scope.

(** A [ClaimAccepted] event of the query: its decoded [bountyId] and
    [claimId] when it has arguments, and the hash of its transaction. *)
Record accepted_event := {
  args : option (Z * Z);
  transactionHash : string
}.

Record env := {
  (** building the provider and contract local to the request *)
  session : result unit;
  (** [contract.getClaimsByBountyId(bounty.bountyId)] *)
  getClaimsByBountyId : string -> result (list ClaimsView.claim);
  (** [contract.queryFilter(contract.filters.ClaimAccepted(), -10000)] as
      issued for the bounty with the given identifier *)
  queryFilter : string -> result (list accepted_event)
}.

Record entry := {
  id : string;
  day : Z;
  title : string;
  description : string;
  winner : option string;
  created_at : Z;
  task : string;
  claimTxHash : option string;
  contract_bounty_id : option string;
  (** [{id, issuer}] of the accepted claim *)
  acceptedClaim : option (string * string)
}.

(** [events.find(event => event.args && ... === ... && ... === ...)] *)
Definition matchingEvent (bountyId : string) (c : ClaimsView.claim)
    (events : list accepted_event) : option accepted_event :=
  List.find (fun ev =>
               match args ev with
               | Some (b, i) =>
                   String.eqb (toString_int b) bountyId
                   && String.eqb (toString_int i)
                                 (toString_int (ClaimsView.id c))
               | None => false
               end) events.

(** The variables [acceptedClaim] and [claimTxHash] after the inner [try]:
    a throw of the event query leaves the claim found before it. *)
Definition lookup (e : env) (bountyId : string)
  : option ClaimsView.claim * option string :=
  match getClaimsByBountyId e bountyId with
  | Throw _ => (None, None)
  | Ok claims =>
      match List.find ClaimsView.accepted claims with
      | None => (None, None)
      | Some c =>
          match queryFilter e bountyId with
          | Throw _ => (Some c, None)
          | Ok events =>
              (Some c,
               option_map transactionHash (matchingEvent bountyId c events))
          end
      end
  end.

(** The callback of [bounties.map].  Nothing in it throws outside the inner
    [try], so its own [catch], which returns [null], is never entered. *)
Definition previous (e : env) (b : Store.row) : entry :=
  let '(acceptedClaim, claimTxHash) :=
    match nonempty (Store.contract_bounty_id b) with
    | Some bountyId => lookup e bountyId
    | None => (None, None)
    end in
  {| id := default (toString_int (Store.id b))
                   (nonempty (Store.contract_bounty_id b));
     day := Store.id b;
     title := Store.title b;
     description := Store.description b;
     winner := option_map ClaimsView.issuer acceptedClaim;
     created_at := Store.created_at b;
     task := Store.title b;
     claimTxHash := claimTxHash;
     contract_bounty_id := Store.contract_bounty_id b;
     acceptedClaim :=
       option_map (fun c => (toString_int (ClaimsView.id c),
                             ClaimsView.issuer c))
                  acceptedClaim |}.



Inductive response :=
| Listed (totalBounties : nat) (distributed : string) (bounties : list entry)
| Failed500 (error_message : string).


(** *** A concrete table and ledger *)



End PreviousView.

(** *** [GET /current-bounty]: the response *)

Module CurrentView.

Local Open Scope list_scope.

Record env := {
  (** the world of the backfill *)
  backfill : Backfill.env;
  (** [endTime - new Date()] in milliseconds for a row with the given
      [created_at]; [NaN] when the engine does not read the timestamp *)
  timeLeft : Z -> number;
  (** building the provider and contract for the count of submissions *)
  session : result unit;
  (** [contract.getClaimsByBountyId(latestBounty.bountyId)] *)
  getClaimsByBountyId : string -> result (list ClaimsView.claim)
}.

Record bounty_view := {
  id : string;
  day : Z;
  title : string;
  description : string;
  amount : string;
  tokenAmount : string;
  timeLeft_text : string;
  submissions : nat;
  created_at : Z;
  poidhUrl : option string
}.

Inductive response :=
| NotFound404
| Current (bounty : bounty_view).

(** [timeLeft > 0 ? Math.floor(timeLeft / 1000 / 60 / 60) + " hours"
    : "Ended"]; the quotient is taken exactly. *)
Definition hours_left (t : number) : string :=
  match t with
  | Num ms =>
      if (0 <? ms)%Z then toString_int (ms / 3600000) ++ " hours" else "Ended"
  | NaN => "Ended"
  end.

(** [submissionsCount] after its [try/catch]. *)
Definition submissionsCount (e : env) (bountyId : option string) : nat :=
  match nonempty bountyId with
  | Some b =>
      match session e with
      | Ok _ =>
          match getClaimsByBountyId e b with
          | Ok claims => length claims
          | Throw _ => 0
          end
      | Throw _ => 0
      end
  | None => 0
  end.

(** The handler: the selection and backfill of [Backfill.current_bounty],
    then the response. *)
Definition current_bounty_endpoint (e : env) (g : globals)
  : globals * response :=
  let '(g1, selected) := Backfill.current_bounty (backfill e) g in
  match selected with
  | None => (g1, NotFound404)
  | Some (latestBounty, bountyId) =>
      (g1,
       Current
         {| id := default (toString_int (Store.id latestBounty))
                          (nonempty bountyId);
            day := Store.id latestBounty;
            title := Store.title latestBounty;
            description := Store.description latestBounty;
            amount := "0.001 DEGEN";
            tokenAmount := "1000 $MAD";
            timeLeft_text :=
              hours_left (timeLeft e (Store.created_at latestBounty));
            submissions := submissionsCount e bountyId;
            created_at := Store.created_at latestBounty;
            poidhUrl :=
              option_map (fun b => "https://poidh.xyz/degen/bounty/" ++ b)%string
                         (nonempty bountyId) |})
  end.

End CurrentView.
(** * Properties *)

(** ** The built-ins on sample inputs *)

Module JSFacts.

Example parseInt_8 : parseInt "8" = Num 8. Proof. reflexivity. Qed.
Example parseInt_na : parseInt "N/A" = NaN. Proof. reflexivity. Qed.
Example parseInt_prefix : parseInt "  9/10" = Num 9. Proof. reflexivity. Qed.
Example parseInt_hex : parseInt "0x1F" = Num 31. Proof. reflexivity. Qed.
Example parseInt_neg : parseInt "-12abc" = Num (-12). Proof. reflexivity. Qed.
Example parseInt_empty : parseInt "" = NaN. Proof. reflexivity. Qed.
Example toLowerCase_addr :
  toLowerCase "0xAbCdEF01" = "0xabcdef01". Proof. reflexivity. Qed.
Example replace_ipfs :
  replace "ipfs://" "https://ipfs.io/ipfs/" "ipfs://Qm1/meta.json"
  = "https://ipfs.io/ipfs/Qm1/meta.json".
Proof. reflexivity. Qed.
Example toString_int_42 : toString_int 42 = "42". Proof. reflexivity. Qed.
Example ToString_arr :
  ToString (Some (JArr [JNum "8"; JNull; JStr "x"])) = "8,,x".
Proof. reflexivity. Qed.

(** Lower-casing is idempotent, so equality after lower-casing is an
    equivalence that relates a string to its own lower-cased form. *)
Lemma lower_unit_idempotent c : lower_unit (lower_unit c) = lower_unit c.
Proof.
  destruct c as [[|] [|] [|] [|] [|] [|] [|] [|]]; vm_compute; reflexivity.
Qed.

Lemma toLowerCase_idempotent s : toLowerCase (toLowerCase s) = toLowerCase s.
Proof.
  induction s as [|c r IH]; [reflexivity|].
  simpl. now rewrite lower_unit_idempotent, IH.
Qed.

End JSFacts.

(** ** The admission decision *)

Module AdmissionFacts.

Import Admission.

(** [verify_body] is [evidence], the test on the image, then
    [oracle_score] and the comparison. *)
Lemma verify_body_split v e t d claimId :
  verify_body v e t d claimId =
  (imageUrl ← evidence e claimId;
   if negb (truthy imageUrl) then Ok false
   else score ← oracle_score v e t d imageUrl;
        Ok (ge score (Num (threshold v)))).
Proof.
  unfold verify_body, evidence, oracle_score.
  destruct (tokenURI e claimId) as [uri|]; [|reflexivity].
  cbn [mbind result_bind].
  destruct (fetch_json e _) as [metadata|]; [|reflexivity].
  cbn [mbind result_bind].
  destruct (get "image" (Some metadata)) as [imageUrl|]; [|reflexivity].
  cbn [mbind result_bind].
  destruct (truthy imageUrl); [|reflexivity].
  cbn [negb].
  destruct (chat_completion e _) as [data|]; [|reflexivity].
  cbn [mbind result_bind].
  destruct (get "choices" (Some data)) as [choices|]; [|reflexivity].
  cbn [mbind result_bind].
  destruct (get "0" choices) as [choice|]; [|reflexivity].
  cbn [mbind result_bind].
  destruct (get "message" choice) as [msg|]; [|reflexivity].
  cbn [mbind result_bind].
  destruct (get "content" msg) as [content|]; reflexivity.
Qed.


Example accepts_8_at_7 :
  verifyClaimWithAI variant_7 (scripted (JStr "8")) "t" "d" 1 = true.
Proof. reflexivity. Qed.
Example rejects_8_at_9 :
  verifyClaimWithAI variant_9 (scripted (JStr "8")) "t" "d" 1 = false.
Proof. reflexivity. Qed.
Example rejects_not_available :
  verifyClaimWithAI variant_7 (scripted (JStr "N/A")) "t" "d" 1 = false.
Proof. reflexivity. Qed.
Example rejects_null_content :
  verifyClaimWithAI variant_7 (scripted JNull) "t" "d" 1 = false.
Proof. reflexivity. Qed.
Example rejects_missing_choices :
  verifyClaimWithAI variant_7
    {| tokenURI := tokenURI (scripted JNull);
       fetch_json := fetch_json (scripted JNull);
       fetch_headers := fetch_headers (scripted JNull);
       chat_completion := fun _ => Ok (JObj [("error", JStr "rate limited")]) |}
    "t" "d" 1 = false.
Proof. reflexivity. Qed.
Example rejects_missing_image :
  verifyClaimWithAI variant_7
    {| tokenURI := tokenURI (scripted (JStr "10"));
       fetch_json := fun _ => Ok (JObj [("name", JStr "claim")]);
       fetch_headers := fetch_headers (scripted (JStr "10"));
       chat_completion := chat_completion (scripted (JStr "10")) |}
    "t" "d" 1 = false.
Proof. reflexivity. Qed.
Example rejects_unreachable_metadata :
  verifyClaimWithAI variant_7
    {| tokenURI := tokenURI (scripted (JStr "10"));
       fetch_json := fun _ => Throw (mkError None "fetch failed");
       fetch_headers := fetch_headers (scripted (JStr "10"));
       chat_completion := chat_completion (scripted (JStr "10")) |}
    "t" "d" 1 = false.
Proof. reflexivity. Qed.

(** In the probing variant a failed probe of the image is not a failure of
    the evidence: the metadata line of the prompt stays empty and the claim
    is scored all the same. *)
Example probe_failure_is_not_terminal :
  verifyClaimWithAI variant_9
    {| tokenURI := tokenURI (scripted (JStr "9"));
       fetch_json := fetch_json (scripted (JStr "9"));
       fetch_headers := fun _ => Throw (mkError None "fetch failed");
       chat_completion := chat_completion (scripted (JStr "9")) |}
    "t" "d" 1 = true.
Proof. reflexivity. Qed.

(** C2.  Whenever the scoring service returns a score [s] for a claim whose
    evidence resolved, the decision is the comparison of [s] with the
    variant's threshold: accepted exactly when [s >= threshold].  A score
    equal to the threshold is accepted and a score one below it is rejected.
    The two thresholds in use are 7 and 9. *)
Theorem decision_is_threshold_comparison v e t d claimId imageUrl s :
  evidence e claimId = Ok imageUrl ->
  truthy imageUrl = true ->
  oracle_score v e t d imageUrl = Ok (Num s) ->
  verifyClaimWithAI v e t d claimId = (threshold v <=? s)%Z
  /\ (s = threshold v -> verifyClaimWithAI v e t d claimId = true)
  /\ (s = (threshold v - 1)%Z -> verifyClaimWithAI v e t d claimId = false)
  /\ threshold variant_7 = 7%Z /\ threshold variant_9 = 9%Z.
Proof.
  intros Hev Himg Hs.
  assert (Hdec : verifyClaimWithAI v e t d claimId = (threshold v <=? s)%Z).
  { unfold verifyClaimWithAI. rewrite verify_body_split, Hev. simpl.
    rewrite Himg. simpl. rewrite Hs. reflexivity. }
  repeat split.
  - exact Hdec.
  - intros ->. rewrite Hdec. apply Z.leb_refl.
  - intros ->. rewrite Hdec. apply Z.leb_gt. lia.
Qed.

Lemma decision_is_threshold_comparison_witness :
  verifyClaimWithAI variant_9 (scripted (JStr "9")) "t" "d" 1 = true
  /\ verifyClaimWithAI variant_7 (scripted (JStr "6")) "t" "d" 1 = false.
Proof.
  split.
  - apply (decision_is_threshold_comparison variant_9 (scripted (JStr "9"))
             "t" "d" 1%Z (Some (JStr "ipfs://QmClaim/photo.png")) 9%Z);
      reflexivity.
  - apply (decision_is_threshold_comparison variant_7 (scripted (JStr "6"))
             "t" "d" 1%Z (Some (JStr "ipfs://QmClaim/photo.png")) 6%Z);
      reflexivity.
Defined.



End AdmissionFacts.

(** ** The claim listener *)

Module ListenerFacts.

Import Admission Listener.
Local Open Scope list_scope.
Local Open Scope Z_scope.

Lemma assignments_app t1 t2 :
  assignments (t1 ++ t2) = assignments t1 ++ assignments t2.
Proof. unfold assignments. apply omap_app. Qed.

Section WithVariant.

Variable v : variant.

Lemma pipeline_no_assignment e ev : assignments (pipeline v e ev) = [].
Proof.
  unfold pipeline.
  destruct (bounties e (bountyId ev)) as [b|]; [|reflexivity].
  destruct (verifyClaimWithAI v _ _ _ _); [|reflexivity].
  destruct (acceptClaim e _ _); [|reflexivity].
  destruct (wait e _ _); reflexivity.
Qed.

Lemma handle_event_no_assignment e ev :
  assignments (handle_event v e ev).1 = [].
Proof.
  unfold handle_event. destruct (wallet (cfg e)) as [a|]; [|reflexivity].
  destruct (owned a ev); [|reflexivity].
  simpl. apply pipeline_no_assignment.
Qed.

(** The loop either handles every event or stops at the first iteration
    that throws; in both cases its trace is made of the traces of the
    iterations it ran. *)
Lemma for_events_no_assignment e events :
  assignments (for_events v e events).1 = [].
Proof.
  induction events as [|ev rest IH]; [reflexivity|].
  simpl. pose proof (handle_event_no_assignment e ev) as Hh.
  destruct (handle_event v e ev) as [t [u|err]]; simpl in *.
  - destruct (for_events v e rest) as [t' r]. simpl in *.
    now rewrite assignments_app, Hh, IH.
  - exact Hh.
Qed.

Lemma for_events_completed e events body :
  for_events v e events = (body, Ok ()) ->
  body = flat_map (fun ev => (handle_event v e ev).1) events
  /\ Forall (fun ev => (handle_event v e ev).2 = Ok ()) events.
Proof.
  revert body. induction events as [|ev rest IH]; intros body H.
  - injection H as <-. split; [reflexivity | constructor].
  - simpl in H. destruct (handle_event v e ev) as [t [[]|err]] eqn:Hh.
    + destruct (for_events v e rest) as [t' r] eqn:Hr.
      injection H as <- ->. destruct (IH t' eq_refl) as [-> Hall].
      split; [simpl; now rewrite Hh|].
      constructor; [now rewrite Hh | exact Hall].
    + discriminate.
Qed.

(** With a wallet at hand no iteration throws: the loop always reaches its
    end, whatever happens inside the pipelines. *)
Lemma for_events_with_wallet e address events :
  wallet (cfg e) = Ok address ->
  for_events v e events =
  (flat_map (fun ev =>
     LogDetected (bountyId ev) (id ev) ::
     if String.eqb (toLowerCase (bountyIssuer ev)) (toLowerCase address)
     then pipeline v e ev else [LogSkipping (bountyId ev)]) events,
   Ok ()).
Proof.
  intros Hw. induction events as [|ev rest IH]; [reflexivity|].
  simpl. unfold handle_event, owned. rewrite Hw, IH.
  destruct (String.eqb _ _); reflexivity.
Qed.

Lemma initializeContract_cursor c probe g :
  lastProcessedBlock (initializeContract c probe g).1.1 = lastProcessedBlock g
  /\ assignments (initializeContract c probe g).1.2 = [].
Proof.
  unfold initializeContract.
  destruct (privateKey c) as [[|a k]|]; [now split| |now split].
  destruct probe; [|now split].
  destruct (wallet_address c _); [|now split].
  destruct (abi_loaded c); now split.
Qed.

Lemma on_poll_error_cursor e g done err :
  lastProcessedBlock (on_poll_error e g done err).1.1 = lastProcessedBlock g
  /\ assignments (on_poll_error e g done err).1.2 = assignments done.
Proof.
  unfold on_poll_error.
  destruct (match code err with Some c => _ | None => false end).
  - pose proof (initializeContract_cursor (cfg e) (reconnect_probe e) g) as [H1 H2].
    destruct (initializeContract _ _ g) as [[g' t] r]. simpl in *.
    split; [exact H1|].
    rewrite assignments_app. simpl. rewrite H2. apply app_nil_r.
  - simpl. split; [reflexivity|].
    rewrite assignments_app. apply app_nil_r.
Qed.

Lemma tick_has_shape e g : tick_shape v e g (tick v e g).
Proof.
  unfold tick, tick_begin.
  destruct (getBlockNumber e) as [latest|err] eqn:Hh.
  - destruct (lastProcessedBlock g <? latest) eqn:Hlt.
    + apply Z.ltb_lt in Hlt.
      destruct (queryFilter e (lastProcessedBlock g + 1) latest)
        as [events|err] eqn:Hq.
      * unfold tick_finish.
        destruct (for_events v e events) as [body [[]|err]] eqn:Hf.
        -- now apply shape_committed with (events := events).
        -- apply shape_aborted. right. exists latest.
           repeat split; try assumption. right. now exists events, body.
      * apply shape_aborted. right. exists latest.
        repeat split; try assumption. now left.
    + apply Z.ltb_ge in Hlt. now apply shape_idle with (latest := latest).
  - apply shape_aborted. now left.
Qed.

(** A tick run without interruption is the timer firing followed at once
    by the resumption of the activation it suspended. *)
Lemma fire_then_resume_is_tick e g :
  step v (step v {| glob := g; inflight := [] |} (Fire e)) (Resume 0)
  = {| glob := (tick v e g).1.1; inflight := [] |}.
Proof.
  unfold tick. simpl. destruct (tick_begin e (lastProcessedBlock g)); reflexivity.
Qed.

Lemma tick_cursor_monotone e g :
  lastProcessedBlock g <= lastProcessedBlock (tick v e g).1.1.
Proof.
  destruct (tick_has_shape e g) as [latest _ _ | done err _ | latest events body _ Hlt _ _].
  - simpl. lia.
  - rewrite (proj1 (on_poll_error_cursor e g done err)). lia.
  - simpl. lia.
Qed.

Lemma run_ticks_cursor_monotone envs g :
  lastProcessedBlock g <= lastProcessedBlock (run_ticks v envs g).
Proof.
  revert g. induction envs as [|e rest IH]; intros g; simpl; [lia|].
  pose proof (tick_cursor_monotone e g). pose proof (IH (tick v e g).1.1). lia.
Qed.

Lemma fire_keeps_cursor e g :
  lastProcessedBlock (glob (step v {| glob := g; inflight := [] |} (Fire e)))
  = lastProcessedBlock g.
Proof.
  simpl. destruct (tick_begin e (lastProcessedBlock g)); try reflexivity.
  simpl. apply on_poll_error_cursor.
Qed.

Lemma sequential_cursors_non_decreasing envs g :
  non_decreasing
    (lastProcessedBlock g ::
     cursors v {| glob := g; inflight := [] |} (sequential envs)) = true.
Proof.
  revert g. induction envs as [|e rest IH]; intros g; [reflexivity|].
  change (sequential (e :: rest))
    with (Fire e :: Resume 0%nat :: sequential rest).
  cbn [cursors]. rewrite fire_then_resume_is_tick.
  cbn [non_decreasing]. rewrite fire_keeps_cursor.
  rewrite Z.leb_refl. cbn [andb glob].
  specialize (IH (tick v e g).1.1). cbn [non_decreasing] in IH.
  apply andb_true_intro. split; [|exact IH].
  apply Z.leb_le, tick_cursor_monotone.
Qed.

(** C1, for ticks that do not overlap.  Over any sequence of ticks, each run
    to its end before the next starts, the cursor never decreases.  Within
    one tick the cursor is either left alone, with no assignment in the
    trace, or assigned exactly once, as the last effect of the tick, to the
    height read at its start, after the loop has run the iteration of every
    event of the fetched range [[cursor+1, latest]] to its end.  When the
    height cannot be read or the range cannot be fetched, the tick leaves
    the cursor as it was and assigns nothing. *)
Theorem cursor_commit_discipline e g :
  (forall envs,
     non_decreasing
       (lastProcessedBlock g ::
        cursors v {| glob := g; inflight := [] |} (sequential envs)) = true
     /\ lastProcessedBlock g <= lastProcessedBlock (run_ticks v envs g))
  /\ (let g' := (tick v e g).1.1 in
      let t := (tick v e g).1.2 in
      (assignments t = [] /\ lastProcessedBlock g' = lastProcessedBlock g)
      \/ (exists latest events body,
            getBlockNumber e = Ok latest /\
            lastProcessedBlock g < latest /\
            queryFilter e (lastProcessedBlock g + 1) latest = Ok events /\
            body = flat_map (fun ev => (handle_event v e ev).1) events /\
            Forall (fun ev => (handle_event v e ev).2 = Ok ()) events /\
            t = [LogChecking (lastProcessedBlock g + 1) latest;
                 QueryFilter (lastProcessedBlock g + 1) latest]
                ++ body ++ [SetCursor latest] /\
            assignments t = [latest] /\
            lastProcessedBlock g' = latest))
  /\ ((exists err, getBlockNumber e = Throw err)
      \/ (exists latest err,
            getBlockNumber e = Ok latest /\
            queryFilter e (lastProcessedBlock g + 1) latest = Throw err) ->
      lastProcessedBlock (tick v e g).1.1 = lastProcessedBlock g
      /\ assignments (tick v e g).1.2 = []).
Proof.
  split.
  { intros envs. split;
      [apply sequential_cursors_non_decreasing | apply run_ticks_cursor_monotone]. }
  destruct (tick_has_shape e g)
    as [latest Hh Hle | done err Hab | latest events body Hh Hlt Hq Hf].
  - split; [left; now split|]. intros _. now split.
  - destruct (on_poll_error_cursor e g done err) as [Hc Ha].
    assert (Hdone : assignments done = []).
    { destruct Hab
        as [[_ ->] | (latest & _ & _ &
                      [[_ ->] | (events & body & _ & Hf & ->)])];
        try reflexivity.
      rewrite assignments_app. simpl.
      pose proof (for_events_no_assignment e events) as Hn.
      now rewrite Hf in Hn. }
    rewrite Hdone in Ha.
    split; [left; now split|]. intros _. now split.
  - pose proof (for_events_no_assignment e events) as Hn.
    rewrite Hf in Hn. simpl in Hn.
    destruct (for_events_completed e events body Hf) as [Hbody Hall].
    assert (Hassign :
      assignments ([LogChecking (lastProcessedBlock g + 1) latest;
                    QueryFilter (lastProcessedBlock g + 1) latest]
                   ++ body ++ [SetCursor latest]) = [latest]).
    { rewrite !assignments_app, Hn. reflexivity. }
    split.
    + right. exists latest, events, body. simpl. repeat split; assumption.
    + intros [[err He] | (l & err & Hl & He)]; [congruence|].
      rewrite Hh in Hl. injection Hl as <-. congruence.
Qed.

(** The ownership test does not see the letter case of either address. *)
Lemma owned_ignores_case address ev :
  owned (toLowerCase address) ev = owned address ev
  /\ owned address
       {| id := id ev; issuer := issuer ev; bountyId := bountyId ev;
          bountyIssuer := toLowerCase (bountyIssuer ev);
          name := name ev; description := description ev |}
     = owned address ev.
Proof.
  unfold owned. simpl. now rewrite !JSFacts.toLowerCase_idempotent.
Qed.

(** A tick whose range was fetched assigns the cursor and fulfils, whatever
    the lookups, verifications and settlements of its pipelines do: a throw
    inside one pipeline is logged there and the loop goes on to the next
    event. *)
Lemma tick_commits_whatever_pipelines_do e g address latest events :
  wallet (cfg e) = Ok address ->
  getBlockNumber e = Ok latest ->
  lastProcessedBlock g < latest ->
  queryFilter e (lastProcessedBlock g + 1) latest = Ok events ->
  tick v e g =
  (set_lastProcessedBlock latest g,
   [LogChecking (lastProcessedBlock g + 1) latest;
    QueryFilter (lastProcessedBlock g + 1) latest]
   ++ flat_map (fun ev =>
        LogDetected (bountyId ev) (id ev) ::
        if String.eqb (toLowerCase (bountyIssuer ev)) (toLowerCase address)
        then pipeline v e ev else [LogSkipping (bountyId ev)]) events
   ++ [SetCursor latest],
   Ok ()).
Proof.
  intros Hw Hh Hlt Hq. unfold tick, tick_begin. rewrite Hh.
  apply Z.ltb_lt in Hlt. rewrite Hlt, Hq. unfold tick_finish.
  now rewrite (for_events_with_wallet e address events Hw).
Qed.

(** C5.  A tick that reads a height at or below the cursor does nothing: no
    range is queried, no bounty is looked up, no claim is verified or
    accepted, nothing is logged, and the globals, the cursor among them, are
    returned as they were. *)
Theorem tick_idle_without_new_block e g latest :
  getBlockNumber e = Ok latest ->
  latest <= lastProcessedBlock g ->
  tick v e g = (g, [], Ok ()).
Proof.
  intros Hh Hle. unfold tick, tick_begin. rewrite Hh.
  destruct (lastProcessedBlock g <? latest) eqn:Hlt; [|reflexivity].
  apply Z.ltb_lt in Hlt. lia.
Qed.

(** C4.  With the agent's wallet address at hand, the loop over the events
    of a tick runs every iteration to its end, and the iteration of an event
    enters the pipeline (its first call, the lookup of the bounty, and all
    that follows) exactly when the event's [bountyIssuer] and the address
    are equal after lower-casing; otherwise it only logs the detection and
    the skip. *)
Theorem ownership_filter e address events :
  wallet (cfg e) = Ok address ->
  for_events v e events =
    (flat_map (fun ev =>
       LogDetected (bountyId ev) (id ev) ::
       if String.eqb (toLowerCase (bountyIssuer ev)) (toLowerCase address)
       then pipeline v e ev else [LogSkipping (bountyId ev)]) events,
     Ok ())
  /\ forall ev,
       (toLowerCase (bountyIssuer ev) = toLowerCase address ->
        (handle_event v e ev).1
        = LogDetected (bountyId ev) (id ev) :: pipeline v e ev)
       /\ (toLowerCase (bountyIssuer ev) <> toLowerCase address ->
           (handle_event v e ev).1
           = [LogDetected (bountyId ev) (id ev); LogSkipping (bountyId ev)])
       /\ (In (Bounties (bountyId ev)) (handle_event v e ev).1 <->
           toLowerCase (bountyIssuer ev) = toLowerCase address).
Proof.
  intros Hw. split; [now apply for_events_with_wallet|].
  intros ev. unfold handle_event, owned. rewrite Hw.
  destruct (String.eqb_spec (toLowerCase (bountyIssuer ev)) (toLowerCase address))
    as [Heq|Hne]; simpl.
  - split; [reflexivity|]. split; [tauto|].
    split; [tauto|]. intros _. right. unfold pipeline. now left.
  - split; [tauto|]. split; [reflexivity|].
    split; [|tauto]. intros [H|[H|[]]]; discriminate.
Qed.

End WithVariant.

(** *** Concrete worlds *)

Lemma cursor_commit_discipline_witness :
  lastProcessedBlock (tick variant_7 node_down (at_block 100)).1.1 = 100
  /\ assignments (tick variant_7 node_down (at_block 100)).1.2 = [].
Proof.
  apply (proj2 (proj2 (cursor_commit_discipline variant_7 node_down
                         (at_block 100)))).
  left. eexists. reflexivity.
Defined.

(** With the node down the tick logs, tries to reconnect, and the failure
    of [initializeContract] inside the [catch] rejects the tick; the
    provider was replaced, the contract and the cursor were not. *)
Example tick_rejects_when_reconnect_fails :
  tick variant_7 node_down (at_block 100)
  = (set_provider 2 (at_block 100),
     [LogErrorPolling network_error; LogReconnecting;
      LogInitFailed "Failed to connect to RPC endpoint"],
     Throw (mkError None "Failed to connect to RPC endpoint")).
Proof. reflexivity. Qed.

Lemma tick_idle_without_new_block_witness :
  tick variant_7 (chain_at 100 [claim_ours]) (at_block 100)
  = (at_block 100, [], Ok ()).
Proof.
  apply (tick_idle_without_new_block variant_7 (chain_at 100 [claim_ours])
           (at_block 100) 100); [reflexivity | simpl; lia].
Defined.

Lemma ownership_filter_witness :
  for_events variant_7 (chain_at 105 []) [claim_ours; claim_theirs]
  = ([LogDetected 5 11; Bounties 5;
      Verify "Top Hat Tea Time" "Tea with a top hat" 11;
      LogVerified 11; AcceptClaim 5 11; Wait 5 11; LogAccepted 11;
      LogDetected 5 12; LogSkipping 5],
     Ok ()).
Proof.
  transitivity
    (flat_map (fun ev =>
       LogDetected (bountyId ev) (id ev) ::
       if String.eqb (toLowerCase (bountyIssuer ev)) (toLowerCase agent)
       then pipeline variant_7 (chain_at 105 []) ev
       else [LogSkipping (bountyId ev)]) [claim_ours; claim_theirs],
     Ok ()).
  - apply (ownership_filter variant_7 (chain_at 105 []) agent
             [claim_ours; claim_theirs]). reflexivity.
  - reflexivity.
Defined.

(** The lookup of the first claim's bounty throws; the second claim is
    still verified and accepted, and the cursor advances. *)
Example batch_goes_on_after_a_failed_lookup :
  let second := {| id := 13; issuer := "0xC1A3"; bountyId := 6;
                   bountyIssuer := agent; name := "n"; description := "" |} in
  let e := chain_at 105 [claim_ours; second] in
  let flaky :=
    {| cfg := cfg e; getBlockNumber := getBlockNumber e;
       queryFilter := queryFilter e;
       bounties := fun b => if (b =? 5)%Z
                            then Throw (mkError (Some "TIMEOUT") "timeout")
                            else bounties e b;
       admission := admission e; acceptClaim := acceptClaim e;
       wait := wait e; reconnect_probe := reconnect_probe e |} in
  (tick variant_7 flaky (at_block 100)).1.2
  = [LogChecking 101 105; QueryFilter 101 105;
     LogDetected 5 11; Bounties 5;
     LogErrorProcessing (mkError (Some "TIMEOUT") "timeout");
     LogDetected 6 13; Bounties 6;
     Verify "Top Hat Tea Time" "Tea with a top hat" 13;
     LogVerified 13; AcceptClaim 6 13; Wait 6 13; LogAccepted 13;
     SetCursor 105].
Proof. reflexivity. Qed.

(** Scenario A of the specification: cursor 100, height 105, two owned
    claims; after the tick the cursor is 105 and the claims went through
    the pipeline in the order returned. *)
Example scenario_A :
  let second := {| id := 13; issuer := "0xC1A3"; bountyId := 6;
                   bountyIssuer := agent; name := "n"; description := "" |} in
  let r := tick variant_7 (chain_at 105 [claim_ours; second]) (at_block 100) in
  lastProcessedBlock r.1.1 = 105
  /\ omap (fun x => match x with Verify _ _ c => Some c | _ => None end) r.1.2
     = [11; 13].
Proof. split; reflexivity. Qed.

(** C1, as stated, fails when ticks overlap.  The cursor is 100.  A first
    activation reads height 105, fetches the range 101..105 with one owned
    claim in it and awaits the claim's pipeline.  Fifteen seconds later the
    timer fires again: the second activation reads height 110 with the
    cursor still at 100, fetches 101..110, goes through the same claim and
    assigns 110.  The first activation then comes to its end and assigns its
    own 105: the cursor goes from 110 back to 105. *)
Lemma overlapping_ticks_move_cursor_back :
  cursors variant_7 {| glob := at_block 100; inflight := [] |}
    [Fire (chain_at 105 [claim_ours]); Fire (chain_at 110 [claim_ours]);
     Resume 1; Resume 0]
  = [100; 100; 110; 105]
  /\ non_decreasing
       (100 :: cursors variant_7 {| glob := at_block 100; inflight := [] |}
                 [Fire (chain_at 105 [claim_ours]);
                  Fire (chain_at 110 [claim_ours]);
                  Resume 1; Resume 0]) = false.
Proof. split; reflexivity. Qed.

End ListenerFacts.

(** ** Bounty issuance *)

Module IssuanceFacts.

Import Issuance.
Local Open Scope list_scope.

(** *** The fallback rotation *)

Lemma floor_mul_lt d n : 0 < n -> floor_mul d n < n.
Proof.
  intros Hn. unfold floor_mul. apply Nat.Div0.div_lt_upper_bound. nia.
Qed.

Lemma available_spec used i :
  i ∈ availableIndices used <-> i < length fallbackBounties /\ i ∉ used.
Proof.
  unfold availableIndices. rewrite list_elem_of_filter, elem_of_seq. intuition lia.
Qed.



(** Once every index has been used, a run clears the set and picks among
    all entries again. *)
Lemma fallback_after_exhaustion d (used : gset nat) :
  (forall i, i < length fallbackBounties -> i ∈ used) ->
  exists i c, fallbackBounties !! i = Some c /\
    fallback d used = ({[i]} ∪ ∅, Some c).
Proof.
  intros Hall. unfold fallback.
  assert (Hnil : availableIndices used = []).
  { destruct (availableIndices used) as [|i l] eqn:Ha; [reflexivity|].
    assert (Hin : i ∈ availableIndices used) by (rewrite Ha; left).
    apply available_spec in Hin. destruct Hin as [H1 H2].
    exfalso. apply H2, Hall, H1. }
  rewrite Hnil. simpl length at 1.
  destruct (decide (0 = 0)) as [_|]; [|congruence].
  cbn [app]. rewrite length_seq.
  assert (Hk : floor_mul d (length fallbackBounties) < length fallbackBounties)
    by (apply floor_mul_lt; simpl; lia).
  rewrite (lookup_seq_lt 0 _ _ Hk). cbn [Nat.add].
  destruct (lookup_lt_is_Some_2 fallbackBounties _ Hk) as [c Hc].
  exists (floor_mul d (length fallbackBounties)), c.
  split; [exact Hc | now rewrite Hc].
Qed.


(** When the [try] block of [generateBountyIdea] throws, the content is the
    one the rotation returns. *)
Lemma generateBountyIdea_falls_back e g err :
  generate_body e g = Throw err ->
  generateBountyIdea e g =
  (set_usedFallbackIndices (fallback (random e) (usedFallbackIndices g)).1 g,
   (fallback (random e) (usedFallbackIndices g)).2).
Proof.
  intros H. unfold generateBountyIdea. rewrite H.
  now destruct (fallback (random e) (usedFallbackIndices g)).
Qed.



(** *** Rows written by a creation *)

(** What [generateBountyIdea] does to the table: one draft row with no
    contract identifier when the generated content is used, nothing when the
    fallback is. *)
Lemma generateBountyIdea_rows e g g1 c :
  generateBountyIdea e g = (g1, Some c) ->
  match generate_body e g with
  | Ok _ =>
      db g1 = {| Store.rows := Store.rows (db g) ++
                   [ {| Store.id := Store.last_id (db g) + 1;
                        Store.title := title c;
                        Store.description := description c;
                        Store.contract_bounty_id := None;
                        Store.created_at := now_draft e |} ];
                 Store.last_id := Store.last_id (db g) + 1 |}
  | Throw _ => db g1 = db g
  end.
Proof.
  unfold generateBountyIdea. destruct (generate_body e g) as [[g' b]|err] eqn:Hb.
  - intros H. injection H as <- <-. unfold generate_body in Hb.
    destruct (generate e _) as [bounty|]; [|discriminate].
    cbn [mbind result_bind] in Hb. unfold Store.insert in Hb.
    destruct (g_title bounty) as [t|]; [|discriminate].
    destruct (g_description bounty) as [d|]; [|discriminate].
    cbn [mbind result_bind] in Hb. injection Hb as <- <-. reflexivity.
  - destruct (fallback (random e) (usedFallbackIndices g)) as [used c'].
    intros H. injection H as <- _. reflexivity.
Qed.

(** C10.  A creation that succeeds through the receipt's [BountyCreated]
    event returns the event's identifier and appends to the table: when the
    content came from the generative service, two rows with the same title
    and description, the draft written by [generateBountyIdea] with no
    contract identifier followed by the row written by [createBounty] with
    the identifier; when the content came from the fallback list, only the
    row written by [createBounty]. *)
Theorem receipt_creation_rows e g g1 c h r created :
  session e = Ok () ->
  generateBountyIdea e g = (g1, Some c) ->
  createSoloBounty e (title c) (description c) = Ok h ->
  wait e = Ok r ->
  bountyCreatedEvent r = Some created ->
  let bountyId := toString_int (log_id created) in
  let draft :=
    {| Store.id := Store.last_id (db g) + 1;
       Store.title := title c; Store.description := description c;
       Store.contract_bounty_id := None;
       Store.created_at := now_draft e |} in
  let final (n : Z) :=
    {| Store.id := n;
       Store.title := title c; Store.description := description c;
       Store.contract_bounty_id := Some bountyId;
       Store.created_at := now_created e |} in
  (createBounty e g).2 = Ok bountyId /\
  match generate_body e g with
  | Ok _ =>
      Store.rows (db (createBounty e g).1)
      = Store.rows (db g) ++ [draft; final (Store.last_id (db g) + 2)%Z]
  | Throw _ =>
      Store.rows (db (createBounty e g).1)
      = Store.rows (db g) ++ [final (Store.last_id (db g) + 1)%Z]
  end.
Proof.
  intros Hs Hg Hc Hw Hev bountyId draft final.
  pose proof (generateBountyIdea_rows e g g1 c Hg) as Hrows.
  unfold createBounty. rewrite Hs, Hg, Hc, Hw, Hev. cbn [Store.insert].
  split; [reflexivity|]. cbn [fst snd db set_db Store.rows].
  destruct (generate_body e g).
  - rewrite Hrows. cbn [Store.rows Store.last_id].
    rewrite <- app_assoc. cbn [app]. subst draft final. cbn beta.
    replace (Store.last_id (db g) + 1 + 1)%Z
      with (Store.last_id (db g) + 2)%Z by lia.
    reflexivity.
  - rewrite Hrows. reflexivity.
Qed.

Lemma receipt_creation_rows_witness :
  (createBounty (creation (Ok generated_content) (Ok receipt_with_event) []) fresh).2
  = Ok "42"
  /\ Store.rows (db (createBounty (creation (Ok generated_content)
                                         (Ok receipt_with_event) []) fresh).1)
     = [ {| Store.id := 1; Store.title := "Top Hat Picnic";
            Store.description := "Share a photo of a picnic in a top hat";
            Store.contract_bounty_id := None; Store.created_at := 1000 |};
         {| Store.id := 2; Store.title := "Top Hat Picnic";
            Store.description := "Share a photo of a picnic in a top hat";
            Store.contract_bounty_id := Some "42";
            Store.created_at := 1015 |} ].
Proof.
  apply (receipt_creation_rows
           (creation (Ok generated_content) (Ok receipt_with_event) []) fresh
           (set_db {| Store.rows :=
                        [ {| Store.id := 1; Store.title := "Top Hat Picnic";
                             Store.description :=
                               "Share a photo of a picnic in a top hat";
                             Store.contract_bounty_id := None;
                             Store.created_at := 1000 |} ];
                      Store.last_id := 1 |} fresh)
           {| title := "Top Hat Picnic";
              description := "Share a photo of a picnic in a top hat" |}
           "0xfeed" receipt_with_event
           {| log_name := "BountyCreated"; log_id := 42 |});
    reflexivity.
Defined.

Example fallback_creation_single_row :
  Store.rows (db (createBounty (creation (Throw (mkError None "503"))
                                      (Ok receipt_with_event) []) fresh).1)
  = [ {| Store.id := 1; Store.title := "Historical Hat Recreation";
         Store.description :=
           "Recreate a famous historical photo or painting while wearing a top hat.";
         Store.contract_bounty_id := Some "42"; Store.created_at := 1015 |} ].
Proof. reflexivity. Qed.

(** *** The polling path *)

(** When the receipt yields no [BountyCreated] event and the query of the
    block finds one with the transaction's hash, [createBounty] returns that
    identifier and writes nothing: the globals are those
    [generateBountyIdea] left. *)
Lemma polling_creation_writes_nothing e g g1 c h r events bountyId :
  session e = Ok () ->
  generateBountyIdea e g = (g1, Some c) ->
  createSoloBounty e (title c) (description c) = Ok h ->
  wait e = Ok r ->
  bountyCreatedEvent r = None ->
  queryFilter e (blockNumber r) = Ok events ->
  polled_id r events = Some bountyId ->
  createBounty e g = (g1, Ok bountyId).
Proof.
  intros Hs Hg Hc Hw Hev Hq Hp.
  unfold createBounty. now rewrite Hs, Hg, Hc, Hw, Hev, Hq, Hp.
Qed.

(** C6, at the input where the code departs from it.  The transaction is
    confirmed, no [BountyCreated] event is read from the receipt, and the
    query of the block returns the event of this transaction with
    identifier 42.  [createBounty] returns ["42"] and raises nothing, but
    the store does not receive the identifier: with generated content it
    holds the draft row alone, its contract identifier empty; with fallback
    content it holds no row at all. *)
Theorem polling_creation_drops_identifier :
  let with_generated :=
    createBounty (creation (Ok generated_content) (Ok receipt_without_event)
                        polled_events) fresh in
  let with_fallback :=
    createBounty (creation (Throw (mkError None "503"))
                        (Ok receipt_without_event) polled_events) fresh in
  with_generated.2 = Ok "42"
  /\ Store.rows (db with_generated.1)
     = [ {| Store.id := 1; Store.title := "Top Hat Picnic";
            Store.description := "Share a photo of a picnic in a top hat";
            Store.contract_bounty_id := None; Store.created_at := 1000 |} ]
  /\ with_fallback.2 = Ok "42"
  /\ Store.rows (db with_fallback.1) = [].
Proof. repeat split; reflexivity. Qed.

(** *** Failures of a creation *)

(** [createBounty] never writes the listener's globals, whether it returns
    or throws. *)
Lemma createBounty_keeps_listener_state e g :
  provider (createBounty e g).1 = provider g
  /\ contract (createBounty e g).1 = contract g
  /\ lastProcessedBlock (createBounty e g).1 = lastProcessedBlock g.
Proof.
  assert (Hgen : provider (generateBountyIdea e g).1 = provider g
                 /\ contract (generateBountyIdea e g).1 = contract g
                 /\ lastProcessedBlock (generateBountyIdea e g).1
                    = lastProcessedBlock g).
  { unfold generateBountyIdea.
    destruct (generate_body e g) as [[g' b]|err] eqn:Hb.
    - unfold generate_body in Hb.
      destruct (generate e _); [|discriminate]. cbn [mbind result_bind] in Hb.
      destruct (Store.insert _ _ _ _ _); [|discriminate].
      cbn [mbind result_bind] in Hb.
      destruct (g_title _); [|discriminate].
      destruct (g_description _); [|discriminate].
      injection Hb as <- _. now repeat split.
    - destruct (fallback _ _). now repeat split. }
  unfold createBounty. destruct (session e); [|now repeat split].
  destruct (generateBountyIdea e g) as [g1 [c|]]; [|exact Hgen].
  destruct (createSoloBounty e _ _); [|exact Hgen].
  destruct (wait e) as [r|]; [|exact Hgen].
  destruct (bountyCreatedEvent r).
  - destruct (Store.insert _ _ _ _ _); exact Hgen.
  - destruct (queryFilter e _) as [events|]; [|exact Hgen].
    destruct (polled_id r events); exact Hgen.
Qed.


End IssuanceFacts.

(** ** Identifier backfill *)

Module BackfillFacts.

Import Backfill.
Local Open Scope list_scope.

Lemma down_from_S n count :
  down_from (Z.of_nat (S n)) (S count)
  = Z.of_nat n :: down_from (Z.of_nat n) count.
Proof.
  unfold down_from. cbn [seq fmap list_fmap]. f_equal; [lia|].
  rewrite <- fmap_S_seq, <- list_fmap_compose.
  apply list_fmap_ext. intros _ k _. simpl. lia.
Qed.

(** The scan stops at the greatest index below [n] whose lookup returns a
    bounty with the title and description sought, having looked up every
    index above it once, in decreasing order, whether those lookups returned
    or threw. *)
Lemma scan_finds e title description n j b :
  j < n ->
  bounties e (Z.of_nat j) = Ok b ->
  matches title description b = true ->
  exists m,
    j <= m < n /\
    (exists b', bounties e (Z.of_nat m) = Ok b'
                /\ matches title description b' = true) /\
    (forall k b', m < k < n -> bounties e (Z.of_nat k) = Ok b' ->
                  matches title description b' = false) /\
    scan e title description n
    = (down_from (Z.of_nat n) (n - m), Some (toString_int (Z.of_nat m))).
Proof.
  intros Hj Hb Hm. induction n as [|i IH]; [lia|].
  cbn [scan].
  destruct (bounties e (Z.of_nat i)) as [bi|err] eqn:Hbi.
  - destruct (matches title description bi) eqn:Hmi.
    + exists i. split; [lia|]. split; [now exists bi|]. split; [intros; lia|].
      replace (S i - i) with 1 by lia. f_equal.
      unfold down_from. cbn [seq fmap list_fmap]. f_equal. lia.
    + assert (Hne : j <> i) by (intros ->; congruence).
      destruct IH as (m & Hrange & Hmatch & Habove & Hscan); [lia|].
      exists m. split; [lia|]. split; [exact Hmatch|]. split.
      * intros k b' Hk Hbk. destruct (decide (k = i)) as [->|Hki].
        -- congruence.
        -- apply (Habove k b'); [lia | exact Hbk].
      * rewrite Hscan. cbn [fst snd].
        replace (S i - m) with (S (i - m)) by lia.
        now rewrite down_from_S.
  - assert (Hne : j <> i) by (intros ->; congruence).
    destruct IH as (m & Hrange & Hmatch & Habove & Hscan); [lia|].
    exists m. split; [lia|]. split; [exact Hmatch|]. split.
    * intros k b' Hk Hbk. destruct (decide (k = i)) as [->|Hki].
      -- congruence.
      -- apply (Habove k b'); [lia | exact Hbk].
    * rewrite Hscan. cbn [fst snd].
      replace (S i - m) with (S (i - m)) by lia.
      now rewrite down_from_S.
Qed.


Lemma toString_int_nonempty z : toString_int z <> "".
Proof.
  assert (H : forall p, NilZero.string_of_uint (Pos.to_uint p) <> "").
  { intros p. pose proof (DecimalPos.Unsigned.to_uint_nonnil p) as Hp.
    destruct (Pos.to_uint p); [contradiction|..]; discriminate. }
  unfold toString_int. destruct z as [|p|p]; simpl.
  - discriminate.
  - apply H.
  - discriminate.
Qed.

(** An update of the identifier column leaves the order of the rows by
    creation time as it was. *)
Lemma order_after_update cid rid l :
  Store.order_by_created_at_desc
    (Store.rows (Store.set_contract_bounty_id cid rid
                   {| Store.rows := l; Store.last_id := 0 |}))
  = Store.rows (Store.set_contract_bounty_id cid rid
      {| Store.rows := Store.order_by_created_at_desc l;
         Store.last_id := 0 |}).
Proof.
  cbn [Store.set_contract_bounty_id Store.rows].
  set (f := fun r : Store.row => if (Store.id r =? rid)%Z then _ else r).
  assert (Hts : forall r, Store.created_at (f r) = Store.created_at r).
  { intros r. unfold f. now destruct (Store.id r =? rid)%Z. }
  assert (Hins : forall r sorted,
             Store.insert_desc (f r) (map f sorted)
             = map f (Store.insert_desc r sorted)).
  { intros r sorted. induction sorted as [|x rest IH]; [reflexivity|].
    cbn [map Store.insert_desc]. rewrite !Hts.
    destruct (Store.created_at x <=? Store.created_at r)%Z; [reflexivity|].
    cbn [map]. now rewrite IH. }
  unfold Store.order_by_created_at_desc.
  induction l as [|r rest IH]; [reflexivity|].
  cbn [map fold_right]. now rewrite IH, Hins.
Qed.


Example backfill_on_ledger :
  findContractBountyId ledger "Top Hat Picnic"
    "Share a photo of a picnic in a top hat" = ([4; 3; 2]%Z, Some "2")
  /\ Store.rows (db (current_bounty ledger with_draft).1)
     = [ {| Store.id := 1; Store.title := "Top Hat Picnic";
            Store.description := "Share a photo of a picnic in a top hat";
            Store.contract_bounty_id := Some "2";
            Store.created_at := 1000 |} ].
Proof. split; reflexivity. Qed.


End BackfillFacts.

(** ** More on the claim listener *)

Module ListenerMore.

Import Admission Listener Views.
Local Open Scope list_scope.
Local Open Scope Z_scope.

Lemma settlements_app t1 t2 :
  settlements (t1 ++ t2) = settlements t1 ++ settlements t2.
Proof. unfold settlements. apply omap_app. Qed.

Lemma queries_app t1 t2 : queries (t1 ++ t2) = queries t1 ++ queries t2.
Proof. unfold queries. apply omap_app. Qed.

(** What a pipeline submits: the acceptance of its own claim, when the
    bounty was read and the verification said yes; nothing otherwise. *)
Lemma pipeline_settlements v e ev :
  settlements (pipeline v e ev) =
  match bounties e (bountyId ev) with
  | Ok b =>
      if verifyClaimWithAI v (admission e) (bounty_name b)
           (bounty_description b) (id ev)
      then [event_key ev] else []
  | Throw _ => []
  end.
Proof.
  unfold pipeline. destruct (bounties e (bountyId ev)) as [b|]; [|reflexivity].
  cbn [settlements omap list_omap].
  destruct (verifyClaimWithAI v _ _ _ _); [|reflexivity].
  destruct (acceptClaim e _ _); [|reflexivity].
  destruct (wait e _ _); reflexivity.
Qed.

Lemma handle_event_settlements v e ev :
  settlements (handle_event v e ev).1 =
  match wallet (cfg e) with
  | Ok address =>
      if owned address ev then settlements (pipeline v e ev) else []
  | Throw _ => []
  end.
Proof.
  unfold handle_event. destruct (wallet (cfg e)) as [a|]; [|reflexivity].
  destruct (owned a ev); reflexivity.
Qed.

Lemma handle_event_queries v e ev : queries (handle_event v e ev).1 = [].
Proof.
  unfold handle_event. destruct (wallet (cfg e)) as [a|]; [|reflexivity].
  destruct (owned a ev); [|reflexivity].
  unfold pipeline. destruct (bounties e _); [|reflexivity].
  cbn [queries omap list_omap].
  destruct (verifyClaimWithAI v _ _ _ _); [|reflexivity].
  destruct (acceptClaim e _ _); [|reflexivity].
  destruct (wait e _ _); reflexivity.
Qed.

Lemma for_events_queries v e events : queries (for_events v e events).1 = [].
Proof.
  induction events as [|ev rest IH]; [reflexivity|].
  cbn [for_events]. pose proof (handle_event_queries v e ev) as Hq.
  destruct (handle_event v e ev) as [t [[]|err]]; cbn [fst] in *.
  - destruct (for_events v e rest) as [t' r]. cbn [fst] in *.
    now rewrite queries_app, Hq, IH.
  - exact Hq.
Qed.

Lemma for_events_settlements_sublist v e events :
  settlements (for_events v e events).1 `sublist_of` (event_key <$> events).
Proof.
  induction events as [|ev rest IH]; [constructor|].
  cbn [for_events fmap list_fmap].
  pose proof (handle_event_settlements v e ev) as Hs.
  rewrite pipeline_settlements in Hs.
  assert (Hone : settlements (handle_event v e ev).1 = []
                 \/ settlements (handle_event v e ev).1 = [event_key ev]).
  { rewrite Hs. destruct (wallet (cfg e)) as [a|]; [|now left].
    destruct (owned a ev); [|now left].
    destruct (bounties e _) as [b|]; [|now left].
    destruct (verifyClaimWithAI v _ _ _ _); [now right | now left]. }
  destruct (handle_event v e ev) as [t [[]|err]]; cbn [fst] in *.
  - destruct (for_events v e rest) as [t' r]. cbn [fst] in *.
    rewrite settlements_app.
    destruct Hone as [-> | ->]; cbn [app].
    + now apply sublist_cons.
    + now apply sublist_skip.
  - destruct Hone as [-> | ->].
    + apply sublist_nil_l.
    + apply sublist_skip, sublist_nil_l.
Qed.

Lemma initializeContract_views c probe g :
  settlements (initializeContract c probe g).1.2 = []
  /\ queries (initializeContract c probe g).1.2 = [].
Proof.
  unfold initializeContract.
  destruct (privateKey c) as [[|a k]|]; [now split| |now split].
  destruct probe; [|now split].
  destruct (wallet_address c _); [|now split].
  destruct (abi_loaded c); now split.
Qed.

Lemma on_poll_error_views e g done err :
  settlements (on_poll_error e g done err).1.2 = settlements done
  /\ queries (on_poll_error e g done err).1.2 = queries done.
Proof.
  unfold on_poll_error.
  destruct (match code err with Some c => _ | None => false end).
  - pose proof (initializeContract_views (cfg e) (reconnect_probe e) g)
      as [H1 H2].
    destruct (initializeContract _ _ g) as [[g' t] r]. cbn [fst snd] in *.
    unfold settlements, queries in *. rewrite !omap_app.
    cbn [omap list_omap]. rewrite H1, H2. now rewrite !app_nil_r.
  - cbn [fst snd]. unfold settlements, queries. rewrite !omap_app.
    cbn [omap list_omap]. now rewrite !app_nil_r.
Qed.

Lemma accept_in_settlements b i t :
  In (AcceptClaim b i) t <-> In (b, i) (settlements t).
Proof.
  unfold settlements. induction t as [|x t IH]; [reflexivity|].
  destruct x; cbn [omap list_omap In]; rewrite <- ?IH;
    try (split; [intros [H|H]; [discriminate | exact H] | intros H; now right]).
  split; (intros [H|H]; [left; congruence | now right]).
Qed.

(** X1.  The settlement transactions a tick submits are a subsequence of
    the claims of the range it fetched, in the order the ledger returned
    them: no claim outside the fetched range is ever accepted, none is
    submitted more often than the range lists it, and the order is never
    changed.  A tick that fetched nothing submits nothing. *)
Theorem settlements_follow_fetched_events v e g :
  (forall events,
     settlements (for_events v e events).1
       `sublist_of` (event_key <$> events))
  /\ (settlements (tick v e g).1.2 = []
      \/ exists latest events,
           getBlockNumber e = Ok latest /\
           queryFilter e (lastProcessedBlock g + 1) latest = Ok events /\
           settlements (tick v e g).1.2
           = settlements (for_events v e events).1).
Proof.
  split; [intros events; apply for_events_settlements_sublist|].
  destruct (ListenerFacts.tick_has_shape v e g)
    as [latest Hh Hle | done err Hab | latest events body Hh Hlt Hq Hf].
  - now left.
  - rewrite (proj1 (on_poll_error_views e g done err)).
    destruct Hab
      as [[_ ->] | (latest & Hh & _ &
                    [[_ ->] | (events & body & Hq & Hf & ->)])];
      [now left | now left |].
    right. exists latest, events. repeat split; try assumption.
    rewrite settlements_app, Hf. reflexivity.
  - right. exists latest, events. repeat split; try assumption.
    cbn [fst snd]. unfold settlements. rewrite !omap_app, Hf.
    cbn [omap list_omap fst]. now rewrite app_nil_r.
Qed.

(** X2.  The iteration of an event submits the acceptance of its claim
    exactly when the wallet is built, the event's bounty issuer is the
    wallet's address up to letter case, the bounty is read from the
    contract, and the verification of the claim returns true; and it submits
    it once: a failed submission or confirmation is logged and not tried
    again. *)
Theorem settlement_attempted_iff v e ev :
  (In (AcceptClaim (bountyId ev) (id ev)) (handle_event v e ev).1 <->
   exists address b,
     wallet (cfg e) = Ok address /\
     toLowerCase (bountyIssuer ev) = toLowerCase address /\
     bounties e (bountyId ev) = Ok b /\
     verifyClaimWithAI v (admission e) (bounty_name b)
       (bounty_description b) (id ev) = true)
  /\ (settlements (handle_event v e ev).1 = []
      \/ settlements (handle_event v e ev).1 = [event_key ev]).
Proof.
  pose proof (accept_in_settlements (bountyId ev) (id ev)) as Hin.
  unfold event_key.
  rewrite Hin, handle_event_settlements, pipeline_settlements.
  destruct (wallet (cfg e)) as [a|werr].
  - unfold owned.
    destruct (String.eqb_spec (toLowerCase (bountyIssuer ev)) (toLowerCase a))
      as [Heq|Hne].
    + destruct (bounties e (bountyId ev)) as [b|berr].
      * destruct (verifyClaimWithAI v _ _ _ _) eqn:Hv.
        -- split; [|now right]. split; [|intros _; now left].
           intros _. now exists a, b.
        -- split; [|now left]. split; [intros []|].
           intros (a' & b' & Ha & _ & Hb & Hv').
           injection Hb as <-. congruence.
      * split; [|now left]. split; [intros []|].
        intros (a' & b' & _ & _ & Hb & _). discriminate.
    + split; [|now left]. split; [intros []|].
      intros (a' & b' & Ha & Heq & _). injection Ha as <-. contradiction.
  - split; [|now left]. split; [intros []|].
    intros (a' & b' & Ha & _). discriminate.
Qed.

(** What one tick queries and assigns. *)
Lemma tick_summary v e g :
  (queries (tick v e g).1.2 = [] /\
   assignments (tick v e g).1.2 = [] /\
   lastProcessedBlock (tick v e g).1.1 = lastProcessedBlock g)
  \/ exists latest,
       getBlockNumber e = Ok latest /\ lastProcessedBlock g < latest /\
       queries (tick v e g).1.2 = [(lastProcessedBlock g + 1, latest)] /\
       ((assignments (tick v e g).1.2 = [] /\
         lastProcessedBlock (tick v e g).1.1 = lastProcessedBlock g)
        \/ (assignments (tick v e g).1.2 = [latest] /\
            lastProcessedBlock (tick v e g).1.1 = latest)).
Proof.
  destruct (ListenerFacts.tick_has_shape v e g)
    as [latest Hh Hle | done err Hab | latest events body Hh Hlt Hq Hf].
  - left. now repeat split.
  - destruct (ListenerFacts.on_poll_error_cursor e g done err) as [Hc Ha].
    destruct (on_poll_error_views e g done err) as [_ Hqs].
    rewrite Hc, Ha, Hqs.
    destruct Hab
      as [[_ ->] | (latest & Hh & Hlt &
                    [[_ ->] | (events & body & Hq & Hf & ->)])].
    + left. now repeat split.
    + right. exists latest. repeat split; try assumption. now left.
    + right. exists latest. repeat split; try assumption.
      * rewrite queries_app.
        pose proof (for_events_queries v e events) as Hn.
        rewrite Hf in Hn. cbn [fst] in Hn. now rewrite Hn.
      * left. split; [|reflexivity].
        rewrite ListenerFacts.assignments_app.
        pose proof (ListenerFacts.for_events_no_assignment v e events) as Hn.
        rewrite Hf in Hn. cbn [fst] in Hn. now rewrite Hn.
  - right. exists latest. cbn [fst snd lastProcessedBlock set_lastProcessedBlock].
    pose proof (for_events_queries v e events) as Hn.
    pose proof (ListenerFacts.for_events_no_assignment v e events) as Hm.
    rewrite Hf in Hn, Hm. cbn [fst] in Hn, Hm.
    repeat split; try assumption.
    + rewrite !queries_app, Hn. reflexivity.
    + right. split; [|reflexivity].
      rewrite !ListenerFacts.assignments_app, Hm. reflexivity.
Qed.

(** X3.  Whatever a tick queries is the range from the block after the
    cursor to the height it has just read, never empty or inverted.  Across
    two ticks run one after the other the ranges leave no gap: when the
    first assigned the cursor, the second starts at the block after the
    first's upper bound; when it did not, the second starts where the first
    started, so the unprocessed blocks are fetched again. *)
Theorem polled_ranges_are_adjacent v e1 e2 g f2 l2 :
  In (f2, l2) (queries (tick v e2 (tick v e1 g).1.1).1.2) ->
  f2 <= l2 /\ getBlockNumber e2 = Ok l2 /\
  ((assignments (tick v e1 g).1.2 = [] /\ f2 = lastProcessedBlock g + 1)
   \/ (exists l1,
         queries (tick v e1 g).1.2 = [(lastProcessedBlock g + 1, l1)] /\
         lastProcessedBlock g + 1 <= l1 /\
         assignments (tick v e1 g).1.2 = [l1] /\ f2 = l1 + 1)).
Proof.
  intros Hin.
  destruct (tick_summary v e2 (tick v e1 g).1.1)
    as [(Hq2 & _) | (latest2 & Hh2 & Hlt2 & Hq2 & _)];
    rewrite Hq2 in Hin; [destruct Hin|].
  destruct Hin as [Heq|[]]. injection Heq as <- <-.
  split; [lia|]. split; [assumption|].
  destruct (tick_summary v e1 g)
    as [(_ & Ha1 & Hc1) | (latest1 & _ & Hlt1 & Hq1 & [[Ha1 Hc1]|[Ha1 Hc1]])].
  - left. now rewrite Hc1.
  - left. now rewrite Hc1.
  - right. exists latest1. rewrite Hc1. repeat split; try assumption. lia.
Qed.

Lemma polled_ranges_are_adjacent_witness :
  (106 <= 110)%Z /\ getBlockNumber (chain_at 110 [claim_theirs]) = Ok 110%Z /\
  ((assignments (tick variant_7 (chain_at 105 [claim_ours]) (at_block 100)).1.2
    = [] /\ 106%Z = (lastProcessedBlock (at_block 100) + 1)%Z)
   \/ (exists l1,
         queries (tick variant_7 (chain_at 105 [claim_ours]) (at_block 100)).1.2
         = [((lastProcessedBlock (at_block 100) + 1)%Z, l1)] /\
         (lastProcessedBlock (at_block 100) + 1 <= l1)%Z /\
         assignments (tick variant_7 (chain_at 105 [claim_ours])
                        (at_block 100)).1.2 = [l1] /\
         106%Z = (l1 + 1)%Z)).
Proof.
  apply (polled_ranges_are_adjacent variant_7 (chain_at 105 [claim_ours])
           (chain_at 110 [claim_theirs]) (at_block 100) 106 110).
  left. reflexivity.
Defined.

(** X4.  A tick rejects only in one way: an error of the polling carried
    the code NETWORK_ERROR or UNKNOWN_ERROR, the tick announced a reconnect,
    and [initializeContract] threw; the rejection is that throw.  The
    cursor and the contract are then as they were before the tick. *)
Theorem tick_rejects_only_on_failed_reconnect v e g err :
  (tick v e g).2 = Throw err ->
  In LogReconnecting (tick v e g).1.2
  /\ (initializeContract (cfg e) (reconnect_probe e) g).2 = Throw err
  /\ lastProcessedBlock (tick v e g).1.1 = lastProcessedBlock g
  /\ contract (tick v e g).1.1 = contract g
  /\ assignments (tick v e g).1.2 = [].
Proof.
  intros Hrej.
  destruct (ListenerFacts.tick_has_shape v e g)
    as [latest Hh Hle | done perr Hab | latest events body Hh Hlt Hq Hf];
    [discriminate | | discriminate].
  destruct (ListenerFacts.on_poll_error_cursor e g done perr) as [Hc Ha].
  assert (Hdone : assignments done = []).
  { destruct Hab
      as [[_ ->] | (latest & _ & _ &
                    [[_ ->] | (events & body & _ & Hf & ->)])];
      try reflexivity.
    rewrite ListenerFacts.assignments_app.
    pose proof (ListenerFacts.for_events_no_assignment v e events) as Hn.
    now rewrite Hf in Hn. }
  rewrite Hc, Ha, Hdone. clear Hc Ha Hab.
  unfold on_poll_error in *.
  destruct (match code perr with Some c => _ | None => false end);
    [|discriminate].
  assert (Hcontract :
    (initializeContract (cfg e) (reconnect_probe e) g).2 = Throw err ->
    contract (initializeContract (cfg e) (reconnect_probe e) g).1.1
    = contract g).
  { unfold initializeContract.
    destruct (privateKey (cfg e)) as [[|a k]|]; try reflexivity.
    destruct (reconnect_probe e); [|reflexivity].
    destruct (wallet_address (cfg e) _); [|reflexivity].
    destruct (abi_loaded (cfg e)); [discriminate | reflexivity]. }
  destruct (initializeContract (cfg e) (reconnect_probe e) g) as [[g' t] r].
  cbn [fst snd] in *. subst r.
  repeat split; try reflexivity.
  - apply in_or_app. right. right. now left.
  - now apply Hcontract.
Qed.

Lemma tick_rejects_only_on_failed_reconnect_witness :
  In LogReconnecting (tick variant_7 node_down (at_block 100)).1.2
  /\ (initializeContract (cfg node_down) (reconnect_probe node_down)
        (at_block 100)).2
     = Throw (mkError None "Failed to connect to RPC endpoint")
  /\ lastProcessedBlock (tick variant_7 node_down (at_block 100)).1.1
     = lastProcessedBlock (at_block 100)
  /\ contract (tick variant_7 node_down (at_block 100)).1.1
     = contract (at_block 100)
  /\ assignments (tick variant_7 node_down (at_block 100)).1.2 = [].
Proof.
  apply (tick_rejects_only_on_failed_reconnect variant_7 node_down
           (at_block 100)).
  reflexivity.
Defined.

(** X5.  [initializeContract] binds the contract to the provider it has
    just built only when every step succeeded; after any failure the
    contract is the one from before, although the provider may already have
    been replaced.  With no private key nothing at all is touched.  It never
    writes the cursor, the table or the used-set. *)
Theorem initializeContract_rebinds_only_on_success c probe g :
  ((initializeContract c probe g).2 = Ok () ->
     provider (initializeContract c probe g).1.1 = S (provider g)
     /\ contract (initializeContract c probe g).1.1 = S (provider g))
  /\ ((initializeContract c probe g).2 <> Ok () ->
       contract (initializeContract c probe g).1.1 = contract g
       /\ (provider (initializeContract c probe g).1.1 = provider g
           \/ provider (initializeContract c probe g).1.1 = S (provider g)))
  /\ (privateKey c = None \/ privateKey c = Some "" ->
      (initializeContract c probe g).1.1 = g
      /\ (initializeContract c probe g).2 <> Ok ())
  /\ lastProcessedBlock (initializeContract c probe g).1.1
     = lastProcessedBlock g
  /\ db (initializeContract c probe g).1.1 = db g
  /\ usedFallbackIndices (initializeContract c probe g).1.1
     = usedFallbackIndices g.
Proof.
  unfold initializeContract.
  assert (Hbool : forall (A : Type) (x : A) (e : error),
             Throw e = (Ok x : result A) -> False) by discriminate.
  destruct (privateKey c) as [[|a k]|];
    [|destruct probe as [h|perr];
      [destruct (wallet_address c _) as [w|werr];
       [destruct (abi_loaded c)|]|]|];
    cbn [fst snd negb provider contract lastProcessedBlock db
         usedFallbackIndices set_provider set_contract];
    (split; [intros H; first [discriminate | now split]|]);
    (split; [intros H; first [now exfalso; apply H | split; auto]|]);
    (split; [intros [H|H];
             first [discriminate | split; [reflexivity | discriminate]]|]);
    now repeat split.
Qed.

(** Where the cursor can be after an activation's loop and assignment. *)
Lemma tick_finish_cursor v e from latest events g :
  lastProcessedBlock (tick_finish v e from latest events g).1.1 = latest
  \/ lastProcessedBlock (tick_finish v e from latest events g).1.1
     = lastProcessedBlock g.
Proof.
  unfold tick_finish. destruct (for_events v e events) as [t [[]|err]].
  - now left.
  - right. apply ListenerFacts.on_poll_error_cursor.
Qed.

Lemma cursors_stay_in v sched : forall (s : system) (Q : Z -> Prop),
  Q (lastProcessedBlock (glob s)) ->
  (forall a, In a (inflight s) -> Q (act_latest a)) ->
  (forall e c, In (Fire e) sched -> getBlockNumber e = Ok c -> Q c) ->
  forall c, In c (cursors v s sched) -> Q c.
Proof.
  induction sched as [|a rest IH]; intros s Q Hcur Hfl Hfire c Hc;
    [destruct Hc|].
  cbn [cursors] in Hc.
  assert (Hstep : Q (lastProcessedBlock (glob (step v s a)))
                  /\ forall x, In x (inflight (step v s a)) -> Q (act_latest x)).
  { destruct a as [e|k]; cbn [step].
    - unfold tick_begin.
      destruct (getBlockNumber e) as [latest|err] eqn:Hh.
      + destruct (lastProcessedBlock (glob s) <? latest).
        * destruct (queryFilter e _ _) as [events|qerr]; cbn [glob inflight].
          -- split; [assumption|]. intros x Hx.
             apply in_app_or in Hx as [Hx|[<-|[]]]; [auto|].
             cbn [act_latest]. apply (Hfire e); [now left | assumption].
          -- split; [|assumption].
             now rewrite (proj1 (ListenerFacts.on_poll_error_cursor _ _ _ _)).
        * now split.
      + cbn [glob inflight]. split; [|assumption].
        now rewrite (proj1 (ListenerFacts.on_poll_error_cursor _ _ _ _)).
    - destruct (inflight s !! k) as [x|] eqn:Hk; [|now split].
      cbn [glob inflight]. split.
      + destruct (tick_finish_cursor v (act_env x) (act_from x) (act_latest x)
                    (act_events x) (glob s)) as [-> | ->]; [|assumption].
        apply Hfl. apply list_elem_of_In. now apply list_elem_of_lookup_2 in Hk.
      + intros y Hy. apply Hfl. apply list_elem_of_In.
        apply list_elem_of_In in Hy.
        now apply list_elem_of_delete_inv in Hy. }
  destruct Hstep as [Hcur' Hfl'].
  destruct Hc as [<- | Hc]; [assumption|].
  apply (IH (step v s a) Q Hcur' Hfl'); [|assumption].
  intros e c' Hin. apply Hfire. now right.
Qed.

(** X6.  However the activations of the timer overlap, the cursor only ever
    holds the height it started with or a height that one of the
    activations read from the node at its start: an assignment never
    invents a block. *)
Theorem cursor_holds_reported_heights v g sched c :
  In c (cursors v {| glob := g; inflight := [] |} sched) ->
  c = lastProcessedBlock g
  \/ exists e, In (Fire e) sched /\ getBlockNumber e = Ok c.
Proof.
  apply (cursors_stay_in v sched {| glob := g; inflight := [] |}
           (fun c => c = lastProcessedBlock g
                     \/ exists e, In (Fire e) sched /\ getBlockNumber e = Ok c)).
  - now left.
  - intros a [].
  - intros e c' Hin Hh. right. now exists e.
Qed.

Lemma cursor_holds_reported_heights_witness :
  105%Z = lastProcessedBlock (at_block 100)
  \/ exists e,
       In (Fire e) [Fire (chain_at 105 [claim_ours]);
                    Fire (chain_at 110 [claim_ours]); Resume 1; Resume 0]
       /\ getBlockNumber e = Ok 105%Z.
Proof.
  apply (cursor_holds_reported_heights variant_7 (at_block 100)
           [Fire (chain_at 105 [claim_ours]);
            Fire (chain_at 110 [claim_ours]); Resume 1; Resume 0] 105).
  right. right. right. left. reflexivity.
Defined.

End ListenerMore.

(** ** More on the admission decision *)

Module AdmissionMore.

Import Admission Views.

Lemma substring_all s : String.substring 0 (String.length s) s = s.
Proof. induction s as [|c r IH]; [reflexivity|]. simpl. now rewrite IH. Qed.

Lemma replace_eq pat rep s :
  replace pat rep s =
  if String.prefix pat s
  then rep ++ String.substring (String.length pat)
                (String.length s - String.length pat) s
  else match s with
       | EmptyString => EmptyString
       | String c r => String c (replace pat rep r)
       end.
Proof. destruct s; reflexivity. Qed.

Lemma replace_absent pat rep s : includes pat s = false -> replace pat rep s = s.
Proof.
  induction s as [|c r IH]; intros H; cbn [includes] in H;
    apply orb_false_elim in H as [Hp Hr]; rewrite replace_eq, Hp.
  - reflexivity.
  - now rewrite IH.
Qed.

Lemma prefix_append pat rest : String.prefix pat (pat ++ rest) = true.
Proof.
  induction pat as [|a p IH]; simpl; [now destruct rest|].
  destruct (ascii_dec a a); [exact IH | contradiction].
Qed.

Lemma substring_after pat rest :
  String.substring (String.length pat)
    (String.length (pat ++ rest) - String.length pat) (pat ++ rest) = rest.
Proof.
  induction pat as [|a p IH]; simpl.
  - rewrite Nat.sub_0_r. apply substring_all.
  - exact IH.
Qed.

(** A first occurrence at the very start is the one replaced. *)
Lemma replace_at_start pat rep rest :
  replace pat rep (pat ++ rest) = rep ++ rest.
Proof. now rewrite replace_eq, prefix_append, substring_after. Qed.

(** X7.  The metadata of a claim is fetched from the public gateway when
    its token URI begins with [ipfs://], the rest of the URI kept as it is,
    and from the URI itself when [ipfs://] occurs nowhere in it. *)
Theorem metadata_location e claimId uri :
  tokenURI e claimId = Ok uri ->
  (forall rest, uri = "ipfs://" ++ rest ->
     evidence e claimId =
     (metadata ← fetch_json e ("https://ipfs.io/ipfs/" ++ rest);
      get "image" (Some metadata)))
  /\ (includes "ipfs://" uri = false ->
      evidence e claimId =
      (metadata ← fetch_json e uri; get "image" (Some metadata))).
Proof.
  intros Hu. unfold evidence. rewrite Hu. cbn [mbind result_bind]. split.
  - intros rest ->. now rewrite replace_at_start.
  - intros Hno. now rewrite (replace_absent _ _ _ Hno).
Qed.

Lemma metadata_location_witness :
  (forall rest, "ipfs://QmClaim/metadata.json" = "ipfs://" ++ rest ->
     evidence (scripted JNull) 1 =
     (metadata ← fetch_json (scripted JNull) ("https://ipfs.io/ipfs/" ++ rest);
      get "image" (Some metadata)))
  /\ (includes "ipfs://" "ipfs://QmClaim/metadata.json" = false ->
      evidence (scripted JNull) 1 =
      (metadata ← fetch_json (scripted JNull) "ipfs://QmClaim/metadata.json";
       get "image" (Some metadata))).
Proof.
  apply (metadata_location (scripted JNull) 1 "ipfs://QmClaim/metadata.json").
  reflexivity.
Defined.

(** *** Reading a decimal answer *)

Lemma append_cons c s t : (String c s ++ t)%string = String c (s ++ t).
Proof. reflexivity. Qed.

Lemma append_nil t : (EmptyString ++ t)%string = t.
Proof. reflexivity. Qed.

Lemma uint_value_of_uint_acc d : forall acc,
  Z.pos (Pos.of_uint_acc d acc) = uint_value d (Z.pos acc).
Proof.
  induction d; intros acc; cbn [Pos.of_uint_acc uint_value];
    try reflexivity; rewrite IHd; f_equal; lia.
Qed.

Lemma uint_value_of_uint d : Z.of_N (Pos.of_uint d) = uint_value d 0.
Proof.
  induction d; cbn [Pos.of_uint uint_value]; try reflexivity;
    try exact IHd; cbn [Z.of_N]; now rewrite uint_value_of_uint_acc.
Qed.

Lemma uint_value_to_uint p : uint_value (Pos.to_uint p) 0 = Z.pos p.
Proof.
  rewrite <- uint_value_of_uint, DecimalPos.Unsigned.of_to. reflexivity.
Qed.

(** Nothing is read from a text that begins with no decimal digit. *)
Lemma digits_stop z tail acc :
  plain_tail z tail = true -> digits 10 tail acc = acc.
Proof.
  destruct tail as [|c r]; [reflexivity|].
  cbn [plain_tail digits]. intros H.
  apply andb_true_iff in H as [H _]. apply negb_true_iff in H.
  unfold digit_val. rewrite H.
  destruct (in_range 97 122 c) eqn:Hl.
  - unfold in_range in Hl. apply andb_true_iff in Hl as [Hl _].
    apply Z.leb_le in Hl.
    destruct (code_unit c - 87 <? 10)%Z eqn:Hlt; [|reflexivity].
    apply Z.ltb_lt in Hlt. lia.
  - destruct (in_range 65 90 c) eqn:Hu; [|reflexivity].
    unfold in_range in Hu. apply andb_true_iff in Hu as [Hu _].
    apply Z.leb_le in Hu.
    destruct (code_unit c - 55 <? 10)%Z eqn:Hlt; [|reflexivity].
    apply Z.ltb_lt in Hlt. lia.
Qed.

Lemma digits_of_uint z tail d : forall acc,
  plain_tail z tail = true ->
  digits 10 (NilEmpty.string_of_uint d ++ tail) (Some acc)
  = Some (uint_value d acc).
Proof.
  induction d; intros acc Ht;
    cbn [NilEmpty.string_of_uint uint_value];
    rewrite ?append_cons, ?append_nil;
    [now apply (digits_stop z)|..];
    cbn [digits]; (rewrite <- IHd by exact Ht); reflexivity.
Qed.

Lemma string_of_uint_nonnil d :
  d <> Decimal.Nil -> NilZero.string_of_uint d = NilEmpty.string_of_uint d.
Proof. destruct d; [contradiction|reflexivity..]. Qed.

Lemma digits_of_uint_start z tail d :
  d <> Decimal.Nil ->
  plain_tail z tail = true ->
  digits 10 (NilEmpty.string_of_uint d ++ tail) None = Some (uint_value d 0).
Proof.
  intros Hd Ht.
  destruct d; [contradiction|..];
    cbn [NilEmpty.string_of_uint uint_value];
    rewrite append_cons; cbn [digits];
    (rewrite <- (digits_of_uint z tail) by exact Ht); reflexivity.
Qed.

(** [parseInt] on the decimal digits of a positive number followed by a
    plain tail. *)
Local Ltac read_sign :=
  unfold parseInt; cbn [trim_start];
  repeat match goal with
         | |- context [is_white ?c] =>
             let b := eval vm_compute in (is_white c) in
             change (is_white c) with b
         end;
  cbn -[digits Z.mul NilEmpty.string_of_uint].

Lemma parseInt_positive p tail :
  plain_tail (Z.pos p) tail = true ->
  parseInt (NilZero.string_of_uint (Pos.to_uint p) ++ tail) = Num (Z.pos p)
  /\ parseInt (String "-" (NilZero.string_of_uint (Pos.to_uint p) ++ tail))
     = Num (Z.neg p).
Proof.
  intros Ht.
  rewrite (string_of_uint_nonnil _ (DecimalPos.Unsigned.to_uint_nonnil p)).
  pose proof (digits_of_uint_start (Z.pos p) tail (Pos.to_uint p)
                (DecimalPos.Unsigned.to_uint_nonnil p) Ht) as Hd.
  rewrite uint_value_to_uint in Hd.
  pose proof (DecimalPos.Unsigned.to_uint_nonzero p) as Hnz.
  pose proof (DecimalPos.Unsigned.to_uint_nonnil p) as Hnn.
  assert (Hsecond : forall r,
            Pos.to_uint p = Decimal.D0 r ->
            exists c s, NilEmpty.string_of_uint r ++ tail = String c s
                        /\ in_range 48 57 c = true).
  { intros r Hr. rewrite Hr in Hnz.
    destruct r; [contradiction|..]; cbn [NilEmpty.string_of_uint];
      rewrite append_cons; eexists _, _; split; reflexivity. }
  destruct (Pos.to_uint p) as [|r|r|r|r|r|r|r|r|r|r] eqn:Hp;
    [congruence| |
     cbn [NilEmpty.string_of_uint] in Hd |- *;
     rewrite append_cons in Hd |- *;
     split; read_sign; rewrite Hd; reflexivity ..].
  destruct (Hsecond r eq_refl) as (c & s & Hs & Hc).
  cbn [NilEmpty.string_of_uint] in *. rewrite append_cons, Hs in *.
  assert (Hx : forall (A : Type) (a b d : A),
            match c with
            | "x"%char => a | "X"%char => b | _ => d
            end = d).
  { intros A a b d. unfold in_range, code_unit in Hc.
    destruct c as [[|] [|] [|] [|] [|] [|] [|] [|]];
      try reflexivity; discriminate Hc. }
  split; read_sign; rewrite Hx, Hd; reflexivity.
Qed.

(** [parseInt] reads back what [toString] wrote, whatever plain text
    follows. *)
Lemma parseInt_toString_int z tail :
  plain_tail z tail = true -> parseInt (toString_int z ++ tail) = Num z.
Proof.
  intros Ht. unfold toString_int. destruct z as [|p|p].
  - change (NilZero.string_of_int (Z.to_int 0)) with "0".
    rewrite append_cons, append_nil.
    destruct tail as [|c s]; [reflexivity|].
    cbn [plain_tail] in Ht. apply andb_true_iff in Ht as [Hd Hx].
    apply negb_true_iff in Hd. apply negb_true_iff in Hx.
    cbn [Z.eqb andb] in Hx. apply orb_false_elim in Hx as [Hx1 Hx2].
    assert (Hnox : forall (A : Type) (a b d : A),
              match c with
              | "x"%char => a | "X"%char => b | _ => d
              end = d).
    { intros A a b d.
      destruct c as [[|] [|] [|] [|] [|] [|] [|] [|]];
        try reflexivity; discriminate. }
    read_sign. rewrite Hnox.
    cbn [digits]. change (digit_val "0") with (Some 0%Z). cbn [Z.ltb Z.compare].
    assert (Hstop : digits 10 (String c s) (Some 0%Z) = Some 0%Z).
    { apply (digits_stop 1). cbn [plain_tail]. rewrite Hd. reflexivity. }
    cbn [digits] in Hstop. rewrite Hstop. reflexivity.
  - cbn [Z.to_int NilZero.string_of_int]. now apply parseInt_positive.
  - cbn [Z.to_int NilZero.string_of_int]. rewrite append_cons.
    apply parseInt_positive.
    destruct tail as [|c s]; [reflexivity|].
    cbn [plain_tail] in *. apply andb_true_iff in Ht as [Hd _].
    now rewrite Hd.
Qed.

Lemma append_nil_r s : (s ++ "")%string = s.
Proof.
  induction s as [|c r IH]; [reflexivity|]. now rewrite append_cons, IH.
Qed.

(** Two numbers written alike are the same number. *)
Lemma toString_int_inj a b : toString_int a = toString_int b -> a = b.
Proof.
  intros H.
  pose proof (parseInt_toString_int a "" eq_refl) as Ha.
  pose proof (parseInt_toString_int b "" eq_refl) as Hb.
  rewrite append_nil_r in Ha, Hb. rewrite H, Hb in Ha. now injection Ha.
Qed.

Lemma oracle_score_of_content v e t d imageUrl data content :
  chat_completion e
    {| sr_text := user_text v e t d imageUrl; sr_image_url := imageUrl |}
  = Ok data ->
  message_content data = Ok content ->
  oracle_score v e t d imageUrl = Ok (parseInt (ToString content)).
Proof.
  intros Hc Hm. unfold oracle_score. rewrite Hc. cbn [mbind result_bind].
  unfold message_content in Hm.
  destruct (get "choices" (Some data)) as [choices|]; [|discriminate].
  cbn [mbind result_bind] in *.
  destruct (get "0" choices) as [choice|]; [|discriminate].
  cbn [mbind result_bind] in *.
  destruct (get "message" choice) as [msg|]; [|discriminate].
  cbn [mbind result_bind] in *. now rewrite Hm.
Qed.

(** X8.  When the message content of the scoring service's answer is the
    decimal writing of an integer [z] followed by any text that does not
    begin with a digit (["8/10"], ["9 - a fine top hat"], ["-3"]), the
    score is [z] and the claim is accepted exactly when [z] reaches the
    threshold: text after the number is ignored.  The one exception the
    statement leaves out is a lone [0] followed by [x] or [X], which
    [parseInt] takes for a hexadecimal prefix. *)
Theorem decimal_answer_is_scored v e t d claimId imageUrl data z tail :
  evidence e claimId = Ok imageUrl ->
  truthy imageUrl = true ->
  chat_completion e
    {| sr_text := user_text v e t d imageUrl; sr_image_url := imageUrl |}
  = Ok data ->
  message_content data = Ok (Some (JStr (toString_int z ++ tail))) ->
  plain_tail z tail = true ->
  oracle_score v e t d imageUrl = Ok (Num z)
  /\ verifyClaimWithAI v e t d claimId = (threshold v <=? z)%Z.
Proof.
  intros Hev Himg Hc Hm Ht.
  assert (Hs : oracle_score v e t d imageUrl = Ok (Num z)).
  { rewrite (oracle_score_of_content v e t d imageUrl data _ Hc Hm).
    cbn [ToString json_toString]. now rewrite parseInt_toString_int. }
  split; [exact Hs|].
  unfold verifyClaimWithAI.
  rewrite AdmissionFacts.verify_body_split, Hev. cbn [mbind result_bind].
  rewrite Himg. cbn [negb]. rewrite Hs. reflexivity.
Qed.

Lemma decimal_answer_is_scored_witness :
  oracle_score variant_9 (scripted (JStr "8/10")) "t" "d"
    (Some (JStr "ipfs://QmClaim/photo.png")) = Ok (Num 8)
  /\ verifyClaimWithAI variant_9 (scripted (JStr "8/10")) "t" "d" 1
     = (threshold variant_9 <=? 8)%Z.
Proof.
  apply (decimal_answer_is_scored variant_9 (scripted (JStr "8/10")) "t" "d"
           1%Z (Some (JStr "ipfs://QmClaim/photo.png"))
           (JObj [("choices",
                   JArr [JObj [("message",
                                JObj [("content", JStr "8/10")])]])])
           8%Z "/10"); reflexivity.
Defined.

End AdmissionMore.

(** ** Issuance: what a creation does in every outcome *)

Module IssuanceMore.

Import Issuance Views.
Local Open Scope list_scope.

(** The rotation returns an entry of the list whatever the used-set holds,
    and one whose index is not in the set unless every index is. *)
Lemma fallback_total d (used : gset nat) :
  exists i c,
    fallbackBounties !! i = Some c /\
    ((exists j, j < length fallbackBounties /\ (j ∉ used)) /\ (i ∉ used) /\
       fallback d used = ({[i]} ∪ used, Some c)
     \/ (forall j, j < length fallbackBounties -> j ∈ used) /\
        fallback d used = ({[i]} ∪ ∅, Some c)).
Proof.
  destruct (availableIndices used) as [|j l] eqn:Ha.
  - assert (Hall : forall j, j < length fallbackBounties -> j ∈ used).
    { intros j Hj. destruct (decide (j ∈ used)) as [|Hn]; [assumption|].
      assert (Hin : j ∈ availableIndices used)
        by (apply IssuanceFacts.available_spec; split; assumption).
      rewrite Ha in Hin. now apply elem_of_nil in Hin. }
    destruct (IssuanceFacts.fallback_after_exhaustion d used Hall)
      as (i & c & Hc & Hf).
    exists i, c. split; [exact Hc|]. right. split; assumption.
  - unfold fallback. rewrite Ha.
    destruct (decide (length (j :: l) = 0)) as [H0|_]; [discriminate|].
    destruct (lookup_lt_is_Some_2 (j :: l) (floor_mul d (length (j :: l))))
      as [i Hi]; [apply IssuanceFacts.floor_mul_lt; cbn [length]; lia|].
    rewrite Hi.
    assert (Hin : i ∈ availableIndices used)
      by (rewrite Ha; eapply list_elem_of_lookup_2; exact Hi).
    apply IssuanceFacts.available_spec in Hin as [Hlt Hni].
    destruct (lookup_lt_is_Some_2 fallbackBounties i Hlt) as [c Hc].
    exists i, c. split; [exact Hc|]. left.
    split; [exists i; split; assumption|].
    split; [exact Hni|]. now rewrite Hc.
Qed.

(** The two ways [generateBountyIdea] can go. *)
Lemma generateBountyIdea_cases e g :
  (exists gen c,
     generate e (String.concat Admission.nl (Store.recent_titles (db g)))
     = Ok gen /\
     g_title gen = Some (title c) /\
     g_description gen = Some (description c) /\
     generateBountyIdea e g
     = (set_db {| Store.rows := Store.rows (db g) ++ [draft_row e g c];
                  Store.last_id := Store.last_id (db g) + 1 |} g, Some c))
  \/ (exists err i c used,
        generate_body e g = Throw err /\
        fallbackBounties !! i = Some c /\
        fallback (random e) (usedFallbackIndices g) = ({[i]} ∪ used, Some c) /\
        generateBountyIdea e g
        = (set_usedFallbackIndices ({[i]} ∪ used) g, Some c)).
Proof.
  destruct (generate_body e g) as [[g1 c]|err] eqn:Hb.
  - left. unfold generate_body in Hb.
    destruct (generate e _) as [gen|] eqn:Hg; [|discriminate].
    cbn [mbind result_bind] in Hb. unfold Store.insert in Hb.
    destruct (g_title gen) as [t|] eqn:Ht; [|discriminate].
    destruct (g_description gen) as [d|] eqn:Hd; [|discriminate].
    cbn [mbind result_bind] in Hb. injection Hb as <- <-.
    exists gen, {| title := t; description := d |}.
    repeat split; try assumption.
    unfold generateBountyIdea, generate_body. rewrite Hg.
    cbn [mbind result_bind]. unfold Store.insert. rewrite Ht, Hd.
    reflexivity.
  - right.
    destruct (fallback_total (random e) (usedFallbackIndices g))
      as (i & c & Hc & [(_ & _ & Hf)|(_ & Hf)]).
    + exists err, i, c, (usedFallbackIndices g).
      repeat split; try assumption.
      rewrite (IssuanceFacts.generateBountyIdea_falls_back e g err Hb), Hf.
      reflexivity.
    + exists err, i, c, ∅.
      repeat split; try assumption.
      rewrite (IssuanceFacts.generateBountyIdea_falls_back e g err Hb), Hf.
      reflexivity.
Qed.

(** The [try] block throws exactly when the service call fails or its
    payload lacks a title or a description. *)
Lemma generate_body_throws e g :
  (exists err, generate_body e g = Throw err) <->
  match generate e (String.concat Admission.nl (Store.recent_titles (db g)))
  with
  | Ok gen => g_title gen = None \/ g_description gen = None
  | Throw _ => True
  end.
Proof.
  unfold generate_body.
  destruct (generate e _) as [gen|err]; cbn [mbind result_bind].
  - unfold Store.insert.
    destruct (g_title gen), (g_description gen); cbn [mbind result_bind];
      split; try (intros [? ?]; discriminate); try (intros [?|?]; discriminate);
      eauto.
  - split; eauto.
Qed.

(** X9.  [generateBountyIdea] never returns [undefined] and never throws.
    When the generative service answers with a title and a description, it
    returns them and appends one row without identifier to the table,
    leaving the used-set alone.  In every other case (the call fails, or the
    payload lacks a title or a description, which the [NOT NULL] columns
    reject) it returns an entry of the built-in list, marks its index used
    and leaves the table alone; the entry is one not used before whenever
    the list still has such an entry. *)
Theorem generateBountyIdea_yields_content e g :
  exists c,
    (generateBountyIdea e g).2 = Some c /\
    let g1 := (generateBountyIdea e g).1 in
    match generate e (String.concat Admission.nl (Store.recent_titles (db g)))
    with
    | Ok {| g_title := Some t; g_description := Some d |} =>
        c = {| title := t; description := d |} /\
        Store.rows (db g1) = Store.rows (db g) ++ [draft_row e g c] /\
        usedFallbackIndices g1 = usedFallbackIndices g
    | _ =>
        db g1 = db g /\
        exists i,
          fallbackBounties !! i = Some c /\
          i ∈ usedFallbackIndices g1 /\
          ((exists j, j < length fallbackBounties
                      /\ (j ∉ usedFallbackIndices g))
           -> i ∉ usedFallbackIndices g)
    end.
Proof.
  destruct (generateBountyIdea_cases e g)
    as [(gen & c & Hg & Ht & Hd & Heq)|(err & i & c & used & Hb & Hc & Hf & Heq)].
  - exists c. rewrite Heq, Hg. split; [reflexivity|].
    destruct gen as [gt gd]. cbn [g_title g_description] in Ht, Hd.
    subst gt gd. cbn [fst snd db set_db usedFallbackIndices Store.rows].
    destruct c; repeat split; reflexivity.
  - exists c. rewrite Heq. split; [reflexivity|].
    assert (Hthrows : exists err, generate_body e g = Throw err) by eauto.
    apply generate_body_throws in Hthrows.
    assert (Hfb :
      db (set_usedFallbackIndices ({[i]} ∪ used) g) = db g /\
      exists i0,
        fallbackBounties !! i0 = Some c /\
        i0 ∈ usedFallbackIndices (set_usedFallbackIndices ({[i]} ∪ used) g) /\
        ((exists j, j < length fallbackBounties
                    /\ (j ∉ usedFallbackIndices g))
         -> i0 ∉ usedFallbackIndices g)).
    { split; [reflexivity|].
      destruct (fallback_total (random e) (usedFallbackIndices g))
        as (i' & c' & Hc' & [(_ & Hni & Hf')|(Hall & Hf')]);
        rewrite Hf in Hf';
        pose proof (f_equal fst Hf') as Hu; pose proof (f_equal snd Hf') as Hcc;
        cbn [fst snd] in Hu, Hcc; injection Hcc as <-.
      - exists i'. split; [exact Hc'|]. split; [|intros _; exact Hni].
        cbn [usedFallbackIndices set_usedFallbackIndices].
          rewrite Hu. apply elem_of_union_l, elem_of_singleton. reflexivity.
      - exists i'. split; [exact Hc'|]. split.
        + cbn [usedFallbackIndices set_usedFallbackIndices].
          rewrite Hu. apply elem_of_union_l, elem_of_singleton. reflexivity.
        + intros (j & Hj & Hnj). exfalso. apply Hnj, Hall, Hj. }
    cbn [fst snd].
    destruct (generate e _) as [[[t|] [d|]]|]; try exact Hfb.
    cbn [g_title g_description] in Hthrows.
    destruct Hthrows; discriminate.
Qed.

(** *** The table across a creation *)

(** What [generateBountyIdea] does to the table. *)
Lemma generateBountyIdea_appends e g :
  exists new,
    Store.rows (db (generateBountyIdea e g).1) = Store.rows (db g) ++ new /\
    Store.last_id (db (generateBountyIdea e g).1)
    = (Store.last_id (db g) + Z.of_nat (length new))%Z /\
    length new <= 1 /\
    Store.id <$> new
    = (fun k => (Store.last_id (db g) + 1 + Z.of_nat k)%Z)
        <$> seq 0 (length new) /\
    Forall (fun r => Store.contract_bounty_id r = None) new.
Proof.
  destruct (generateBountyIdea_cases e g)
    as [(gen & c & _ & _ & _ & Heq)|(err & i & c & used & _ & _ & _ & Heq)];
    rewrite Heq; cbn [fst db set_db set_usedFallbackIndices Store.rows
                      Store.last_id].
  - exists [draft_row e g c]. cbn [length seq fmap list_fmap Z.of_nat].
    repeat split; [lia | unfold draft_row; cbn [Store.id]; f_equal; lia |].
    repeat constructor.
  - exists []. rewrite app_nil_r. cbn [length seq fmap list_fmap Z.of_nat].
    repeat split; [lia | lia | constructor].
Qed.

(** What [createBounty] does after [generateBountyIdea] has returned: it
    writes one row, with the identifier it returns, on the receipt path and
    nothing otherwise. *)
Lemma createBounty_after_content e g :
  let g1 := (generateBountyIdea e g).1 in
  (createBounty e g).1 = g
  \/ (createBounty e g).1 = g1
  \/ (exists c r created,
        (generateBountyIdea e g).2 = Some c /\
        wait e = Ok r /\
        bountyCreatedEvent r = Some created /\
        (createBounty e g).2 = Ok (toString_int (log_id created)) /\
        (createBounty e g).1
        = set_db {| Store.rows := Store.rows (db g1) ++
                      [ {| Store.id := Store.last_id (db g1) + 1;
                           Store.title := title c;
                           Store.description := description c;
                           Store.contract_bounty_id :=
                             Some (toString_int (log_id created));
                           Store.created_at := now_created e |} ];
                    Store.last_id := Store.last_id (db g1) + 1 |} g1).
Proof.
  cbn zeta. unfold createBounty.
  destruct (session e) as [[]|err]; [|left; reflexivity].
  destruct (generateBountyIdea e g) as [g1 [c|]]; cbn [fst snd];
    [|right; left; reflexivity].
  destruct (createSoloBounty e (title c) (description c)) as [h|err];
    [|right; left; reflexivity].
  destruct (wait e) as [r|err]; [|right; left; reflexivity].
  destruct (bountyCreatedEvent r) as [created|] eqn:Hev.
  - right; right. exists c, r, created. cbn [Store.insert fst snd].
    repeat split; first [reflexivity | exact Hev].
  - right; left.
    destruct (queryFilter e (blockNumber r)) as [events|err];
      [destruct (polled_id r events) as [bountyId|]|]; reflexivity.
Qed.

(** The rows [createBounty] adds, in every outcome, and their row
    identifiers. *)
Lemma createBounty_appends e g :
  exists new,
    Store.rows (db (createBounty e g).1) = Store.rows (db g) ++ new /\
    Store.last_id (db (createBounty e g).1)
    = (Store.last_id (db g) + Z.of_nat (length new))%Z /\
    Store.id <$> new
    = (fun k => (Store.last_id (db g) + 1 + Z.of_nat k)%Z)
        <$> seq 0 (length new).
Proof.
  destruct (generateBountyIdea_appends e g)
    as (new1 & Hrows & Hlast & _ & Hids & _).
  destruct (createBounty_after_content e g)
    as [Hg|[Hg|(c & r & created & _ & _ & _ & _ & Hg)]].
  - exists []. rewrite Hg, app_nil_r. cbn [length seq fmap list_fmap Z.of_nat].
    split; [reflexivity|]. split; [lia | reflexivity].
  - exists new1. rewrite Hg. split; [assumption|]. split; assumption.
  - set (row := {| Store.id := Store.last_id
                       (db (generateBountyIdea e g).1) + 1;
                   Store.title := title c;
                   Store.description := description c;
                   Store.contract_bounty_id :=
                     Some (toString_int (log_id created));
                   Store.created_at := now_created e |}) in Hg.
    exists (new1 ++ [row]). rewrite Hg.
    cbn [db set_db Store.rows Store.last_id].
    rewrite Hrows, Hlast, length_app, <- app_assoc. cbn [length].
    split; [reflexivity|]. split; [lia|].
    rewrite fmap_app, Nat.add_1_r, seq_S, fmap_app, <- Hids.
    cbn [fmap list_fmap Nat.add Store.id row]. rewrite Hlast.
    do 2 f_equal. lia.
Qed.

(** X10.  Whatever its outcome, [createBounty] only appends to the table:
    the rows that were there stay as they were and in place, at most two
    rows are added, they take the next row identifiers in order, and a new
    row carries an on-chain identifier only when the call returns that very
    identifier.  A creation that fails after content was generated leaves
    the draft row behind. *)
Theorem createBounty_only_appends e g :
  exists new,
    Store.rows (db (createBounty e g).1) = Store.rows (db g) ++ new /\
    Store.last_id (db (createBounty e g).1)
    = (Store.last_id (db g) + Z.of_nat (length new))%Z /\
    length new <= 2 /\
    Store.id <$> new
    = (fun k => (Store.last_id (db g) + 1 + Z.of_nat k)%Z)
        <$> seq 0 (length new) /\
    forall r cid,
      r ∈ new -> Store.contract_bounty_id r = Some cid ->
      (createBounty e g).2 = Ok cid.
Proof.
  destruct (generateBountyIdea_appends e g)
    as (new1 & Hrows & Hlast & Hlen & Hids & Hnone).
  destruct (createBounty_after_content e g)
    as [Hg|[Hg|(c & r & created & _ & _ & _ & Hres & Hg)]].
  - exists []. rewrite Hg, app_nil_r. cbn [length seq fmap list_fmap Z.of_nat].
    repeat split; [lia | lia |]. intros r cid Hr. now apply elem_of_nil in Hr.
  - exists new1. rewrite Hg. repeat split; [assumption.. | lia | assumption |].
    intros r cid Hr Hcid. rewrite Forall_forall in Hnone.
    rewrite (Hnone r Hr) in Hcid. discriminate.
  - set (row := {| Store.id := Store.last_id
                       (db (generateBountyIdea e g).1) + 1;
                   Store.title := title c;
                   Store.description := description c;
                   Store.contract_bounty_id :=
                     Some (toString_int (log_id created));
                   Store.created_at := now_created e |}) in Hg.
    exists (new1 ++ [row]). rewrite Hg.
    cbn [db set_db Store.rows Store.last_id].
    rewrite Hrows, Hlast, length_app, <- app_assoc. cbn [length].
    repeat split; [lia | lia | |].
    + rewrite fmap_app, Nat.add_1_r, seq_S, fmap_app, <- Hids.
      cbn [fmap list_fmap Nat.add Store.id row]. rewrite Hlast.
      do 2 f_equal. lia.
    + intros r' cid Hr' Hcid. rewrite Forall_forall in Hnone.
      apply elem_of_app in Hr' as [Hr'|Hr'].
      * rewrite (Hnone r' Hr') in Hcid. discriminate.
      * apply list_elem_of_singleton in Hr' as ->.
        cbn [Store.contract_bounty_id row] in Hcid.
        injection Hcid as <-. exact Hres.
Qed.

(** *** Where a returned identifier comes from *)

Lemma bountyCreatedEvent_some r p :
  bountyCreatedEvent r = Some p ->
  Ok (Some p) ∈ logs r /\ log_name p = "BountyCreated".
Proof.
  unfold bountyCreatedEvent. intros H. apply List.find_some in H as [Hin Hn].
  apply String.eqb_eq in Hn. split; [|exact Hn].
  apply list_elem_of_In, list_elem_of_omap in Hin as (l & Hl & Hp).
  destruct l as [[q|]|]; try discriminate. injection Hp as ->. exact Hl.
Qed.

Lemma bountyCreatedEvent_none r p :
  bountyCreatedEvent r = None ->
  Ok (Some p) ∈ logs r -> log_name p <> "BountyCreated".
Proof.
  unfold bountyCreatedEvent. intros H Hin Hn.
  assert (Hp : List.In p (omap (fun l => match l with
                                        | Ok (Some p) => Some p
                                        | _ => None
                                        end) (logs r))).
  { apply list_elem_of_In, list_elem_of_omap.
    exists (Ok (Some p)). split; [exact Hin | reflexivity]. }
  apply (List.find_none _ _ H) in Hp. apply String.eqb_neq in Hp.
  contradiction.
Qed.

Lemma polled_id_some r events bountyId :
  polled_id r events = Some bountyId ->
  exists ev, ev ∈ events /\ ev_transactionHash ev = transactionHash r /\
             bountyId = toString_int (ev_id ev).
Proof.
  unfold polled_id. intros H.
  destruct (List.find _ events) as [ev|] eqn:Hf; [|discriminate].
  injection H as <-. apply List.find_some in Hf as [Hin Hh].
  apply String.eqb_eq in Hh. apply list_elem_of_In in Hin. eauto.
Qed.

(** The two ways [createBounty] returns. *)
Lemma createBounty_ok e g bountyId :
  (createBounty e g).2 = Ok bountyId ->
  exists r,
    wait e = Ok r /\
    ((exists p, bountyCreatedEvent r = Some p
                /\ bountyId = toString_int (log_id p))
     \/ (bountyCreatedEvent r = None /\
         exists events,
           queryFilter e (blockNumber r) = Ok events /\
           polled_id r events = Some bountyId)).
Proof.
  unfold createBounty.
  destruct (session e) as [[]|err]; [|discriminate].
  destruct (generateBountyIdea e g) as [g1 [c|]]; [|discriminate].
  destruct (createSoloBounty e (title c) (description c)); [|discriminate].
  destruct (wait e) as [r|]; [|discriminate].
  destruct (bountyCreatedEvent r) as [p|] eqn:Hev.
  - cbn [Store.insert snd]. intros [= <-]. exists r. split; [reflexivity|].
    left. exists p. split; [exact Hev | reflexivity].
  - destruct (queryFilter e (blockNumber r)) as [events|] eqn:Hq;
      [|discriminate].
    destruct (polled_id r events) as [i|] eqn:Hp; [|discriminate].
    cbn [snd]. intros [= <-]. exists r. split; [reflexivity|].
    right. split; [exact Hev|]. exists events. split; [exact Hq | exact Hp].
Qed.

Lemma createBounty_ok_nonempty e g bountyId :
  (createBounty e g).2 = Ok bountyId -> bountyId <> "".
Proof.
  intros H. apply createBounty_ok in H as (r & _ & [(p & _ & ->)|(_ & ev & _ & H)]).
  - apply BackfillFacts.toString_int_nonempty.
  - apply polled_id_some in H as (x & _ & _ & ->).
    apply BackfillFacts.toString_int_nonempty.
Qed.

(** X11.  An identifier that [createBounty] returns is never made up: the
    transaction was confirmed, and the identifier is the decimal writing of
    the [id] of a [BountyCreated] log of its receipt, or, when the receipt
    has no log that parses to that name, of the [id] of an event polled from
    the receipt's block that carries the receipt's transaction hash.  It is
    never the empty string. *)
Theorem returned_identifier_provenance e g bountyId :
  (createBounty e g).2 = Ok bountyId ->
  bountyId <> "" /\
  exists r,
    wait e = Ok r /\
    ((exists p, Ok (Some p) ∈ logs r /\ log_name p = "BountyCreated"
                /\ bountyId = toString_int (log_id p))
     \/ ((forall p, Ok (Some p) ∈ logs r -> log_name p <> "BountyCreated") /\
         exists events ev,
           queryFilter e (blockNumber r) = Ok events /\
           ev ∈ events /\
           ev_transactionHash ev = transactionHash r /\
           bountyId = toString_int (ev_id ev))).
Proof.
  intros H. split; [exact (createBounty_ok_nonempty e g bountyId H)|].
  apply createBounty_ok in H as (r & Hw & [(p & Hev & ->)|(Hev & events & Hq & Hp)]).
  - exists r. split; [exact Hw|]. left. exists p.
    apply bountyCreatedEvent_some in Hev as [Hin Hn]. auto.
  - exists r. split; [exact Hw|]. right. split.
    + intros p. now apply bountyCreatedEvent_none.
    + apply polled_id_some in Hp as (ev & Hin & Hh & ->).
      exists events, ev. auto.
Qed.

Lemma returned_identifier_provenance_witness :
  "42" <> "" /\
  exists r,
    wait (creation (Ok generated_content) (Ok receipt_without_event)
            polled_events) = Ok r /\
    ((exists p, Ok (Some p) ∈ logs r /\ log_name p = "BountyCreated"
                /\ "42" = toString_int (log_id p))
     \/ ((forall p, Ok (Some p) ∈ logs r -> log_name p <> "BountyCreated") /\
         exists events ev,
           queryFilter (creation (Ok generated_content)
                          (Ok receipt_without_event) polled_events)
                       (blockNumber r) = Ok events /\
           ev ∈ events /\
           ev_transactionHash ev = transactionHash r /\
           "42" = toString_int (ev_id ev))).
Proof.
  apply (returned_identifier_provenance
           (creation (Ok generated_content) (Ok receipt_without_event)
              polled_events) fresh "42").
  reflexivity.
Defined.

(** X12.  [GET /create-bounty] answers success, with the identifier and the
    page address built from it, whenever [createBounty] returns, and status
    500 with the message of the error (or the default text when the message
    is empty) whenever it throws; the handler's own check for a missing
    identifier never fires.  The handler and the daily job leave the same
    state behind. *)
Theorem create_bounty_endpoint_answers e g :
  (create_bounty_endpoint e g).1 = (createBounty e g).1 /\
  (daily e g).1 = (createBounty e g).1 /\
  match (createBounty e g).2 with
  | Ok bountyId =>
      (create_bounty_endpoint e g).2
      = Created bountyId ("https://poidh.xyz/degen/bounty/" ++ bountyId)%string
      /\ (daily e g).2 = Ok ()
  | Throw err =>
      (create_bounty_endpoint e g).2
      = Failed500 (if String.eqb (message err) ""
                   then "Failed to create bounty" else message err)
      /\ (daily e g).2 = Throw err
  end.
Proof.
  pose proof (createBounty_ok_nonempty e g) as Hne.
  unfold create_bounty_endpoint, daily.
  destruct (createBounty e g) as [g1 [bountyId|err]]; cbn [fst snd] in *;
    repeat split.
  destruct (String.eqb_spec bountyId "") as [->|_]; [|reflexivity].
  now destruct (Hne "" eq_refl).
Qed.

End IssuanceMore.

(** ** The listener and the issuance side by side *)

Module SharedState.

Local Open Scope list_scope.

Lemma globals_eta g :
  {| provider := provider g; contract := contract g;
     lastProcessedBlock := lastProcessedBlock g;
     usedFallbackIndices := usedFallbackIndices g; db := db g |} = g.
Proof. now destruct g. Qed.

(** [initializeContract] reads the provider count and writes the provider
    and the contract. *)
Lemma initializeContract_frame c probe p k h u s u' s' :
  let o := Listener.initializeContract c probe
             {| provider := p; contract := k; lastProcessedBlock := h;
                usedFallbackIndices := u; db := s |} in
  Listener.initializeContract c probe
    {| provider := p; contract := k; lastProcessedBlock := h;
       usedFallbackIndices := u'; db := s' |}
  = ({| provider := provider o.1.1; contract := contract o.1.1;
        lastProcessedBlock := lastProcessedBlock o.1.1;
        usedFallbackIndices := u'; db := s' |}, o.1.2, o.2)
  /\ usedFallbackIndices o.1.1 = u /\ db o.1.1 = s.
Proof.
  cbn zeta. unfold Listener.initializeContract.
  destruct (Listener.privateKey c) as [[|a key]|]; [split; [|split]; reflexivity| |
    split; [|split]; reflexivity].
  destruct probe; [|split; [|split]; reflexivity].
  destruct (Listener.wallet_address c _); [|split; [|split]; reflexivity].
  destruct (Listener.abi_loaded c); split; try split; reflexivity.
Qed.

Lemma on_poll_error_frame e p k h u s u' s' done err :
  let o := Listener.on_poll_error e
             {| provider := p; contract := k; lastProcessedBlock := h;
                usedFallbackIndices := u; db := s |} done err in
  Listener.on_poll_error e
    {| provider := p; contract := k; lastProcessedBlock := h;
       usedFallbackIndices := u'; db := s' |} done err
  = ({| provider := provider o.1.1; contract := contract o.1.1;
        lastProcessedBlock := lastProcessedBlock o.1.1;
        usedFallbackIndices := u'; db := s' |}, o.1.2, o.2)
  /\ usedFallbackIndices o.1.1 = u /\ db o.1.1 = s.
Proof.
  cbn zeta. unfold Listener.on_poll_error.
  destruct (match code err with
            | Some c => _
            | None => false
            end); [|split; [|split]; reflexivity].
  destruct (initializeContract_frame (Listener.cfg e)
              (Listener.reconnect_probe e) p k h u s u' s') as (H1 & H2 & H3).
  rewrite H1. clear H1.
  destruct (Listener.initializeContract (Listener.cfg e)
              (Listener.reconnect_probe e)
              {| provider := p; contract := k; lastProcessedBlock := h;
                 usedFallbackIndices := u; db := s |}) as [[g1 t] r].
  cbn [fst snd] in *. split; [|split]; [reflexivity | assumption..].
Qed.

(** A tick reads the cursor (and, to reconnect, the provider count) and
    writes the provider, the contract and the cursor: the used-set and the
    table pass through it. *)
Lemma tick_frame v e p k h u s u' s' :
  let o := Listener.tick v e
             {| provider := p; contract := k; lastProcessedBlock := h;
                usedFallbackIndices := u; db := s |} in
  Listener.tick v e
    {| provider := p; contract := k; lastProcessedBlock := h;
       usedFallbackIndices := u'; db := s' |}
  = ({| provider := provider o.1.1; contract := contract o.1.1;
        lastProcessedBlock := lastProcessedBlock o.1.1;
        usedFallbackIndices := u'; db := s' |}, o.1.2, o.2)
  /\ usedFallbackIndices o.1.1 = u /\ db o.1.1 = s.
Proof.
  cbn zeta. unfold Listener.tick. cbn [lastProcessedBlock].
  destruct (Listener.tick_begin e h) as [|done err|latest events].
  - split; [|split]; reflexivity.
  - apply on_poll_error_frame.
  - unfold Listener.tick_finish.
    destruct (Listener.for_events v e events) as [t [[]|err]].
    + split; [|split]; reflexivity.
    + apply on_poll_error_frame.
Qed.

(** [generateBountyIdea] reads and writes the table and the used-set only. *)
Lemma generateBountyIdea_frame e p k h u s p' k' h' :
  let o := Issuance.generateBountyIdea e
             {| provider := p; contract := k; lastProcessedBlock := h;
                usedFallbackIndices := u; db := s |} in
  Issuance.generateBountyIdea e
    {| provider := p'; contract := k'; lastProcessedBlock := h';
       usedFallbackIndices := u; db := s |}
  = ({| provider := p'; contract := k'; lastProcessedBlock := h';
        usedFallbackIndices := usedFallbackIndices o.1; db := db o.1 |}, o.2).
Proof.
  cbn zeta. unfold Issuance.generateBountyIdea, Issuance.generate_body.
  cbn [db usedFallbackIndices].
  destruct (Issuance.generate e _) as [gen|]; cbn [mbind result_bind].
  - destruct (Store.insert _ _ _ _ s) as [s1|]; cbn [mbind result_bind].
    + destruct (Issuance.g_title gen), (Issuance.g_description gen);
        try reflexivity;
        now destruct (Issuance.fallback (Issuance.random e) u).
    + now destruct (Issuance.fallback (Issuance.random e) u).
  - now destruct (Issuance.fallback (Issuance.random e) u).
Qed.

(** [createBounty] reads and writes the table and the used-set only; the
    provider and the contract it uses are its own. *)
Lemma createBounty_frame e p k h u s p' k' h' :
  let o := Issuance.createBounty e
             {| provider := p; contract := k; lastProcessedBlock := h;
                usedFallbackIndices := u; db := s |} in
  Issuance.createBounty e
    {| provider := p'; contract := k'; lastProcessedBlock := h';
       usedFallbackIndices := u; db := s |}
  = ({| provider := p'; contract := k'; lastProcessedBlock := h';
        usedFallbackIndices := usedFallbackIndices o.1; db := db o.1 |}, o.2).
Proof.
  cbn zeta. unfold Issuance.createBounty.
  destruct (Issuance.session e) as [[]|]; [|reflexivity].
  rewrite (generateBountyIdea_frame e p k h u s p' k' h').
  destruct (Issuance.generateBountyIdea e _) as [g1 [c|]]; cbn [fst snd];
    [|reflexivity].
  destruct (Issuance.createSoloBounty e _ _); [|reflexivity].
  destruct (Issuance.wait e) as [r|]; [|reflexivity].
  destruct (Issuance.bountyCreatedEvent r).
  - cbn [Store.insert db]. reflexivity.
  - destruct (Issuance.queryFilter e _) as [events|]; [|reflexivity].
    now destruct (Issuance.polled_id r events).
Qed.

(** X13.  A poll tick and a bounty creation do not interfere.  The tick
    leaves the table and the fallback used-set as they are, the creation
    leaves the listener's provider, contract and cursor as they are, and
    neither reads what the other writes: with the same answers from
    outside, running the two in either order ends in the same state, with
    the same trace and result of the tick and the same result of the
    creation. *)
Theorem tick_and_creation_commute v le ie g :
  let a := Listener.tick v le g in
  let b := Issuance.createBounty ie a.1.1 in
  let b' := Issuance.createBounty ie g in
  let a' := Listener.tick v le b'.1 in
  (db a.1.1 = db g /\ usedFallbackIndices a.1.1 = usedFallbackIndices g) /\
  (provider b'.1 = provider g /\ contract b'.1 = contract g /\
   lastProcessedBlock b'.1 = lastProcessedBlock g) /\
  b.1 = a'.1.1 /\ a.1.2 = a'.1.2 /\ a.2 = a'.2 /\ b.2 = b'.2.
Proof.
  destruct g as [p k h u s]. cbn zeta.
  set (g := {| provider := p; contract := k; lastProcessedBlock := h;
               usedFallbackIndices := u; db := s |}).
  destruct (tick_frame v le p k h u s u s) as (_ & Hu & Hs). fold g in Hu, Hs.
  pose proof (createBounty_frame ie p k h u s
                (provider (Listener.tick v le g).1.1)
                (contract (Listener.tick v le g).1.1)
                (lastProcessedBlock (Listener.tick v le g).1.1)) as Hc.
  cbn zeta in Hc. fold g in Hc.
  rewrite <- Hu, <- Hs, globals_eta in Hc at 1.
  pose proof (createBounty_frame ie p k h u s p k h) as Hid.
  cbn zeta in Hid. fold g in Hid.
  pose proof (tick_frame v le p k h u s
                (usedFallbackIndices (Issuance.createBounty ie g).1)
                (db (Issuance.createBounty ie g).1)) as (Ht & _ & _).
  fold g in Ht.
  assert (Hb : (Issuance.createBounty ie g).1
               = {| provider := p; contract := k; lastProcessedBlock := h;
                    usedFallbackIndices :=
                      usedFallbackIndices (Issuance.createBounty ie g).1;
                    db := db (Issuance.createBounty ie g).1 |}).
  { rewrite Hid at 1. reflexivity. }
  rewrite <- Hb in Ht.
  split; [split; assumption|].
  split; [rewrite Hb; cbn [provider contract lastProcessedBlock];
          repeat split; reflexivity|].
  rewrite Hc, Ht. cbn [fst snd]. repeat split; reflexivity.
Qed.

End SharedState.

(** ** The table and the backfill *)

Module BackfillMore.

Import Backfill Views.
Local Open Scope list_scope.

(** *** Ordering by creation time *)

Lemma insert_desc_perm r sorted : Store.insert_desc r sorted ≡ₚ r :: sorted.
Proof.
  induction sorted as [|x rest IH]; [reflexivity|].
  cbn [Store.insert_desc].
  destruct (Store.created_at x <=? Store.created_at r)%Z; [reflexivity|].
  rewrite IH. apply Permutation_swap.
Qed.

Lemma order_perm l : Store.order_by_created_at_desc l ≡ₚ l.
Proof.
  unfold Store.order_by_created_at_desc.
  induction l as [|r rest IH]; [reflexivity|].
  cbn [fold_right]. now rewrite insert_desc_perm, IH.
Qed.

Lemma latest_in s r : Store.latest s = Some r -> r ∈ Store.rows s.
Proof.
  unfold Store.latest. intros H.
  rewrite <- (order_perm (Store.rows s)).
  destruct (Store.order_by_created_at_desc (Store.rows s)); [discriminate|].
  injection H as ->. left.
Qed.

Lemma latest_none s : Store.latest s = None <-> Store.rows s = [].
Proof.
  unfold Store.latest. split.
  - intros H. apply Permutation_nil_r. rewrite <- order_perm.
    now destruct (Store.order_by_created_at_desc (Store.rows s)).
  - now intros ->.
Qed.

(** A row newer than every row before it is the first in the order. *)
Lemma order_snoc_newest l r :
  Forall (fun x => (Store.created_at x < Store.created_at r)%Z) l ->
  Store.order_by_created_at_desc (l ++ [r])
  = r :: Store.order_by_created_at_desc l.
Proof.
  unfold Store.order_by_created_at_desc. intros H.
  rewrite fold_right_app. cbn [fold_right Store.insert_desc].
  induction H as [|x rest Hx _ IH]; [reflexivity|].
  cbn [fold_right]. rewrite IH. cbn [Store.insert_desc].
  destruct (Z.leb_spec (Store.created_at r) (Store.created_at x));
    [lia | reflexivity].
Qed.

(** *** A scan that finds nothing *)

Lemma scan_none e title description n :
  (scan e title description n).2 = None <->
  forall k b, k < n -> bounties e (Z.of_nat k) = Ok b ->
              matches title description b = false.
Proof.
  induction n as [|i IH]; [split; [intros _ k b Hk; lia | reflexivity]|].
  cbn [scan].
  destruct (bounties e (Z.of_nat i)) as [bi|err] eqn:Hbi;
    [destruct (matches title description bi) eqn:Hmi|]; cbn [snd].
  - split; [discriminate|]. intros H.
    specialize (H i bi (Nat.lt_succ_diag_r i) Hbi). congruence.
  - rewrite IH. split; intros H k b Hk Hb.
    + destruct (decide (k = i)) as [->|]; [congruence|].
      apply (H k b); [lia | exact Hb].
    + apply (H k b); [lia | exact Hb].
  - rewrite IH. split; intros H k b Hk Hb.
    + destruct (decide (k = i)) as [->|]; [congruence|].
      apply (H k b); [lia | exact Hb].
    + apply (H k b); [lia | exact Hb].
Qed.

Lemma scan_none_visits_all e title description n :
  (scan e title description n).2 = None ->
  (scan e title description n).1 = down_from (Z.of_nat n) n.
Proof.
  induction n as [|i IH]; [reflexivity|].
  cbn [scan]. rewrite BackfillFacts.down_from_S.
  destruct (bounties e (Z.of_nat i)) as [bi|err];
    [destruct (matches title description bi)|]; cbn [fst snd];
    first [discriminate | intros H; now rewrite (IH H)].
Qed.

(** X14.  [findContractBountyId] returns [null] exactly when the connection
    cannot be built, the counter cannot be read, or no index below the
    counter holds a readable bounty with the title and the description
    sought.  In the last case it has looked up every index from the counter
    down to zero.  [GET /current-bounty] then leaves the table as it is and
    shows the row with the identifier it had. *)
Theorem backfill_gives_up e title description :
  ((findContractBountyId e title description).2 = None <->
   match session e, bountyCounter e with
   | Ok _, Ok total =>
       forall k b, (0 <= k < total)%Z -> bounties e k = Ok b ->
                   matches title description b = false
   | _, _ => True
   end) /\
  (forall total,
     session e = Ok () -> bountyCounter e = Ok total ->
     (findContractBountyId e title description).2 = None ->
     (findContractBountyId e title description).1
     = down_from total (Z.to_nat total)) /\
  (forall g r,
     (findContractBountyId e title description).2 = None ->
     Store.latest (db g) = Some r ->
     Store.title r = title -> Store.description r = description ->
     current_bounty e g = (g, Some (r, Store.contract_bounty_id r))).
Proof.
  split; [|split].
  - unfold findContractBountyId.
    destruct (session e) as [[]|]; [|split; reflexivity].
    destruct (bountyCounter e) as [total|]; [|split; reflexivity].
    rewrite scan_none. split; intros H k b Hk Hb.
    + apply (H (Z.to_nat k) b); [lia|]. now rewrite Z2Nat.id by lia.
    + apply (H (Z.of_nat k) b); [lia | exact Hb].
  - intros total Hs Hc. unfold findContractBountyId. rewrite Hs, Hc.
    intros H. rewrite (scan_none_visits_all _ _ _ _ H).
    destruct (Z.le_gt_cases 0 total).
    + now rewrite Z2Nat.id.
    + now replace (Z.to_nat total) with 0 by lia.
  - intros g r Hnone Hl <- <-. unfold current_bounty. rewrite Hl, Hnone.
    now destruct (falsy (Store.contract_bounty_id r)).
Qed.

(** *** What [GET /current-bounty] writes *)

Lemma content_of_update cid rid l :
  content_of <$> Store.rows (Store.set_contract_bounty_id cid rid
                               {| Store.rows := l; Store.last_id := 0 |})
  = content_of <$> l.
Proof.
  cbn [Store.set_contract_bounty_id Store.rows].
  induction l as [|r rest IH]; [reflexivity|].
  cbn [map fmap list_fmap] in *. rewrite IH. f_equal.
  now destruct (Store.id r =? rid)%Z.
Qed.

(** The three ways the handler can go, up to the backfill. *)
Lemma current_bounty_cases e g :
  (Store.latest (db g) = None /\ current_bounty e g = (g, None))
  \/ (exists r, Store.latest (db g) = Some r /\
                current_bounty e g = (g, Some (r, Store.contract_bounty_id r)))
  \/ (exists r cid,
        Store.latest (db g) = Some r /\
        falsy (Store.contract_bounty_id r) = true /\
        (findContractBountyId e (Store.title r) (Store.description r)).2
        = Some cid /\
        cid <> "" /\
        current_bounty e g
        = (set_db (Store.set_contract_bounty_id cid (Store.id r) (db g)) g,
           Some (r, Some cid))).
Proof.
  unfold current_bounty.
  destruct (Store.latest (db g)) as [r|]; [|left; split; reflexivity].
  destruct (falsy (Store.contract_bounty_id r)) eqn:Hf;
    [|right; left; exists r; split; reflexivity].
  destruct (findContractBountyId e _ _).2 as [cid|] eqn:Hfind;
    [|right; left; exists r; split; reflexivity].
  destruct (String.eqb_spec cid "") as [->|Hne];
    [right; left; exists r; split; reflexivity|].
  right; right. exists r, cid. repeat split; assumption.
Qed.

Lemma latest_after_update cid rid s r :
  Store.latest s = Some r ->
  Store.latest (Store.set_contract_bounty_id cid rid s)
  = Some (if (Store.id r =? rid)%Z
          then {| Store.id := Store.id r;
                  Store.title := Store.title r;
                  Store.description := Store.description r;
                  Store.contract_bounty_id := Some cid;
                  Store.created_at := Store.created_at r |}
          else r).
Proof.
  unfold Store.latest. destruct s as [rows last]. cbn [Store.rows].
  pose proof (BackfillFacts.order_after_update cid rid rows) as Hord.
  cbn [Store.set_contract_bounty_id Store.rows] in Hord |- *.
  rewrite Hord.
  destruct (Store.order_by_created_at_desc rows) as [|top rest];
    [discriminate|].
  intros [= ->]. reflexivity.
Qed.

(** X15.  [GET /current-bounty] answers 404 exactly when the table is
    empty.  Otherwise the bounty it shows is the newest row as it was before
    the request, and the identifier it shows is the one the newest row has
    in the table after the request: what the handler found on the chain and
    what it reports are the same thing, also on the request that finds
    it. *)
Theorem current_bounty_reports_stored_identifier e g :
  ((current_bounty e g).2 = None <-> Store.rows (db g) = []) /\
  forall r bountyId,
    (current_bounty e g).2 = Some (r, bountyId) ->
    Store.latest (db g) = Some r /\
    exists r',
      Store.latest (db (current_bounty e g).1) = Some r' /\
      content_of r' = content_of r /\
      Store.contract_bounty_id r' = bountyId.
Proof.
  destruct (current_bounty_cases e g)
    as [[Hl Hc]|[(r & Hl & Hc)|(r & cid & Hl & _ & _ & _ & Hc)]];
    rewrite Hc; cbn [fst snd].
  - split; [split; [intros _; now apply latest_none | reflexivity]|].
    discriminate.
  - split.
    + split; [discriminate|]. intros H. apply latest_none in H. congruence.
    + intros r0 b [= <- <-]. split; [exact Hl|]. exists r. auto.
  - split.
    + split; [discriminate|]. intros H. apply latest_none in H. congruence.
    + intros r0 b [= <- <-]. split; [exact Hl|].
      cbn [db set_db].
      rewrite (latest_after_update cid (Store.id r) (db g) r Hl), Z.eqb_refl.
      eexists. split; [reflexivity|]. split; reflexivity.
Qed.

(** X16.  With row identifiers pairwise distinct, [GET /current-bounty]
    changes at most one cell of the table: the contract identifier of the
    newest row, and only when that row had none, to a non-empty one.  Every
    other row, the number and the order of the rows, and the row counter
    stay as they were; so do the listener's state and the fallback
    used-set.  An identifier once recorded is never overwritten. *)
Theorem current_bounty_footprint e g :
  NoDup (Store.id <$> Store.rows (db g)) ->
  let g' := (current_bounty e g).1 in
  (provider g' = provider g /\ contract g' = contract g /\
   lastProcessedBlock g' = lastProcessedBlock g /\
   usedFallbackIndices g' = usedFallbackIndices g) /\
  Store.last_id (db g') = Store.last_id (db g) /\
  content_of <$> Store.rows (db g') = content_of <$> Store.rows (db g) /\
  forall i r,
    Store.rows (db g) !! i = Some r ->
    Store.rows (db g') !! i = Some r
    \/ (Store.latest (db g) = Some r /\
        falsy (Store.contract_bounty_id r) = true /\
        exists cid r',
          cid <> "" /\
          Store.rows (db g') !! i = Some r' /\
          Store.contract_bounty_id r' = Some cid /\
          content_of r' = content_of r).
Proof.
  intros Hnd. cbn zeta.
  destruct (current_bounty_cases e g)
    as [[_ Hc]|[(r & _ & Hc)|(r & cid & Hl & Hf & _ & Hne & Hc)]];
    rewrite Hc; cbn [fst];
    try (repeat split; try reflexivity; intros i r0 Hi; left; exact Hi).
  destruct (db g) as [rows last] eqn:Hdb.
  cbn [db set_db provider contract lastProcessedBlock usedFallbackIndices
       Store.last_id].
  split; [repeat split; reflexivity|]. split; [reflexivity|].
  split; [apply content_of_update|].
  cbn [Store.set_contract_bounty_id Store.rows] in *.
  intros i r0 Hi. change (map ?f rows) with (f <$> rows).
  rewrite list_lookup_fmap, Hi. cbn [fmap option_fmap option_map].
  destruct (Z.eqb_spec (Store.id r0) (Store.id r)) as [Heq|_]; [|left; reflexivity].
  right.
  assert (Hr : r0 = r).
  { assert (Hin : r ∈ rows).
    { replace rows with (Store.rows {| Store.rows := rows;
                                       Store.last_id := last |})
        by reflexivity.
      apply latest_in. exact Hl. }
    apply list_elem_of_lookup_1 in Hin as [j Hj].
    assert (Hij : i = j).
    { apply (NoDup_lookup _ i j (Store.id r0) Hnd);
        rewrite list_lookup_fmap; [rewrite Hi | rewrite Hj, Heq];
        reflexivity. }
    subst j. congruence. }
  subst r0. split; [exact Hl|]. split; [exact Hf|].
  eexists cid, _. split; [exact Hne|]. split; [reflexivity|].
  split; reflexivity.
Qed.

Lemma current_bounty_footprint_witness :
  let g' := (current_bounty ledger with_draft).1 in
  (provider g' = provider with_draft /\ contract g' = contract with_draft /\
   lastProcessedBlock g' = lastProcessedBlock with_draft /\
   usedFallbackIndices g' = usedFallbackIndices with_draft) /\
  Store.last_id (db g') = Store.last_id (db with_draft) /\
  content_of <$> Store.rows (db g')
  = content_of <$> Store.rows (db with_draft) /\
  forall i r,
    Store.rows (db with_draft) !! i = Some r ->
    Store.rows (db g') !! i = Some r
    \/ (Store.latest (db with_draft) = Some r /\
        falsy (Store.contract_bounty_id r) = true /\
        exists cid r',
          cid <> "" /\
          Store.rows (db g') !! i = Some r' /\
          Store.contract_bounty_id r' = Some cid /\
          content_of r' = content_of r).
Proof.
  apply (current_bounty_footprint ledger with_draft).
  cbn [with_draft db Store.rows fmap list_fmap Store.id draft].
  apply NoDup_singleton.
Defined.

(** *** Row identifiers *)

Lemma well_formed_append s new :
  well_formed s ->
  Store.id <$> new
  = (fun k => (Store.last_id s + 1 + Z.of_nat k)%Z) <$> seq 0 (length new) ->
  well_formed {| Store.rows := Store.rows s ++ new;
                 Store.last_id := Store.last_id s + Z.of_nat (length new) |}.
Proof.
  intros (Hnd & Hpos & Hrange) Hids. unfold well_formed.
  cbn [Store.rows Store.last_id]. rewrite Forall_forall in Hrange.
  assert (Hnew : forall r, r ∈ new ->
            (Store.last_id s < Store.id r
             <= Store.last_id s + Z.of_nat (length new))%Z).
  { intros r Hr.
    assert (Hid : Store.id r ∈ Store.id <$> new)
      by (apply list_elem_of_fmap; eauto).
    rewrite Hids in Hid. apply list_elem_of_fmap in Hid as (k & -> & Hk).
    apply elem_of_seq in Hk. lia. }
  split.
  - rewrite fmap_app. apply NoDup_app. split; [exact Hnd|]. split.
    + intros x Hx Hx'.
      apply list_elem_of_fmap in Hx as (r & -> & Hr).
      apply list_elem_of_fmap in Hx' as (r' & Heq & Hr').
      specialize (Hrange r Hr). specialize (Hnew r' Hr'). lia.
    + rewrite Hids. apply NoDup_fmap_2; [|apply NoDup_seq].
      intros a b Hab. cbv beta in Hab. lia.
  - split; [lia|]. rewrite Forall_forall. intros r Hr.
    apply elem_of_app in Hr as [Hr|Hr].
    + specialize (Hrange r Hr). lia.
    + specialize (Hnew r Hr). lia.
Qed.

Lemma ids_of_update cid rid s :
  Store.id <$> Store.rows (Store.set_contract_bounty_id cid rid s)
  = Store.id <$> Store.rows s.
Proof.
  destruct s as [l last]. cbn [Store.set_contract_bounty_id Store.rows].
  induction l as [|r rest IH]; [reflexivity|].
  cbn [map fmap list_fmap] in *. rewrite IH. f_equal.
  now destruct (Store.id r =? rid)%Z.
Qed.

Lemma well_formed_update cid rid s :
  well_formed s -> well_formed (Store.set_contract_bounty_id cid rid s).
Proof.
  intros (Hnd & Hpos & Hrange). unfold well_formed.
  pose proof (ids_of_update cid rid s) as Hids.
  split; [now rewrite Hids|]. split; [exact Hpos|].
  cbn [Store.set_contract_bounty_id Store.rows Store.last_id].
  rewrite Forall_forall in *. intros r Hr.
  change (map ?f ?l) with (f <$> l) in Hr.
  apply list_elem_of_fmap in Hr as (r0 & -> & Hr0).
  specialize (Hrange r0 Hr0).
  now destruct (Store.id r0 =? rid)%Z.
Qed.

(** X17.  The row identifiers of the table stay pairwise distinct,
    positive and at most the row counter across every creation, whatever
    its outcome, and across every request for the current bounty; the empty
    table of a first start is such a table.  So the update of the backfill,
    which selects by row identifier, always addresses one row. *)
Theorem row_identifiers_stay_distinct ie be g :
  well_formed (db g) ->
  well_formed Store.empty /\
  well_formed (db (Issuance.createBounty ie g).1) /\
  well_formed (db (current_bounty be g).1).
Proof.
  intros Hwf. split; [repeat split; [constructor | reflexivity | constructor]|].
  split.
  - destruct (IssuanceMore.createBounty_appends ie g)
      as (new & Hrows & Hlast & Hids).
    pose proof (well_formed_append (db g) new Hwf Hids) as H.
    rewrite <- Hrows, <- Hlast in H.
    now destruct (db (Issuance.createBounty ie g).1).
  - destruct (current_bounty_cases be g)
      as [[_ Hc]|[(r & _ & Hc)|(r & cid & _ & _ & _ & _ & Hc)]];
      rewrite Hc; cbn [fst db set_db]; [assumption..|].
    now apply well_formed_update.
Qed.

Lemma row_identifiers_stay_distinct_witness :
  well_formed Store.empty /\
  well_formed (db (Issuance.createBounty
                     (Issuance.creation (Ok Issuance.generated_content)
                        (Ok Issuance.receipt_with_event) [])
                     with_draft).1) /\
  well_formed (db (current_bounty ledger with_draft).1).
Proof.
  apply (row_identifiers_stay_distinct
           (Issuance.creation (Ok Issuance.generated_content)
              (Ok Issuance.receipt_with_event) [])
           ledger with_draft).
  split; [|split].
  - cbn [with_draft db Store.rows fmap list_fmap Store.id draft].
    apply NoDup_singleton.
  - cbn [with_draft db Store.last_id]. lia.
  - cbn [with_draft db Store.rows Store.last_id].
    repeat constructor; cbn [Store.id draft]; lia.
Defined.

(** *** A creation followed by a request for the current bounty *)

(** Generated content with a title and a description is what
    [generateBountyIdea] returns, after the insert of its draft. *)
Lemma generateBountyIdea_generated ie g gen c :
  Issuance.generate ie
    (String.concat Admission.nl (Store.recent_titles (db g))) = Ok gen ->
  Issuance.g_title gen = Some (Issuance.title c) ->
  Issuance.g_description gen = Some (Issuance.description c) ->
  Issuance.generateBountyIdea ie g
  = (set_db {| Store.rows := Store.rows (db g) ++ [draft_row ie g c];
               Store.last_id := Store.last_id (db g) + 1 |} g, Some c).
Proof.
  intros Hg Ht Hd.
  unfold Issuance.generateBountyIdea, Issuance.generate_body.
  rewrite Hg. cbn [mbind result_bind]. unfold Store.insert.
  rewrite Ht, Hd. cbn [mbind result_bind]. now destruct c.
Qed.

(** An update addressed to a row identifier above the counter of a
    well-formed table changes none of its rows. *)
Lemma update_above_counter cid rid s :
  well_formed s -> (Store.last_id s < rid)%Z ->
  map (fun r => if (Store.id r =? rid)%Z
                then {| Store.id := Store.id r;
                        Store.title := Store.title r;
                        Store.description := Store.description r;
                        Store.contract_bounty_id := Some cid;
                        Store.created_at := Store.created_at r |}
                else r) (Store.rows s)
  = Store.rows s.
Proof.
  intros (_ & _ & Hrange) Hlt.
  induction Hrange as [|r rest Hr _ IH]; [reflexivity|].
  cbn [map]. rewrite IH.
  destruct (Z.eqb_spec (Store.id r) rid); [lia | reflexivity].
Qed.

(** X18.  A creation whose content was generated and whose identifier was
    found by polling the block leaves a draft row without identifier (the
    returned identifier is not stored).  If that draft is newer than the
    other rows, the next request for the current bounty repairs it: given a
    ledger that holds a bounty with the draft's title and description, the
    request shows the draft with the greatest such index as identifier and
    writes that index into the draft's row, changing no other row.  The
    index is found by text and need not be the identifier the creation
    returned. *)
Theorem polled_draft_is_backfilled ie be g gen c r bountyId total j b :
  well_formed (db g) ->
  Forall (fun x => (Store.created_at x < Issuance.now_draft ie)%Z)
         (Store.rows (db g)) ->
  Issuance.generate ie
    (String.concat Admission.nl (Store.recent_titles (db g))) = Ok gen ->
  Issuance.g_title gen = Some (Issuance.title c) ->
  Issuance.g_description gen = Some (Issuance.description c) ->
  Issuance.wait ie = Ok r ->
  Issuance.bountyCreatedEvent r = None ->
  (Issuance.createBounty ie g).2 = Ok bountyId ->
  session be = Ok () ->
  bountyCounter be = Ok total ->
  (0 <= j < total)%Z ->
  bounties be j = Ok b ->
  Listener.bounty_name b = Issuance.title c ->
  Listener.bounty_description b = Issuance.description c ->
  let g1 := (Issuance.createBounty ie g).1 in
  Store.rows (db g1) = Store.rows (db g) ++ [draft_row ie g c] /\
  exists m : Z,
    (j <= m < total)%Z /\
    (exists b', bounties be m = Ok b'
                /\ Listener.bounty_name b' = Issuance.title c
                /\ Listener.bounty_description b' = Issuance.description c) /\
    (current_bounty be g1).2
    = Some (draft_row ie g c, Some (toString_int m)) /\
    Store.rows (db (current_bounty be g1).1)
    = Store.rows (db g) ++
      [ {| Store.id := Store.last_id (db g) + 1;
           Store.title := Issuance.title c;
           Store.description := Issuance.description c;
           Store.contract_bounty_id := Some (toString_int m);
           Store.created_at := Issuance.now_draft ie |} ].
Proof.
  intros Hwf Hnew Hgen Ht Hd Hw Hev Hres Hs Hc Hj Hb Hname Hdesc. cbn zeta.
  pose proof (generateBountyIdea_generated ie g gen c Hgen Ht Hd) as Hidea.
  set (g1 := set_db {| Store.rows := Store.rows (db g) ++ [draft_row ie g c];
                       Store.last_id := Store.last_id (db g) + 1 |} g)
    in Hidea.
  assert (Hg1 : (Issuance.createBounty ie g).1 = g1).
  { unfold Issuance.createBounty in Hres |- *.
    destruct (Issuance.session ie) as [[]|]; [|discriminate].
    rewrite Hidea in Hres |- *.
    destruct (Issuance.createSoloBounty ie _ _); [|discriminate].
    rewrite Hw, Hev in Hres |- *.
    destruct (Issuance.queryFilter ie _) as [events|]; [|discriminate].
    now destruct (Issuance.polled_id r events). }
  rewrite Hg1. split; [reflexivity|].
  assert (Hlatest : Store.latest (db g1) = Some (draft_row ie g c)).
  { unfold Store.latest. cbn [g1 db set_db Store.rows].
    now rewrite order_snoc_newest. }
  assert (Hmatch : forall x,
            matches (Issuance.title c) (Issuance.description c) x = true <->
            Listener.bounty_name x = Issuance.title c
            /\ Listener.bounty_description x = Issuance.description c).
  { intros x. unfold matches. rewrite andb_true_iff, !String.eqb_eq. tauto. }
  destruct (BackfillFacts.scan_finds be (Issuance.title c)
              (Issuance.description c) (Z.to_nat total) (Z.to_nat j) b)
    as (m & Hrange & (b' & Hb' & Hm') & _ & Hscan).
  { lia. }
  { now rewrite Z2Nat.id by lia. }
  { now apply Hmatch. }
  exists (Z.of_nat m). split; [lia|]. split.
  { exists b'. split; [exact Hb'|]. now apply Hmatch. }
  assert (Hfind :
    (findContractBountyId be (Issuance.title c) (Issuance.description c)).2
    = Some (toString_int (Z.of_nat m))).
  { unfold findContractBountyId. now rewrite Hs, Hc, Hscan. }
  unfold current_bounty. rewrite Hlatest.
  cbn [draft_row Store.contract_bounty_id Store.title Store.description
       Store.id falsy].
  rewrite Hfind.
  destruct (String.eqb_spec (toString_int (Z.of_nat m)) "") as [Hempty|_];
    [now apply BackfillFacts.toString_int_nonempty in Hempty|].
  cbn [fst snd]. split; [reflexivity|].
  cbn [g1 db set_db Store.set_contract_bounty_id Store.rows].
  rewrite map_app, (update_above_counter _ _ (db g) Hwf) by lia.
  cbn [map draft_row Store.id]. now rewrite Z.eqb_refl.
Qed.

Lemma polled_draft_is_backfilled_witness :
  let ie := Issuance.creation (Ok Issuance.generated_content)
              (Ok Issuance.receipt_without_event) Issuance.polled_events in
  let c := {| Issuance.title := "Top Hat Picnic";
              Issuance.description :=
                "Share a photo of a picnic in a top hat" |} in
  let g1 := (Issuance.createBounty ie Issuance.fresh).1 in
  Store.rows (db g1)
  = Store.rows (db Issuance.fresh) ++ [draft_row ie Issuance.fresh c] /\
  exists m : Z,
    (1 <= m < 5)%Z /\
    (exists b', bounties ledger m = Ok b'
                /\ Listener.bounty_name b' = Issuance.title c
                /\ Listener.bounty_description b' = Issuance.description c) /\
    (current_bounty ledger g1).2
    = Some (draft_row ie Issuance.fresh c, Some (toString_int m)) /\
    Store.rows (db (current_bounty ledger g1).1)
    = Store.rows (db Issuance.fresh) ++
      [ {| Store.id := Store.last_id (db Issuance.fresh) + 1;
           Store.title := Issuance.title c;
           Store.description := Issuance.description c;
           Store.contract_bounty_id := Some (toString_int m);
           Store.created_at := Issuance.now_draft ie |} ].
Proof.
  cbn zeta.
  apply (polled_draft_is_backfilled
           (Issuance.creation (Ok Issuance.generated_content)
              (Ok Issuance.receipt_without_event) Issuance.polled_events)
           ledger Issuance.fresh Issuance.generated_content
           {| Issuance.title := "Top Hat Picnic";
              Issuance.description :=
                "Share a photo of a picnic in a top hat" |}
           Issuance.receipt_without_event "42" 5%Z 1%Z
           {| Listener.bounty_name := "Top Hat Picnic";
              Listener.bounty_description :=
                "Share a photo of a picnic in a top hat" |});
    try reflexivity.
  - repeat split; [constructor | reflexivity | constructor].
  - constructor.
  - lia.
Defined.

(** X19.  A creation that read its identifier from the receipt, at a time
    later than its draft and than every row of the table, is what the
    current-bounty view shows from then on: whatever the ledger answers,
    the request shows the created row, which carries the created content
    and the identifier the creation returned, and leaves the state as it
    is. *)
Theorem created_bounty_is_current ie g r p bountyId :
  Forall (fun x => (Store.created_at x < Issuance.now_created ie)%Z)
         (Store.rows (db g)) ->
  (Issuance.now_draft ie < Issuance.now_created ie)%Z ->
  Issuance.wait ie = Ok r ->
  Issuance.bountyCreatedEvent r = Some p ->
  (Issuance.createBounty ie g).2 = Ok bountyId ->
  let g' := (Issuance.createBounty ie g).1 in
  exists row,
    last (Store.rows (db g')) = Some row /\
    Store.contract_bounty_id row = Some bountyId /\
    (Issuance.generateBountyIdea ie g).2
    = Some {| Issuance.title := Store.title row;
              Issuance.description := Store.description row |} /\
    forall be, current_bounty be g' = (g', Some (row, Some bountyId)).
Proof.
  intros Hold Hlt Hw Hev Hres. cbn zeta.
  assert (Hg1 : Forall (fun x => (Store.created_at x
                                  < Issuance.now_created ie)%Z)
                  (Store.rows (db (Issuance.generateBountyIdea ie g).1))).
  { destruct (IssuanceMore.generateBountyIdea_cases ie g)
      as [(gen & c & _ & _ & _ & Heq)|(err & i & c & used & _ & _ & _ & Heq)];
      rewrite Heq; cbn [fst db set_db set_usedFallbackIndices Store.rows];
      [|exact Hold].
    apply Forall_app. split; [exact Hold|].
    repeat constructor. exact Hlt. }
  unfold Issuance.createBounty in Hres |- *.
  destruct (Issuance.session ie) as [[]|]; [|discriminate].
  destruct (Issuance.generateBountyIdea ie g) as [g1 [c|]]; [|discriminate].
  cbn [fst snd] in Hg1 |- *.
  destruct (Issuance.createSoloBounty ie _ _); [|discriminate].
  rewrite Hw, Hev in Hres |- *. cbn [Store.insert fst snd] in Hres |- *.
  injection Hres as <-.
  eexists. split; [cbn [db set_db Store.rows]; apply last_snoc|].
  split; [reflexivity|]. split; [now destruct c|].
  intros be. unfold current_bounty, Store.latest.
  cbn [db set_db Store.rows].
  rewrite order_snoc_newest by exact Hg1.
  cbn [head Store.contract_bounty_id falsy].
  destruct (String.eqb_spec (toString_int (Issuance.log_id p)) "")
    as [Hempty|_];
    [now apply BackfillFacts.toString_int_nonempty in Hempty | reflexivity].
Qed.

Lemma created_bounty_is_current_witness :
  let ie := Issuance.creation (Ok Issuance.generated_content)
              (Ok Issuance.receipt_with_event) [] in
  let g' := (Issuance.createBounty ie Issuance.fresh).1 in
  exists row,
    last (Store.rows (db g')) = Some row /\
    Store.contract_bounty_id row = Some "42" /\
    (Issuance.generateBountyIdea ie Issuance.fresh).2
    = Some {| Issuance.title := Store.title row;
              Issuance.description := Store.description row |} /\
    forall be, current_bounty be g' = (g', Some (row, Some "42")).
Proof.
  cbn zeta.
  apply (created_bounty_is_current
           (Issuance.creation (Ok Issuance.generated_content)
              (Ok Issuance.receipt_with_event) [])
           Issuance.fresh Issuance.receipt_with_event
           {| Issuance.log_name := "BountyCreated"; Issuance.log_id := 42 |}
           "42");
    try reflexivity.
  constructor.
Defined.

End BackfillMore.

(** ** Start of the process *)

Module StartupFacts.

Import Listener Startup.
Local Open Scope list_scope.
Local Open Scope Z_scope.

(** Once the cursor is at or above [h], it stays there under every step,
    and every suspended activation has fetched a range above [h]. *)
Lemma step_above v h s a :
  h <= lastProcessedBlock (glob s) ->
  (forall x, In x (inflight s) -> h < act_from x <= act_latest x) ->
  h <= lastProcessedBlock (glob (step v s a))
  /\ forall x, In x (inflight (step v s a)) -> h < act_from x <= act_latest x.
Proof.
  intros Hcur Hfl. destruct a as [e|k]; cbn [step].
  - unfold tick_begin.
    destruct (getBlockNumber e) as [latest|err].
    + destruct (Z.ltb_spec (lastProcessedBlock (glob s)) latest).
      * destruct (queryFilter e _ _) as [events|qerr]; cbn [glob inflight].
        -- split; [assumption|]. intros x Hx.
           apply in_app_or in Hx as [Hx|[<-|[]]]; [auto|].
           cbn [act_from act_latest]. lia.
        -- split; [|assumption].
           now rewrite (proj1 (ListenerFacts.on_poll_error_cursor _ _ _ _)).
      * now split.
    + cbn [glob inflight]. split; [|assumption].
      now rewrite (proj1 (ListenerFacts.on_poll_error_cursor _ _ _ _)).
  - destruct (inflight s !! k) as [x|] eqn:Hk; [|now split].
    cbn [glob inflight]. split.
    + destruct (ListenerMore.tick_finish_cursor v (act_env x) (act_from x)
                  (act_latest x) (act_events x) (glob s)) as [-> | ->];
        [|assumption].
      assert (Hx : In x (inflight s))
        by (apply list_elem_of_In; now apply list_elem_of_lookup_2 in Hk).
      specialize (Hfl x Hx). lia.
    + intros y Hy. apply Hfl. apply list_elem_of_In.
      apply list_elem_of_In in Hy.
      now apply list_elem_of_delete_inv in Hy.
Qed.

Lemma after_above v h sched : forall s,
  h <= lastProcessedBlock (glob s) ->
  (forall x, In x (inflight s) -> h < act_from x <= act_latest x) ->
  h <= lastProcessedBlock (glob (after v s sched))
  /\ forall x, In x (inflight (after v s sched)) ->
               h < act_from x <= act_latest x.
Proof.
  unfold after. induction sched as [|a rest IH]; intros s Hcur Hfl;
    [now split|].
  cbn [fold_left]. destruct (step_above v h s a Hcur Hfl) as [Hcur' Hfl'].
  now apply IH.
Qed.

(** The ways [listen] can go. *)
Lemma listen_cases c probe height g :
  (exists err, (initializeContract c probe g).2 = Throw err /\
               listen c probe height g
               = (initializeContract c probe g, false))
  \/ (exists err,
        (initializeContract c probe g).2 = Ok () /\ height = Throw err /\
        listen c probe height g
        = (((initializeContract c probe g).1.1,
            (initializeContract c probe g).1.2, Throw err), false))
  \/ (exists h,
        (initializeContract c probe g).2 = Ok () /\ height = Ok h /\
        listen c probe height g
        = ((set_lastProcessedBlock h (initializeContract c probe g).1.1,
            (initializeContract c probe g).1.2, Ok ()), true)).
Proof.
  unfold listen.
  destruct (initializeContract c probe g) as [[g1 t] [[]|err]]; cbn [fst snd].
  - right. destruct height as [h|err]; cbn [setupClaimListener].
    + right. exists h. repeat split.
    + left. exists err. repeat split.
  - left. exists err. split; reflexivity.
Qed.

(** X20.  The poller is started only by a complete start: the timer is
    reached exactly when the callback of [app.listen] returns, which needs
    the private key, an answer of the node to the probe and to the height
    request, a wallet and the ABI.  The contract is then bound to the
    provider built by this start, and the cursor is the height read at that
    moment.  From there on, however the activations of the timer overlap,
    the cursor never falls below that height and every range an activation
    fetches begins above it: claims created at or before the height of the
    start are never examined. *)
Theorem start_bounds_polling v c probe height g :
  ((listen c probe height g).2 = true
   <-> (listen c probe height g).1.2 = Ok ()) /\
  ((listen c probe height g).2 = true ->
   exists h key,
     height = Ok h /\
     privateKey c = Some key /\ key <> "" /\
     (exists p, probe = Ok p) /\
     abi_loaded c = true /\
     let g' := (listen c probe height g).1.1.1 in
     lastProcessedBlock g' = h /\
     provider g' = S (provider g) /\
     contract g' = provider g' /\
     forall sched,
       let s := after v {| glob := g'; inflight := [] |} sched in
       h <= lastProcessedBlock (glob s) /\
       forall x, In x (inflight s) -> h < act_from x <= act_latest x).
Proof.
  destruct (listen_cases c probe height g)
    as [(err & Hi & ->)|[(err & Hi & _ & ->)|(h & Hi & -> & ->)]];
    cbn [fst snd].
  - rewrite Hi. split; [split; discriminate | discriminate].
  - split; [split; discriminate | discriminate].
  - split; [split; reflexivity|]. intros _.
    unfold initializeContract in Hi |- *.
    destruct (privateKey c) as [[|a key]|]; [discriminate| |discriminate].
    destruct probe as [p|]; [|discriminate].
    destruct (wallet_address c _); [|discriminate].
    destruct (abi_loaded c); [|discriminate].
    cbn [negb fst snd lastProcessedBlock set_lastProcessedBlock provider
         contract set_contract set_provider].
    exists h, (String a key).
    split; [reflexivity|]. split; [reflexivity|]. split; [discriminate|].
    split; [eauto|]. split; [reflexivity|].
    split; [reflexivity|]. split; [reflexivity|]. split; [reflexivity|].
    intros sched.
    apply (after_above v h sched {| glob := _; inflight := [] |});
      cbn [glob inflight]; [apply Z.le_refl | intros x []].
Qed.

End StartupFacts.

(** ** The claims of a bounty *)

Module ClaimsViewFacts.

Import ClaimsView.
Local Open Scope list_scope.

Lemma rejected_nil {A} (l : list (result A)) :
  rejected l = [] <-> l = Ok <$> fulfilled l.
Proof.
  unfold rejected, fulfilled.
  induction l as [|[a|err] rest IH]; cbn [omap list_omap fmap list_fmap].
  - split; reflexivity.
  - rewrite IH. split; [intros H; f_equal; exact H | intros [= H]; exact H].
  - split; [discriminate|]. intros H.
    assert (Hin : Throw err ∈ Throw err :: rest) by left.
    rewrite H in Hin. apply list_elem_of_fmap in Hin as (a & Ha & _).
    discriminate.
Qed.

Lemma fulfilled_Ok {A} (l : list A) : fulfilled (Ok <$> l) = l.
Proof.
  unfold fulfilled. induction l as [|a rest IH]; [reflexivity|].
  cbn [omap list_omap fmap list_fmap]. now rewrite IH.
Qed.

Lemma rejected_elem {A} (l : list (result A)) err :
  Throw err ∈ l -> err ∈ rejected l.
Proof.
  intros H. unfold rejected. apply list_elem_of_omap.
  exists (Throw err). split; [exact H | reflexivity].
Qed.

(** Every property of a document other than [null] can be read. *)
Lemma get_of_document k j : j <> JNull -> exists x, get k (Some j) = Ok x.
Proof. destruct j; [contradiction | cbn [get]; eauto ..]. Qed.

(** The formatting of one claim whose date renders. *)
Lemma format_claim_dated e c created :
  toISOString e (createdAt c) = Ok created ->
  (claim_metadata (nft e) (id c) = JNull /\ format_claim e c = Throw TypeError)
  \/ (claim_metadata (nft e) (id c) <> JNull /\
      exists f,
        format_claim e c = Ok f /\
        f_id f = toString_int (id c) /\
        f_createdAt f = created /\
        f_accepted f = accepted c /\
        forall image,
          get "image" (Some (claim_metadata (nft e) (id c))) = Ok image ->
          m_image (f_metadata f) = or_else image (JStr "")).
Proof.
  intros Hd. unfold format_claim. rewrite Hd. cbn [mbind result_bind].
  destruct (claim_metadata (nft e) (id c)) as [|b|n|s|items|fields] eqn:Hm;
    [left; split; reflexivity|right; split; [discriminate|]..];
    cbn [get mbind result_bind]; eexists; (split; [reflexivity|]);
    cbn [f_id f_createdAt f_accepted f_metadata m_image];
    repeat split; now intros image [= <-].
Qed.

Lemma format_all e claims :
  Forall (fun c => (exists created, toISOString e (createdAt c) = Ok created)
                   /\ claim_metadata (nft e) (id c) <> JNull) claims ->
  exists listed,
    map (format_claim e) claims = Ok <$> listed /\
    f_id <$> listed = (fun c => toString_int (id c)) <$> claims.
Proof.
  induction 1 as [|c rest [[created Hd] Hm] _ (listed & Hmap & Hids)].
  - exists []. split; reflexivity.
  - destruct (format_claim_dated e c created Hd)
      as [[Hnull _]|(_ & f & Hf & Hid & _)]; [contradiction|].
    exists (f :: listed). cbn [map fmap list_fmap].
    rewrite Hf, Hmap, Hid, Hids. split; reflexivity.
Qed.

(** X21.  In the listing of a bounty's claims a claim whose metadata cannot
    be fetched (the token has no URI, the gateway does not answer, the
    answer is not JSON) is still listed, with its own fields and every
    metadata field at its default.  A claim whose metadata document is the
    JSON value [null] is different: its formatting throws.  A document
    that is an object with a non-empty [image] string is shown with that
    string. *)
Theorem metadata_failure_is_isolated e c created :
  toISOString e (createdAt c) = Ok created ->
  let document :=
    tokenURI ← Admission.tokenURI (nft e) (id c);
    Admission.fetch_json (nft e)
      (replace "ipfs://" "https://ipfs.io/ipfs/" tokenURI) in
  (forall err,
     document = Throw err ->
     exists f,
       format_claim e c = Ok f /\
       f_id f = toString_int (id c) /\
       f_createdAt f = created /\
       f_accepted f = accepted c /\
       f_metadata f
       = {| m_image := JStr ""; m_name := JStr ""; m_description := JStr "";
            m_external_url := JStr ""; m_attributes := JArr [] |}) /\
  (document = Ok JNull -> format_claim e c = Throw TypeError) /\
  (forall fields url,
     document = Ok (JObj fields) ->
     field "image" fields = Some (JStr url) -> url <> "" ->
     exists f, format_claim e c = Ok f /\ m_image (f_metadata f) = JStr url).
Proof.
  intros Hd. cbn zeta. unfold format_claim, claim_metadata.
  rewrite Hd. cbn [mbind result_bind].
  destruct (Admission.tokenURI (nft e) (id c)) as [uri|err0];
    cbn [mbind result_bind].
  - destruct (Admission.fetch_json (nft e) _) as [j|err1].
    + split; [discriminate|]. split.
      * now intros [= ->].
      * intros fields url [= ->] Hf Hne. cbn [get mbind result_bind].
        eexists. split; [reflexivity|]. cbn [f_metadata m_image].
        rewrite Hf. unfold or_else. cbn [truthy].
        now destruct (String.eqb_spec url "").
    + split; [|split; discriminate].
      intros err _. eexists. repeat split.
  - split; [|split; discriminate].
    intros err _. eexists. repeat split.
Qed.

Lemma metadata_failure_is_isolated_witness :
  let document :=
    tokenURI ← Admission.tokenURI (nft gateway) (id claim_a);
    Admission.fetch_json (nft gateway)
      (replace "ipfs://" "https://ipfs.io/ipfs/" tokenURI) in
  (forall err,
     document = Throw err ->
     exists f,
       format_claim gateway claim_a = Ok f /\
       f_id f = toString_int (id claim_a) /\
       f_createdAt f = "2023-11-14T22:13:20.000Z" /\
       f_accepted f = accepted claim_a /\
       f_metadata f
       = {| m_image := JStr ""; m_name := JStr ""; m_description := JStr "";
            m_external_url := JStr ""; m_attributes := JArr [] |}) /\
  (document = Ok JNull -> format_claim gateway claim_a = Throw TypeError) /\
  (forall fields url,
     document = Ok (JObj fields) ->
     field "image" fields = Some (JStr url) -> url <> "" ->
     exists f, format_claim gateway claim_a = Ok f
               /\ m_image (f_metadata f) = JStr url).
Proof.
  apply (metadata_failure_is_isolated gateway claim_a
           "2023-11-14T22:13:20.000Z").
  reflexivity.
Defined.

(** X22.  The listing answers with the claims exactly when the contract is
    bound, the ledger returns the claims and the formatting of every claim
    returns; the claims are then listed all, in the ledger's order.  That is
    the case whenever every date renders and no metadata document is
    [null].  One claim whose document is [null] or whose date does not
    render fails the whole listing, whatever the other claims are. *)
Theorem claims_listing_outcome e g bountyId :
  (forall listed,
     claims_endpoint e g bountyId = Claims listed <->
     contract g <> 0 /\
     exists claims,
       getClaimsByBountyId e bountyId = Ok claims /\
       map (format_claim e) claims = Ok <$> listed) /\
  (forall claims,
     contract g <> 0 ->
     getClaimsByBountyId e bountyId = Ok claims ->
     Forall (fun c => (exists created, toISOString e (createdAt c) = Ok created)
                      /\ claim_metadata (nft e) (id c) <> JNull) claims ->
     exists listed,
       claims_endpoint e g bountyId = Claims listed /\
       f_id <$> listed = (fun c => toString_int (id c)) <$> claims) /\
  (forall claims c,
     getClaimsByBountyId e bountyId = Ok claims ->
     c ∈ claims ->
     (exists err, toISOString e (createdAt c) = Throw err)
     \/ claim_metadata (nft e) (id c) = JNull ->
     exists errors err,
       claims_endpoint e g bountyId = Failed500 errors /\ err ∈ errors).
Proof.
  split; [|split].
  - intros listed. unfold claims_endpoint.
    destruct (Nat.eqb_spec (contract g) 0) as [H0|H0].
    { split; [discriminate | intros [H _]; contradiction]. }
    destruct (getClaimsByBountyId e bountyId) as [claims|err].
    2:{ split; [discriminate | intros (_ & claims & H & _); discriminate]. }
    cbn zeta.
    destruct (rejected (map (format_claim e) claims)) as [|err errs] eqn:Hr.
    + apply rejected_nil in Hr. split.
      * intros [= <-]. split; [exact H0|]. exists claims. split; [reflexivity|].
        exact Hr.
      * intros (_ & claims' & [= <-] & Hl). rewrite Hl, fulfilled_Ok.
        reflexivity.
    + split; [discriminate|].
      intros (_ & claims' & [= <-] & Hl).
      rewrite Hl in Hr.
      assert (Hnil : rejected (Ok <$> listed) = [])
        by (apply rejected_nil; now rewrite fulfilled_Ok).
      congruence.
  - intros claims H0 Hc Hall. unfold claims_endpoint.
    destruct (Nat.eqb_spec (contract g) 0) as [|_]; [contradiction|].
    rewrite Hc. cbn zeta.
    destruct (format_all e claims Hall) as (listed & Hmap & Hids).
    exists listed.
    rewrite Hmap.
    assert (Hnil : rejected (Ok <$> listed) = [])
      by (apply rejected_nil; now rewrite fulfilled_Ok).
    rewrite Hnil, fulfilled_Ok. split; [reflexivity | exact Hids].
  - intros claims c Hc Hin Hbad. unfold claims_endpoint.
    destruct (Nat.eqb (contract g) 0);
      [exists [TypeError], TypeError; split; [reflexivity | left]|].
    rewrite Hc. cbn zeta.
    assert (Hrej : exists err, Throw err ∈ map (format_claim e) claims).
    { assert (Hthrow : exists err, format_claim e c = Throw err).
      { destruct Hbad as [[err Hd]|Hnull].
        - exists err. unfold format_claim. now rewrite Hd.
        - destruct (toISOString e (createdAt c)) as [created|err] eqn:Hd.
          + destruct (format_claim_dated e c created Hd)
              as [[_ Hf]|[Hnn _]]; [eauto | contradiction].
          + exists err. unfold format_claim. now rewrite Hd. }
      destruct Hthrow as [err Hf]. exists err. rewrite <- Hf.
      change (map ?f ?l) with (f <$> l). now apply list_elem_of_fmap_2. }
    destruct Hrej as [err Hrej]. apply rejected_elem in Hrej.
    destruct (rejected (map (format_claim e) claims)) as [|x xs] eqn:Hr.
    + now apply elem_of_nil in Hrej.
    + exists (x :: xs), err. split; [reflexivity | exact Hrej].
Qed.

End ClaimsViewFacts.

(** ** The list of previous bounties *)

Module PreviousViewFacts.

Import PreviousView Views.
Local Open Scope list_scope.

(** *** The order by creation time is an order *)







(** *** The winner of a listed bounty *)

(** [find] returns the first element that passes the test. *)
Lemma find_first {A} (f : A -> bool) l x :
  List.find f l = Some x <->
  exists before after,
    l = before ++ x :: after /\
    Forall (fun y => f y = false) before /\ f x = true.
Proof.
  induction l as [|y rest IH]; cbn [List.find].
  - split; [discriminate|]. intros (before & after & H & _).
    now destruct before.
  - destruct (f y) eqn:Hy.
    + split.
      * intros [= <-]. exists [], rest. repeat split; [constructor | exact Hy].
      * intros ([|z before] & after & H & Hb & Hx).
        -- now injection H as <- _.
        -- injection H as <- _. apply Forall_cons in Hb as [Hz _]. congruence.
    + rewrite IH. split.
      * intros (before & after & -> & Hb & Hx).
        exists (y :: before), after. repeat split; [|exact Hx].
        now constructor.
      * intros ([|z before] & after & H & Hb & Hx).
        -- injection H as -> _. congruence.
        -- injection H as <- ->. apply Forall_cons in Hb as [_ Hb].
           exists before, after. repeat split; assumption.
Qed.

Lemma matchingEvent_some bountyId c events ev :
  matchingEvent bountyId c events = Some ev ->
  ev ∈ events /\
  exists b, args ev = Some (b, ClaimsView.id c)
            /\ toString_int b = bountyId.
Proof.
  unfold matchingEvent. intros H. apply List.find_some in H as [Hin Hm].
  split; [now apply list_elem_of_In|].
  destruct (args ev) as [[b i]|]; [|discriminate].
  apply andb_true_iff in Hm as [Hb Hi].
  apply String.eqb_eq in Hb, Hi.
  apply AdmissionMore.toString_int_inj in Hi as ->. eauto.
Qed.

(** X24.  In the list of previous bounties the winner of a bounty is the
    issuer of the first accepted claim that the ledger lists for its
    identifier; there is a winner exactly when the row has an identifier,
    the ledger answers and some claim is accepted, whether or not the query
    for the acceptance events succeeds.  A transaction hash is shown only
    together with a winner, and it is the hash of an acceptance event whose
    arguments name this bounty and the winning claim. *)
Theorem previous_winner e b :
  (forall w,
     winner (previous e b) = Some w <->
     exists bountyId before c after,
       nonempty (Store.contract_bounty_id b) = Some bountyId /\
       getClaimsByBountyId e bountyId = Ok (before ++ c :: after) /\
       Forall (fun x => ClaimsView.accepted x = false) before /\
       ClaimsView.accepted c = true /\
       ClaimsView.issuer c = w) /\
  (forall h,
     claimTxHash (previous e b) = Some h ->
     exists bountyId c events ev z,
       nonempty (Store.contract_bounty_id b) = Some bountyId /\
       winner (previous e b) = Some (ClaimsView.issuer c) /\
       acceptedClaim (previous e b)
       = Some (toString_int (ClaimsView.id c), ClaimsView.issuer c) /\
       queryFilter e bountyId = Ok events /\
       ev ∈ events /\
       args ev = Some (z, ClaimsView.id c) /\
       toString_int z = bountyId /\
       transactionHash ev = h).
Proof.
  unfold previous.
  destruct (nonempty (Store.contract_bounty_id b)) as [bountyId|];
    cbn [winner claimTxHash acceptedClaim option_map].
  2:{ split; [|discriminate].
      intros w. split; [discriminate|].
      intros (? & ? & ? & ? & ? & _). discriminate. }
  unfold lookup.
  destruct (getClaimsByBountyId e bountyId) as [claims|err] eqn:Hget;
    cbn [winner claimTxHash acceptedClaim option_map].
  2:{ split; [|discriminate].
      intros w. split; [discriminate|].
      intros (? & ? & ? & ? & [= <-] & ? & _). congruence. }
  assert (Hunique : forall bid before0 c0 after0,
            Some bountyId = Some bid ->
            getClaimsByBountyId e bid = Ok (before0 ++ c0 :: after0) ->
            Forall (fun x => ClaimsView.accepted x = false) before0 ->
            ClaimsView.accepted c0 = true ->
            List.find ClaimsView.accepted claims = Some c0).
  { intros bid before0 c0 after0 [= <-] Hg Hb0 Ha0.
    rewrite Hget in Hg. injection Hg as ->. apply find_first. eauto. }
  destruct (List.find ClaimsView.accepted claims) as [c|] eqn:Hfind.
  - apply find_first in Hfind as Hfirst.
    destruct Hfirst as (before & after & Hclaims & Hbefore & Hacc).
    assert (Hw : forall w,
              Some (ClaimsView.issuer c) = Some w <->
              exists bountyId0 before0 c0 after0,
                Some bountyId = Some bountyId0 /\
                getClaimsByBountyId e bountyId0
                = Ok (before0 ++ c0 :: after0) /\
                Forall (fun x => ClaimsView.accepted x = false) before0 /\
                ClaimsView.accepted c0 = true /\
                ClaimsView.issuer c0 = w).
    { intros w. split.
      - intros [= <-]. exists bountyId, before, c, after.
        rewrite Hget, Hclaims. now repeat split.
      - intros (bid & before0 & c0 & after0 & Hbid & Hg & Hb0 & Ha0 & <-).
        specialize (Hunique bid before0 c0 after0 Hbid Hg Hb0 Ha0).
        now injection Hunique as ->. }
    destruct (queryFilter e bountyId) as [events|qerr] eqn:Hq;
      cbn [winner claimTxHash acceptedClaim option_map];
      (split; [exact Hw|]); [|discriminate].
    intros h Hh.
    destruct (matchingEvent bountyId c events) as [ev|] eqn:Hev;
      [|discriminate].
    injection Hh as <-.
    apply matchingEvent_some in Hev as (Hin & z & Hargs & Hz).
    exists bountyId, c, events, ev, z. now repeat split.
  - cbn [winner claimTxHash acceptedClaim option_map].
    split; [|discriminate].
    intros w. split; [discriminate|].
    intros (bid & before0 & c0 & after0 & Hbid & Hg & Hb0 & Ha0 & _).
    specialize (Hunique bid before0 c0 after0 Hbid Hg Hb0 Ha0).
    discriminate.
Qed.

End PreviousViewFacts.

(** ** The current bounty as shown *)

Module CurrentViewFacts.

Import CurrentView Views.
Local Open Scope list_scope.

Lemma nonempty_some x s : nonempty x = Some s -> x = Some s /\ s <> "".
Proof.
  unfold nonempty. destruct x as [t|]; [|discriminate].
  destruct (String.eqb_spec t ""); [discriminate|].
  now intros [= <-].
Qed.

(** X25.  [GET /current-bounty] answers 404 exactly when the table is
    empty and otherwise shows the newest row.  The [id] it shows is never
    empty.  When the response has a page address, the address is built from
    the shown [id], that [id] is the contract identifier the newest row has
    in the table after the request, and the submissions are the claims the
    ledger lists for it (zero when the lookup fails).  When the page address
    is [null], the shown [id] is the row number of the table, not an
    identifier of the contract, the newest row still has no identifier, and
    the submissions are zero. *)
Theorem current_view e g :
  let g' := (current_bounty_endpoint e g).1 in
  match (current_bounty_endpoint e g).2 with
  | NotFound404 => Store.rows (db g) = []
  | Current b =>
      exists r,
        Store.latest (db g) = Some r /\
        (day b, title b, description b, created_at b) = content_of r /\
        id b <> "" /\
        match poidhUrl b with
        | Some url =>
            url = ("https://poidh.xyz/degen/bounty/" ++ id b)%string /\
            (exists r', Store.latest (db g') = Some r' /\
                        Store.contract_bounty_id r' = Some (id b)) /\
            submissions b
            = match session e, getClaimsByBountyId e (id b) with
              | Ok _, Ok claims => length claims
              | _, _ => 0
              end
        | None =>
            id b = toString_int (Store.id r) /\
            (exists r', Store.latest (db g') = Some r' /\
                        nonempty (Store.contract_bounty_id r') = None) /\
            submissions b = 0
        end
  end.
Proof.
  cbn zeta. unfold current_bounty_endpoint.
  destruct (BackfillMore.current_bounty_cases (backfill e) g)
    as [[Hl Hc]|[(r & Hl & Hc)|(r & cid & Hl & _ & _ & Hne & Hc)]];
    rewrite Hc; cbn [fst snd].
  - now apply BackfillMore.latest_none.
  - exists r. split; [exact Hl|]. split; [reflexivity|].
    cbn [id poidhUrl submissions]. unfold submissionsCount.
    destruct (nonempty (Store.contract_bounty_id r)) as [s|] eqn:Hn;
      cbn [default option_map from_option].
    + apply nonempty_some in Hn as [Hs Hne]. split; [exact Hne|].
      split; [reflexivity|]. split; [eauto|].
      now destruct (session e).
    + split; [apply BackfillFacts.toString_int_nonempty|].
      split; [reflexivity|]. split; [eauto | reflexivity].
  - exists r. split; [exact Hl|]. split; [reflexivity|].
    cbn [id poidhUrl submissions]. unfold submissionsCount.
    assert (Hn : nonempty (Some cid) = Some cid).
    { cbn [nonempty]. now destruct (String.eqb_spec cid ""). }
    rewrite Hn. cbn [default option_map from_option].
    split; [exact Hne|]. split; [reflexivity|]. split.
    + cbn [db set_db].
      rewrite (BackfillMore.latest_after_update cid (Store.id r) (db g) r Hl),
        Z.eqb_refl.
      eexists. split; reflexivity.
    + now destruct (session e).
Qed.

End CurrentViewFacts.
